(** * x402r refund extension: the facilitator-side settlement helper and the
      server-side route processing, embedded in Rocq.

    Sources embedded here:
    - [facilitator.ts] ([isRateLimitError], [readContractWithRetry],
      [extractRefundInfo], [settleWithRefundHelper]);
    - [server.ts] ([declareRefundExtension], [refundable], [withRefund],
      [getCreateXAddress], [processRouteConfig], [processPaymentOption]);
    - [types.ts] ([isRefundableOption]);
    - [server/computeRelayAddress.ts] ([computeRelayAddress]).

    Line numbers in the comments are those of the listing that holds
    [server.ts], [types.ts] and [facilitator.ts] one after the other.

    Conventions.
    - A JavaScript string is a [string] of 8-bit characters.  On ASCII text
      (hex addresses, call data, the messages built by the helper) this is what
      the JavaScript code sees; [toLowerCase], [trim] and the regular expression
      act on ASCII only.
    - An [async] function is a function of the state monad [M]: the state is
      the world behind the signer together with the log of every interaction
      with it, newest event first.  A JavaScript exception is the [Throw]
      outcome.
    - The functions of [viem] and of the address-prediction package are
      parameters of the development. *)

From Stdlib Require Import ZArith Lia Ascii.
From Stdlib Require String.
From stdpp Require Import base numbers list strings gmap.

Local Open Scope Z_scope.

(** ** JavaScript strings *)

Module Js.

Definition lowerChar (c : ascii) : ascii :=
  let n := Ascii.nat_of_ascii c in
  if ((65 <=? n) && (n <=? 90))%nat then Ascii.ascii_of_nat (n + 32) else c.

(** [s.toLowerCase()] *)
Fixpoint toLowerCase (s : string) : string :=
  match s with
  | EmptyString => EmptyString
  | String c t => String (lowerChar c) (toLowerCase t)
  end.

(** [s.startsWith(p)] *)
Fixpoint startsWith (s p : string) : bool :=
  match p, s with
  | EmptyString, _ => true
  | String _ _, EmptyString => false
  | String a p', String b s' => if Ascii.eqb a b then startsWith s' p' else false
  end.

(** [s.includes(needle)] *)
Fixpoint includes (s needle : string) : bool :=
  startsWith s needle ||
  match s with
  | EmptyString => false
  | String _ t => includes t needle
  end.

(** [s.length] *)
Definition length (s : string) : Z := Z.of_nat (String.length s).

Fixpoint drop (n : nat) (s : string) : string :=
  match n, s with
  | O, _ => s
  | S _, EmptyString => EmptyString
  | S k, String _ t => drop k t
  end.

Fixpoint take (n : nat) (s : string) : string :=
  match n, s with
  | O, _ => EmptyString
  | S _, EmptyString => EmptyString
  | S k, String c t => String c (take k t)
  end.

(** The index arithmetic of [String.prototype.slice]: a negative index counts
    from the end, and both are clamped to the string. *)
Definition clampIndex (len i : Z) : Z :=
  if i <? 0 then Z.max (len + i) 0 else Z.min i len.

(** [s.slice(start, end)]; [None] for [end] is the number [NaN], which
    [slice] reads as 0. *)
Definition slice (s : string) (start : Z) (end_ : option Z) : string :=
  let len := length s in
  let from := clampIndex len start in
  let to := clampIndex len (default 0 end_) in
  take (Z.to_nat (to - from)) (drop (Z.to_nat from) s).

(** A text is kept as the bytes of its UTF-8 encoding.  The white space of
    ECMAScript (white space and line terminators) is, in ASCII, TAB, LF, VT,
    FF, CR and the space; beyond ASCII, U+00A0 in two bytes, and in three
    bytes U+1680, U+2000 to U+200A, U+2028, U+2029, U+202F, U+205F, U+3000
    and U+FEFF. *)
Definition isWhiteSpace (c : ascii) : bool :=
  match c with
  | "009" | "010" | "011" | "012" | "013" | " " => true
  | _ => false
  end%char.

Definition byte (c : ascii) : nat := Ascii.nat_of_ascii c.

(** [C2 A0]: U+00A0. *)
Definition isWhiteSpace2 (c1 c2 : ascii) : bool :=
  ((byte c1 =? 194) && (byte c2 =? 160))%nat.

(** [E1 9A 80]: U+1680.  [E2 80 80] to [E2 80 8A], [E2 80 A8], [E2 80 A9] and
    [E2 80 AF]: U+2000 to U+200A, U+2028, U+2029 and U+202F.  [E2 81 9F]:
    U+205F.  [E3 80 80]: U+3000.  [EF BB BF]: U+FEFF. *)
Definition isWhiteSpace3 (c1 c2 c3 : ascii) : bool :=
  ((byte c1 =? 225) && (byte c2 =? 154) && (byte c3 =? 128)
   || (byte c1 =? 226) && (byte c2 =? 128) &&
      ((128 <=? byte c3) && (byte c3 <=? 138)
       || (byte c3 =? 168) || (byte c3 =? 169) || (byte c3 =? 175))
   || (byte c1 =? 226) && (byte c2 =? 129) && (byte c3 =? 159)
   || (byte c1 =? 227) && (byte c2 =? 128) && (byte c3 =? 128)
   || (byte c1 =? 239) && (byte c2 =? 187) && (byte c3 =? 191))%nat.

(** [s.trimStart()], as [parseInt] skips white space as well. *)
Fixpoint trimStart (s : string) : string :=
  match s with
  | EmptyString => EmptyString
  | String c t =>
      if isWhiteSpace c then trimStart t
      else
        match t with
        | String c2 t2 =>
            if isWhiteSpace2 c c2 then trimStart t2
            else
              match t2 with
              | String c3 t3 => if isWhiteSpace3 c c2 c3 then trimStart t3 else s
              | EmptyString => s
              end
        | EmptyString => s
        end
  end.

(** [trimStart] of a text read from its end: the bytes of a white space come
    last byte first. *)
Fixpoint trimStartReversed (s : string) : string :=
  match s with
  | EmptyString => EmptyString
  | String c t =>
      if isWhiteSpace c then trimStartReversed t
      else
        match t with
        | String c2 t2 =>
            if isWhiteSpace2 c2 c then trimStartReversed t2
            else
              match t2 with
              | String c3 t3 => if isWhiteSpace3 c3 c2 c then trimStartReversed t3 else s
              | EmptyString => s
              end
        | EmptyString => s
        end
  end.

(** [s.trim()] *)
Definition trim (s : string) : string :=
  String.rev (trimStartReversed (String.rev (trimStart s))).

Definition hexDigit (c : ascii) : option Z :=
  let n := Z.of_nat (Ascii.nat_of_ascii c) in
  if (48 <=? n) && (n <=? 57) then Some (n - 48)
  else if (97 <=? n) && (n <=? 102) then Some (n - 87)
  else if (65 <=? n) && (n <=? 70) then Some (n - 55)
  else None.

(** The digits of [parseInt]: the longest run of hexadecimal digits, read as a
    number; [None] when there is no digit. *)
Fixpoint hexDigits (acc : option Z) (s : string) : option Z :=
  match s with
  | EmptyString => acc
  | String c t =>
      match hexDigit c with
      | Some d => hexDigits (Some (16 * default 0 acc + d)) t
      | None => acc
      end
  end.

Definition stripHexPrefix (s : string) : string :=
  match s with
  | String "0" (String "x" t) => t
  | String "0" (String "X" t) => t
  | _ => s
  end.

(** [parseInt(s, 16)]: leading white space, an optional sign, an optional
    [0x], then digits; [None] is [NaN].  The value is kept exact: the helper
    only uses it as a slice index, where a float beyond 2^53 and the exact
    integer clamp alike. *)
Definition parseInt16 (s : string) : option Z :=
  match trimStart s with
  | String "-" t => Z.opp <$> hexDigits None (stripHexPrefix t)
  | String "+" t => hexDigits None (stripHexPrefix t)
  | t => hexDigits None (stripHexPrefix t)
  end.

(** [Buffer.from(s, "hex")]: pairs of digits up to the first pair that is not
    hexadecimal; a trailing single digit is dropped. *)
Fixpoint bufferFromHex (s : string) : list ascii :=
  match s with
  | String a (String b t) =>
      match hexDigit a, hexDigit b with
      | Some h, Some l => Ascii.ascii_of_nat (Z.to_nat (16 * h + l)) :: bufferFromHex t
      | _, _ => []
      end
  | _ => []
  end.

(** [buf.toString("utf8").replace(/\0/g, "")]: the text is kept as its UTF-8
    bytes, without the NUL characters.  This is the code on bytes that are
    well-formed UTF-8; a byte that is not, which [Buffer] decodes as U+FFFD,
    is kept here as it is. *)
Fixpoint toStringNoNul (bs : list ascii) : string :=
  match bs with
  | [] => EmptyString
  | c :: t => if Ascii.eqb c "000"%char then toStringNoNul t else String c (toStringNoNul t)
  end.

(** [a || b] on possibly-undefined strings: the empty string is falsy. *)
Definition or (a b : option string) : option string :=
  match a with
  | Some s => if String.eqb s "" then b else a
  | None => b
  end.

(** [!v] on a possibly-undefined string. *)
Definition falsy (a : option string) : bool :=
  match a with
  | Some s => String.eqb s ""
  | None => true
  end.

End Js.

(** ** Thrown values

    What a [catch] clause can receive: a primitive (shown by [String(error)]),
    or an object with the fields the helper inspects.

    [status] is the number in [error.status], if it is one.  Of [details],
    [reason], [data] and [shortMessage] the code reads the strings only:
    [None] is a field that is absent or is not a string.  The message is
    read with [||] as well: for an instance of [Error] it is a string, as
    the constructor of [Error] makes it, [None] being the empty message of
    the prototype; for another object, [None] is a message that is absent
    or falsy, and [TOther] is the object whose message is truthy and is
    not a string, which hides [details]. *)

Inductive Thrown : Type :=
| TPrim (shown : string)
| TObj (instanceOfError : bool) (status : option Z)
       (message details reason data shortMessage : option string)
       (cause : option Thrown)
| TOther (status : option Z) (reason data shortMessage : option string)
         (cause : option Thrown).

(** [new Error(msg)] *)
Definition Error (msg : string) : Thrown :=
  TObj true None (Some msg) None None None None None.

(** [error instanceof Error ? error.message : String(error)] *)
Definition errorText (error : Thrown) : string :=
  match error with
  | TPrim s => s
  | TObj true _ message _ _ _ _ _ => default "" message
  | TObj false _ _ _ _ _ _ _ => "[object Object]"
  | TOther _ _ _ _ _ => "[object Object]"
  end.

Inductive Res (A : Type) : Type :=
| Ok (a : A)
| Throw (e : Thrown).
Arguments Ok {A} a.
Arguments Throw {A} e.

(** ** [isRateLimitError] *)

Fixpoint isRateLimitError (error : Thrown) : bool :=
  match error with
  | TPrim _ => false
  | TObj _ status message details _ _ _ cause =>
      match status with Some 429 => true | _ => false end
      || Js.includes (Js.toLowerCase (default "" (Js.or (Js.or message details) (Some "")))) "rate limit"
      || match cause with
         | Some c => isRateLimitError c
         | None => false
         end
  | TOther status _ _ _ cause =>
      match status with Some 429 => true | _ => false end
      || match cause with
         | Some c => isRateLimitError c
         | None => false
         end
  end.

(** The cause chain of a thrown value, outermost first. *)
Fixpoint causeChain (error : Thrown) : list Thrown :=
  error ::
  match error with
  | TObj _ _ _ _ _ _ _ (Some c) => causeChain c
  | TOther _ _ _ _ (Some c) => causeChain c
  | _ => []
  end.

(** One link of the chain is rate limited: its status is the number 429, or
    [message || details || ""] is a string that includes [rate limit],
    letter case apart. *)
Definition rateLimitedHere (error : Thrown) : bool :=
  match error with
  | TPrim _ => false
  | TObj _ status message details _ _ _ _ =>
      match status with Some 429 => true | _ => false end
      || Js.includes (Js.toLowerCase (default "" (Js.or (Js.or message details) (Some "")))) "rate limit"
  | TOther status _ _ _ _ =>
      match status with Some 429 => true | _ => false end
  end.

(** ** The signer and the log of its calls *)

(** The ABI constants of [facilitator.ts]; the last one is the inline
    [authorizationState] fragment of the nonce check. *)
Inductive Abi : Type :=
| FACTORY_ABI
| ESCROW_ABI
| RELAY_PROXY_ABI
| AUTHORIZATION_STATE_ABI.

(** The argument of [signer.readContract]. *)
Record ReadArgs : Type := mkRead {
  r_address : string;
  r_abi : Abi;
  r_functionName : string;
  r_args : list string;
}.

(** Values passed to a contract write: a hex string, a [BigInt], a number. *)
Inductive ArgVal : Type :=
| AHex (s : string)
| ABigInt (z : Z)
| ANumber (z : Z).

(** The argument of [signer.writeContract]. *)
Record WriteArgs : Type := mkWrite {
  w_address : string;
  w_abi : Abi;
  w_functionName : string;
  w_args : list ArgVal;
}.

Record Receipt : Type := mkReceipt { receipt_status : string }.

(** The type parameter [T] of [readContractWithRetry<T>]: the helper reads
    addresses ([string]) and flags ([boolean]). *)
Inductive RetTy : Type := TString | TBoolean.

Definition denote (T : RetTy) : Type :=
  match T with
  | TString => string
  | TBoolean => bool
  end.

Inductive RVal : Type :=
| VString (s : string)
| VBoolean (b : bool).

Definition toRVal {T : RetTy} : denote T -> RVal :=
  match T with
  | TString => VString
  | TBoolean => VBoolean
  end.

Definition mapRes {A B : Type} (f : A -> B) (r : Res A) : Res B :=
  match r with
  | Ok a => Ok (f a)
  | Throw e => Throw e
  end.

(** One interaction with the outside: the call and what came back. *)
Inductive Event : Type :=
| EvGetCode (address : string) (r : Res (option string))
| EvRead (a : ReadArgs) (r : Res RVal)
| EvWrite (a : WriteArgs) (r : Res string)
| EvWait (hash : string) (r : Res Receipt)
| EvSleep (ms : Z).

(** ** Payment data *)

(** [RefundExtensionInfo] as it arrives at run time: a missing field is
    [None]. *)
Record RefundExtensionInfo : Type := mkInfo {
  factoryAddress : option string;
  merchantPayouts : option (gmap string string);
}.

(** [RefundExtension]; its [schema] is a constant and is left out. *)
Record RefundExtension : Type := mkExtension {
  info : option RefundExtensionInfo;
}.

Definition REFUND_EXTENSION_KEY : string := "refund".
Definition REFUND_MARKER_KEY : string := "_x402_refund".

Record Authorization : Type := mkAuthorization {
  auth_from : string;
  auth_to : string;
  auth_value : string;
  auth_validAfter : string;
  auth_validBefore : string;
  auth_nonce : string;
}.

Record PaymentPayload : Type := mkPayload {
  extensions : option (gmap string RefundExtension);
  authorization : option Authorization;
  signature : option string;
}.

Record PaymentRequirements : Type := mkRequirements {
  req_payTo : string;
  req_asset : string;
  req_network : string;
}.

Record SettleResponse : Type := mkSettleResponse {
  success : bool;
  transaction : string;
  network : string;
  payer : string;
}.

(** What the helper extracts and passes on. *)
Record RefundInfo : Type := mkRefundInfo {
  ri_factoryAddress : string;
  ri_merchantPayouts : gmap string string;
}.

(** The result of [parseSignature]. *)
Record Signature : Type := mkSignature {
  sig_r : string;
  sig_s : string;
  sig_v : option Z;
  sig_yParity : option Z;
}.

(** ** The libraries the code imports *)

(** [viem] and the [BigInt] constructor.  A [Throw] is the exception the
    library raises. *)
Class Viem : Type := {
  getAddress : string -> Res string;
  isAddress : string -> bool;
  parseErc6492Signature : string -> Res string;
  parseSignature : string -> Res Signature;
  BigInt : string -> Res Z;
  keccak256 : string -> string;
  encodePacked : string -> string -> string;
  encodeAbiParameters : string -> string;
  predictCreate3Address : string -> string -> Res string;
}.

Definition zeroAddress : string := "0x0000000000000000000000000000000000000000".

(** What the world does while the helper waits in [setTimeout]. *)
Class Clock (W : Type) : Type := elapse : Z -> W -> W.

(** [FacilitatorEvmSigner], as far as the helper uses it.  Every call may
    answer differently each time: it reads and updates the world [W] behind
    the RPC provider. *)
Record FacilitatorEvmSigner (W : Type) : Type := mkSigner {
  getCode : string -> W -> Res (option string) * W;
  readContract : forall T : RetTy, ReadArgs -> W -> Res (denote T) * W;
  writeContract : WriteArgs -> W -> Res string * W;
  waitForTransactionReceipt : string -> W -> Res Receipt * W;
  getAddresses : W -> list string;
}.
Arguments getCode {W} _ _ _.
Arguments readContract {W} _ _ _ _.
Arguments writeContract {W} _ _ _.
Arguments waitForTransactionReceipt {W} _ _ _.
Arguments getAddresses {W} _ _.

(** ** The monad of [async] functions *)

Record St (W : Type) : Type := mkSt { world : W; log : list Event }.
Arguments mkSt {W} _ _.
Arguments world {W} _.
Arguments log {W} _.

Definition M (W A : Type) : Type := St W -> Res A * St W.

Definition ret {W A} (a : A) : M W A := fun st => (Ok a, st).

Definition throw {W A} (e : Thrown) : M W A := fun st => (Throw e, st).

Definition bind {W A B} (m : M W A) (k : A -> M W B) : M W B :=
  fun st =>
    match m st with
    | (Ok a, st') => k a st'
    | (Throw e, st') => (Throw e, st')
    end.

(** [try { m } catch (error) { h error }] *)
Definition tryCatch {W A} (m : M W A) (h : Thrown -> M W A) : M W A :=
  fun st =>
    match m st with
    | (Ok a, st') => (Ok a, st')
    | (Throw e, st') => h e st'
    end.

(** A synchronous call that may throw. *)
Definition liftRes {W A} (r : Res A) : M W A := fun st => (r, st).

Declare Scope async_scope.
Delimit Scope async_scope with async.
Notation "x <- m ;; k" := (bind m (fun x => k))
  (at level 100, m at next level, right associativity) : async_scope.
Notation "m ;;; k" := (bind m (fun _ => k))
  (at level 100, right associativity) : async_scope.
Local Open Scope async_scope.

Section Facilitator.

Context `{Viem} {W : Type} `{Clock W}.

Definition callGetCode (signer : FacilitatorEvmSigner W) (address : string)
  : M W (option string) :=
  fun st =>
    let (r, w) := getCode signer address (world st) in
    (r, mkSt w (EvGetCode address r :: log st)).

Definition callReadContract (signer : FacilitatorEvmSigner W) (T : RetTy)
  (args : ReadArgs) : M W (denote T) :=
  fun st =>
    let (r, w) := readContract signer T args (world st) in
    (r, mkSt w (EvRead args (mapRes toRVal r) :: log st)).

Definition callWriteContract (signer : FacilitatorEvmSigner W) (args : WriteArgs)
  : M W string :=
  fun st =>
    let (r, w) := writeContract signer args (world st) in
    (r, mkSt w (EvWrite args r :: log st)).

Definition callWaitForTransactionReceipt (signer : FacilitatorEvmSigner W)
  (hash : string) : M W Receipt :=
  fun st =>
    let (r, w) := waitForTransactionReceipt signer hash (world st) in
    (r, mkSt w (EvWait hash r :: log st)).

(** [signer.getAddresses()[0]] inside a template literal. *)
Definition firstAddress (signer : FacilitatorEvmSigner W) : M W string :=
  fun st => (Ok (default "undefined" (head (getAddresses signer (world st)))), st).

(** [await new Promise(resolve => setTimeout(resolve, ms))] *)
Definition sleep (ms : Z) : M W unit :=
  fun st => (Ok tt, mkSt (elapse ms (world st)) (EvSleep ms :: log st)).

(** ** [readContractWithRetry] *)

(** [Math.min(1000 * Math.pow(2, attempt), 16000)] *)
Definition delayMs (attempt : nat) : Z :=
  Z.min (1000 * 2 ^ Z.of_nat attempt) 16000.

(** The [for] loop at iteration [attempt], with [retriesLeft] standing for
    [maxRetries - attempt]: the test [attempt >= maxRetries] is
    [retriesLeft = 0], and leaving the loop throws [lastError], which is the
    error just caught. *)
Fixpoint readContractLoop (signer : FacilitatorEvmSigner W) (T : RetTy)
  (args : ReadArgs) (retriesLeft attempt : nat) : M W (denote T) :=
  tryCatch (callReadContract signer T args)
    (fun error =>
       if negb (isRateLimitError error) then throw error
       else
         match retriesLeft with
         | O => throw error
         | S k =>
             sleep (delayMs attempt) ;;;
             readContractLoop signer T args k (S attempt)
         end).

Definition readContractWithRetry (signer : FacilitatorEvmSigner W) (T : RetTy)
  (args : ReadArgs) (maxRetries : nat) : M W (denote T) :=
  readContractLoop signer T args maxRetries 0.

(** The default [maxRetries = 5]. *)
Definition defaultMaxRetries : nat := 5.

(** ** [extractRefundInfo] *)

Definition extractRefundInfo (paymentPayload : PaymentPayload)
  (_ : PaymentRequirements) : option RefundInfo :=
  match extensions paymentPayload ≫= (fun e => e !! REFUND_EXTENSION_KEY) with
  | None => None
  | Some extension =>
      match info extension with
      | None => None
      | Some i =>
          match factoryAddress i with
          | None => None
          | Some factory =>
              if String.eqb factory "" then None
              else if negb (isAddress factory) then None
              else Some (mkRefundInfo factory (default ∅ (merchantPayouts i)))
          end
      end
  end.

(** ** [settleWithRefundHelper] *)

(** [code && code !== "0x" && code.length > 2] *)
Definition codeExists (code : option string) : bool :=
  match code with
  | Some c => negb (String.eqb c "") && negb (String.eqb c "0x") && (2 <? Js.length c)
  | None => false
  end.

(** Lines 735-747: the factory must have code. *)
Definition checkFactory (signer : FacilitatorEvmSigner W) (factory : string)
  : M W unit :=
  tryCatch
    (address <- liftRes (getAddress factory) ;;
     factoryCode <- callGetCode signer address ;;
     if negb (codeExists factoryCode) then
       throw (Error ("Factory contract does not exist at " +:+ factory +:+
                     ". Invalid refund extension."))
     else ret tt)
    (fun error =>
       throw (Error ("Failed to check factory contract: " +:+ errorText error))).

(** Lines 760-779: the relay is deployed; [None] is the [return null] of the
    [catch] clause. *)
Definition readDeployedRelay (signer : FacilitatorEvmSigner W)
  (proxyAddress : string) : M W (option (string * string)) :=
  tryCatch
    (merchantPayout <- readContractWithRetry signer TString
        (mkRead proxyAddress RELAY_PROXY_ABI "MERCHANT_PAYOUT" []) defaultMaxRetries ;;
     escrowAddress <- readContractWithRetry signer TString
        (mkRead proxyAddress RELAY_PROXY_ABI "ESCROW" []) defaultMaxRetries ;;
     ret (Some (merchantPayout, escrowAddress)))
    (fun _ => ret None).

(** Lines 786-787: [merchantPayouts[proxyAddress] || merchantPayouts[proxyAddressLower]] *)
Definition lookupMerchantPayout (payouts : gmap string string)
  (proxyAddress : string) : option string :=
  Js.or (payouts !! proxyAddress) (payouts !! Js.toLowerCase proxyAddress).

(** [!merchantPayout || merchantPayout === zeroAddress] *)
Definition noMerchant (merchantPayout : option string) : bool :=
  Js.falsy merchantPayout ||
  match merchantPayout with
  | Some m => String.eqb m zeroAddress
  | None => false
  end.

(** Lines 838-848: poll for the code, [remaining] iterations from index [i],
    [deployedCode] being the last answer. *)
Fixpoint pollDeployedCode (signer : FacilitatorEvmSigner W) (proxyAddress : string)
  (remaining : nat) (i : Z) (deployedCode : option string) : M W (option string) :=
  match remaining with
  | O => ret deployedCode
  | S k =>
      (if 0 <? i then sleep (1000 * i) else ret tt) ;;;
      code <- callGetCode signer proxyAddress ;;
      if codeExists code then ret code
      else pollDeployedCode signer proxyAddress k (i + 1) code
  end.

Definition insufficientFunds (errorString : string) : bool :=
  Js.includes errorString "insufficient funds" ||
  Js.includes errorString "exceeds the balance" ||
  Js.includes errorString "insufficient balance" ||
  Js.includes errorString "the total cost" ||
  Js.includes errorString "exceeds the balance of the account".

Definition addressMismatchMessage (expectedAddress proxyAddress : string) : string :=
  "Address mismatch: Factory computed " +:+ expectedAddress +:+
  " but expected " +:+ proxyAddress +:+ ". " +:+
  "This may indicate a version or CreateX address mismatch.".

(** The line break of a template literal. *)
Definition newline : string := String "010"%char EmptyString.

(** Lines 877-901: the [catch] clause of the deployment. *)
Definition deployFailure {A} (signer : FacilitatorEvmSigner W) (error : Thrown)
  : M W A :=
  let errorMessage := errorText error in
  let errorString := Js.toLowerCase errorMessage in
  if insufficientFunds errorString then
    facilitatorAddress <- firstAddress signer ;;
    throw (Error (
      "Failed to deploy relay: Insufficient funds in facilitator account." +:+ newline +:+
      "The facilitator account (" +:+ facilitatorAddress +:+
      ") does not have enough ETH to pay for gas to deploy the relay contract." +:+ newline +:+
      "Please fund the facilitator account with ETH to cover gas costs." +:+ newline +:+
      "Original error: " +:+ errorMessage))
  else
    throw (Error ("Failed to deploy relay: " +:+ errorMessage)).

(** Lines 801-902: deploy the relay on demand; the result is the escrow read
    from the new proxy. *)
Definition deployRelay (signer : FacilitatorEvmSigner W)
  (factory merchantPayout proxyAddress : string) : M W string :=
  tryCatch
    (factoryChecksum <- liftRes (getAddress factory) ;;
     merchantChecksum <- liftRes (getAddress merchantPayout) ;;
     expectedAddress <- readContractWithRetry signer TString
        (mkRead factoryChecksum FACTORY_ABI "getRelayAddress" [merchantChecksum])
        defaultMaxRetries ;;
     if negb (String.eqb (Js.toLowerCase expectedAddress) (Js.toLowerCase proxyAddress))
     then throw (Error (addressMismatchMessage expectedAddress proxyAddress))
     else
       txHash <- callWriteContract signer
          (mkWrite factoryChecksum FACTORY_ABI "deployRelay" [AHex merchantChecksum]) ;;
       receipt <- callWaitForTransactionReceipt signer txHash ;;
       if negb (String.eqb (receipt_status receipt) "success") then
         throw (Error ("Relay deployment transaction failed: " +:+ txHash +:+
                       ". Transaction reverted."))
       else
         deployedCode <- pollDeployedCode signer proxyAddress 5 0 None ;;
         if negb (codeExists deployedCode) then
           actualAddress <- readContractWithRetry signer TString
              (mkRead factoryChecksum FACTORY_ABI "getRelayAddress" [merchantChecksum])
              defaultMaxRetries ;;
           throw (Error (
             "Relay deployment completed but contract code not found at " +:+
             proxyAddress +:+ ". " +:+
             "Transaction hash: " +:+ txHash +:+ ". Factory computed address: " +:+
             actualAddress +:+ ". " +:+
             "Expected address: " +:+ proxyAddress +:+ ". " +:+
             "This may indicate a CREATE3 deployment issue, timing problem, or address computation mismatch."))
         else
           readContractWithRetry signer TString
             (mkRead proxyAddress RELAY_PROXY_ABI "ESCROW" []) defaultMaxRetries)
    (deployFailure signer).

(** What the first half of the helper establishes. *)
Record Relay : Type := mkRelay {
  relay_proxyAddress : string;
  relay_merchantPayout : string;
  relay_escrowAddress : string;
}.

(** Lines 749-907: find the merchant and the escrow of the relay at [payTo],
    deploying the relay when it has no code.  [None] is [return null]. *)
Definition resolveRelay (signer : FacilitatorEvmSigner W) (refundInfo : RefundInfo)
  (paymentRequirements : PaymentRequirements) : M W (option Relay) :=
  proxyAddress <- liftRes (getAddress (req_payTo paymentRequirements)) ;;
  relayCode <- callGetCode signer proxyAddress ;;
  if codeExists relayCode then
    deployed <- readDeployedRelay signer proxyAddress ;;
    match deployed with
    | None => ret None
    | Some (merchantPayout, escrowAddress) =>
        if noMerchant (Some merchantPayout) then ret None
        else if String.eqb escrowAddress "" then
          throw (Error "Internal error: escrowAddress not set after deployment check")
        else ret (Some (mkRelay proxyAddress merchantPayout escrowAddress))
    end
  else
    match lookupMerchantPayout (ri_merchantPayouts refundInfo) proxyAddress with
    | None => ret None
    | Some merchantPayout =>
        if noMerchant (Some merchantPayout) then ret None
        else
          escrowAddress <- deployRelay signer (ri_factoryAddress refundInfo)
                             merchantPayout proxyAddress ;;
          if String.eqb escrowAddress "" then
            throw (Error "Internal error: escrowAddress not set after deployment check")
          else ret (Some (mkRelay proxyAddress merchantPayout escrowAddress))
    end.

(** Lines 909-928: the merchant must be registered with the escrow. *)
Definition checkMerchantRegistered (signer : FacilitatorEvmSigner W)
  (escrowAddress merchantPayout : string) : M W unit :=
  isRegistered <-
    tryCatch
      (escrowChecksum <- liftRes (getAddress escrowAddress) ;;
       merchantChecksum <- liftRes (getAddress merchantPayout) ;;
       readContractWithRetry signer TBoolean
         (mkRead escrowChecksum ESCROW_ABI "registeredMerchants" [merchantChecksum])
         defaultMaxRetries)
      (fun error =>
         throw (Error ("Failed to check merchant registration: " +:+ errorText error))) ;;
  if negb (isRegistered : bool) then
    throw (Error ("Merchant " +:+ merchantPayout +:+
      " is not registered. Please register at https://app.402r.org to enable refund functionality."))
  else ret tt.

Definition bindingMismatchMessage (authTo proxyAddress : string) : string :=
  "Authorization 'to' address (" +:+ authTo +:+
  ") does not match proxy address (" +:+ proxyAddress +:+ "). " +:+
  "The ERC3009 signature must be signed with to=proxyAddress.".

(** Lines 950-958: the authorization must name the proxy. *)
Definition verifyAuthorizationBinding (auth : Authorization) (proxyAddress : string)
  : M W unit :=
  authTo <- liftRes (getAddress (auth_to auth)) ;;
  if negb (String.eqb authTo proxyAddress) then
    throw (Error (bindingMismatchMessage authTo proxyAddress))
  else ret tt.

Definition tokenMismatchMessage (proxyTokenNormalized paymentAssetNormalized : string)
  : string :=
  "❌ ADDRESS MISMATCH: Proxy has " +:+ proxyTokenNormalized +:+
  " but payment requires " +:+ paymentAssetNormalized +:+ ". " +:+
  "The proxy was deployed with the wrong address. " +:+
  "This causes transferWithAuthorization to fail. " +:+
  "Solution: Redeploy the proxy with the correct address: " +:+ paymentAssetNormalized.

Definition escrowMismatchMessage (proxyEscrow escrowAddress : string) : string :=
  "Proxy ESCROW mismatch: proxy reports " +:+ proxyEscrow +:+
  " but we read " +:+ escrowAddress +:+ " earlier".

Definition immutablesFailureMessage (error : Thrown) : string :=
  "Failed to read proxy immutables. This may indicate a proxy deployment issue. " +:+
  "Error: " +:+ errorText error.

(** Lines 960-1002: the proxy's own token and escrow must agree with the
    payment. *)
Definition verifyProxyImmutables (signer : FacilitatorEvmSigner W)
  (proxyAddress : string) (paymentRequirements : PaymentRequirements)
  (escrowAddress : string) : M W unit :=
  tryCatch
    (proxyToken <- readContractWithRetry signer TString
        (mkRead proxyAddress RELAY_PROXY_ABI "TOKEN" []) defaultMaxRetries ;;
     proxyTokenNormalized <- liftRes (getAddress proxyToken) ;;
     paymentAssetNormalized <- liftRes (getAddress (req_asset paymentRequirements)) ;;
     if negb (String.eqb proxyTokenNormalized paymentAssetNormalized) then
       throw (Error (tokenMismatchMessage proxyTokenNormalized paymentAssetNormalized))
     else
       proxyEscrow <- readContractWithRetry signer TString
          (mkRead proxyAddress RELAY_PROXY_ABI "ESCROW" []) defaultMaxRetries ;;
       if negb (String.eqb (Js.toLowerCase proxyEscrow) (Js.toLowerCase escrowAddress))
       then throw (Error (escrowMismatchMessage proxyEscrow escrowAddress))
       else ret tt)
    (fun error => throw (Error (immutablesFailureMessage error))).

(** Lines 1004-1018: unwrap ERC-6492 and test for a 65-byte signature;
    [None] is the [return null] for other signatures. *)
Definition unwrapSignature (sig : string) : option string :=
  let parsedSignature :=
    match parseErc6492Signature sig with
    | Ok inner => inner
    | Throw _ => sig
    end in
  let signatureLength :=
    if Js.startsWith parsedSignature "0x" then Js.length parsedSignature - 2
    else Js.length parsedSignature in
  if signatureLength =? 130 then Some parsedSignature else None.

(** Line 1027: [(parsedSig.v as number | undefined) ?? parsedSig.yParity ?? 0] *)
Definition recoveryId (parsedSig : Signature) : ArgVal :=
  match sig_v parsedSig with
  | Some v => ABigInt v
  | None => ANumber (default 0 (sig_yParity parsedSig))
  end.

Definition nonceReusedMessage (nonce : string) : string :=
  "ERC3009 nonce " +:+ nonce +:+ " has already been used. " +:+
  "This authorization cannot be reused.".

(** Lines 1031-1062: the nonce check.  The [throw] for a used nonce stands
    inside the [try] whose [catch] clause is empty. *)
Definition checkNonceUnused (signer : FacilitatorEvmSigner W)
  (paymentRequirements : PaymentRequirements) (auth : Authorization) : M W unit :=
  tryCatch
    (tokenAddress <- liftRes (getAddress (req_asset paymentRequirements)) ;;
     authorizer <- liftRes (getAddress (auth_from auth)) ;;
     nonceUsed <- readContractWithRetry signer TBoolean
        (mkRead tokenAddress AUTHORIZATION_STATE_ABI "authorizationState"
           [authorizer; auth_nonce auth]) defaultMaxRetries ;;
     if (nonceUsed : bool) then throw (Error (nonceReusedMessage (auth_nonce auth)))
     else ret tt)
    (fun _ => ret tt).

(** ** Classifying the failure of [executeDeposit] (lines 1114-1185) *)

(** Lines 1136-1151: decode the data of a revert with a reason string.  Nothing
    in the [try] block can throw, so its [catch] clause is never entered. *)
Definition decodeRevertData (data : string) : option string :=
  if Js.startsWith data "0x08c379a0" then
    let lengthHex := Js.slice data 138 (Some 202) in
    let length := Js.parseInt16 lengthHex in
    let stringHex := Js.slice data 202 ((fun l => 202 + l * 2) <$> length) in
    let decodedReason := Js.toStringNoNul (Js.bufferFromHex stringHex) in
    if String.eqb decodedReason "" then None else Some decodedReason
  else None.

Definition isSeparator (c : ascii) : bool :=
  match c with
  | ":" | " " => true
  | _ => false
  end%char.

(** The line terminators, which [.] does not match: LF and CR, *)
Definition isLineTerminator (c : ascii) : bool :=
  match c with
  | "010" | "013" => true
  | _ => false
  end%char.

(** and, in the three bytes [E2 80 A8] and [E2 80 A9], U+2028 and U+2029. *)
Definition isLineSeparator (c1 c2 c3 : ascii) : bool :=
  ((Js.byte c1 =? 226) && (Js.byte c2 =? 128) &&
   ((Js.byte c3 =? 168) || (Js.byte c3 =? 169)))%nat.

(** [s] begins with a line terminator. *)
Definition atLineTerminator (s : string) : bool :=
  match s with
  | EmptyString => false
  | String c t =>
      isLineTerminator c ||
      match t with
      | String c2 (String c3 _) => isLineSeparator c c2 c3
      | _ => false
      end
  end.

(** What [.] matches greedily: the characters up to a line terminator. *)
Fixpoint restOfLine (s : string) : string :=
  match s with
  | EmptyString => EmptyString
  | String c t => if atLineTerminator s then EmptyString else String c (restOfLine t)
  end.

(** [(?:[: ]+)?(.+)] at the text after [reverted]: the separators are
    skipped and the rest of the line is captured; when nothing follows them,
    the matcher backs off one separator, which is then the capture.  [prev]
    is the last separator skipped. *)
Fixpoint captureReason (prev : option ascii) (s : string) : option string :=
  match s with
  | EmptyString => (fun p => String p EmptyString) <$> prev
  | String c t =>
      if isSeparator c then captureReason (Some c) t
      else if atLineTerminator s then (fun p => String p EmptyString) <$> prev
      else Some (restOfLine s)
  end.

(** [s.match(/reverted(?:[: ]+)?(.+)/i)], giving the capture [match[1]] of
    the leftmost match. *)
Fixpoint matchReverted (s : string) : option string :=
  match
    (if Js.startsWith (Js.toLowerCase s) "reverted"
     then captureReason None (Js.drop 8 s) else None)
  with
  | Some capture => Some capture
  | None =>
      match s with
      | EmptyString => None
      | String _ t => matchReverted t
      end
  end.

(** Lines 1120-1165: the revert reason found in the error, if any. *)
Definition extractRevertReason (error : Thrown) : option string :=
  match error with
  | TPrim _ => None
  | TObj _ _ _ _ _ _ shortMessage cause | TOther _ _ _ shortMessage cause =>
      let fromCause :=
        match cause with
        | Some (TObj _ _ _ _ reason data _ _) | Some (TOther _ reason data _ _) =>
            match data with
            | Some d =>
                if String.eqb d "" then reason
                else
                  match decodeRevertData d with
                  | Some decodedReason => Some decodedReason
                  | None => reason
                  end
            | None => reason
            end
        | _ => None
        end in
      match shortMessage with
      | Some sm =>
          if Js.falsy fromCause && Js.includes sm "reverted" then
            match matchReverted sm with
            | Some capture => Some (Js.trim capture)
            | None => fromCause
            end
          else fromCause
      | None => fromCause
      end
  end.

Definition noReasonMessage (errorMessage : string) : string :=
  "Contract execution reverted (no specific revert reason available). " +:+
  "All pre-checks passed: merchant registered, nonce unused, proxy immutables readable. " +:+
  "Possible failure points in executeDeposit: " +:+
  "1) _readImmutable staticcall failing (unlikely - we can read immutables directly), " +:+
  "2) ERC3009 transferWithAuthorization failing when called through proxy (most likely), " +:+
  "3) Transfer to escrow failing, " +:+
  "4) Escrow.noteDeposit failing - POOL.supply() may be paused, asset not configured in Aave pool, or pool has restrictions. " +:+
  "Check Aave pool status and asset configuration on Base Sepolia. " +:+
  "Debugging: Use a transaction trace/debugger on the failed transaction to see exact revert point. " +:+
  "The simulation succeeds, so the contract logic is correct - this is likely an execution context issue. " +:+
  "Original error: " +:+ errorMessage.

(** Lines 1167-1185: the error thrown once the retries are used up. *)
Definition classifyExecutionError (error : Thrown) : Thrown :=
  let errorMessage :=
    match extractRevertReason error with
    | Some revertReason =>
        if String.eqb revertReason "" || String.eqb revertReason "execution reverted"
        then noReasonMessage (errorText error)
        else "Contract reverted: " +:+ revertReason
    | None => noReasonMessage (errorText error)
    end in
  Error ("Failed to execute proxy.executeDeposit: " +:+ errorMessage).

(** ** The deposit (lines 1064-1112) *)

(** The body of the [try] block: one attempt at [executeDeposit]. *)
Definition attemptDeposit (signer : FacilitatorEvmSigner W) (proxyAddress : string)
  (paymentRequirements : PaymentRequirements) (auth : Authorization)
  (parsedSig : Signature) : M W SettleResponse :=
  fromUser <- liftRes (getAddress (auth_from auth)) ;;
  amount <- liftRes (BigInt (auth_value auth)) ;;
  validAfter <- liftRes (BigInt (auth_validAfter auth)) ;;
  validBefore <- liftRes (BigInt (auth_validBefore auth)) ;;
  txHash <- callWriteContract signer
     (mkWrite proxyAddress RELAY_PROXY_ABI "executeDeposit"
        [AHex fromUser; ABigInt amount; ABigInt validAfter; ABigInt validBefore;
         AHex (auth_nonce auth); recoveryId parsedSig;
         AHex (sig_r parsedSig); AHex (sig_s parsedSig)]) ;;
  receipt <- callWaitForTransactionReceipt signer txHash ;;
  if negb (String.eqb (receipt_status receipt) "success") then
    throw (Error ("Proxy.executeDeposit transaction failed: " +:+ txHash))
  else
    ret (mkSettleResponse true txHash (req_network paymentRequirements) (auth_from auth)).

(** The [for] loop at iteration [attempt], [retriesLeft] standing for
    [maxRetries - attempt].  Leaving the loop goes on to the classification
    of [lastError]. *)
Fixpoint executeDepositLoop (signer : FacilitatorEvmSigner W) (proxyAddress : string)
  (paymentRequirements : PaymentRequirements) (auth : Authorization)
  (parsedSig : Signature) (retriesLeft : nat) (attempt : Z) : M W SettleResponse :=
  tryCatch (attemptDeposit signer proxyAddress paymentRequirements auth parsedSig)
    (fun error =>
       match retriesLeft with
       | O => throw (classifyExecutionError error)
       | S k =>
           sleep ((attempt + 1) * 1000) ;;;
           executeDepositLoop signer proxyAddress paymentRequirements auth parsedSig
             k (attempt + 1)
       end).

(** [const maxRetries = 5] of the deposit loop. *)
Definition depositMaxRetries : nat := 5.

Definition executeDeposit (signer : FacilitatorEvmSigner W) (proxyAddress : string)
  (paymentRequirements : PaymentRequirements) (auth : Authorization)
  (parsedSig : Signature) : M W SettleResponse :=
  executeDepositLoop signer proxyAddress paymentRequirements auth parsedSig
    depositMaxRetries 0.

(** ** The helper as a whole *)

(** Lines 930-946: [!payload.authorization || !payload.signature] *)
Definition payloadParts (paymentPayload : PaymentPayload)
  : option (Authorization * string) :=
  match authorization paymentPayload, signature paymentPayload with
  | Some auth, Some sig => if String.eqb sig "" then None else Some (auth, sig)
  | _, _ => None
  end.

(** Lines 948-1112, once the relay is known and the merchant registered. *)
Definition settleOnRelay (signer : FacilitatorEvmSigner W)
  (paymentRequirements : PaymentRequirements) (relay : Relay)
  (auth : Authorization) (sig : string) : M W (option SettleResponse) :=
  let proxyAddress := relay_proxyAddress relay in
  verifyAuthorizationBinding auth proxyAddress ;;;
  verifyProxyImmutables signer proxyAddress paymentRequirements
    (relay_escrowAddress relay) ;;;
  match unwrapSignature sig with
  | None => ret None
  | Some parsedSignature =>
      parsedSig <- liftRes (parseSignature parsedSignature) ;;
      checkNonceUnused signer paymentRequirements auth ;;;
      response <- executeDeposit signer proxyAddress paymentRequirements auth parsedSig ;;
      ret (Some response)
  end.

(** Lines 735-928: everything up to the registration check. *)
Definition prepareRelay (signer : FacilitatorEvmSigner W) (refundInfo : RefundInfo)
  (paymentRequirements : PaymentRequirements) : M W (option Relay) :=
  checkFactory signer (ri_factoryAddress refundInfo) ;;;
  resolved <- resolveRelay signer refundInfo paymentRequirements ;;
  match resolved with
  | None => ret None
  | Some relay =>
      checkMerchantRegistered signer (relay_escrowAddress relay)
        (relay_merchantPayout relay) ;;;
      ret (Some relay)
  end.

Definition settleWithRefundHelper (paymentPayload : PaymentPayload)
  (paymentRequirements : PaymentRequirements) (signer : FacilitatorEvmSigner W)
  : M W (option SettleResponse) :=
  match extractRefundInfo paymentPayload paymentRequirements with
  | None => ret None
  | Some refundInfo =>
      prepared <- prepareRelay signer refundInfo paymentRequirements ;;
      match prepared with
      | None => ret None
      | Some relay =>
          match payloadParts paymentPayload with
          | None => ret None
          | Some (auth, sig) => settleOnRelay signer paymentRequirements relay auth sig
          end
      end
  end.

End Facilitator.

(** ** The server side: marking options and processing routes *)

(** Synchronous code that may throw. *)
Definition rbind {A B} (r : Res A) (k : A -> Res B) : Res B :=
  match r with
  | Ok a => k a
  | Throw e => Throw e
  end.

Declare Scope res_scope.
Delimit Scope res_scope with res.
Notation "x <- m ;; k" := (rbind m (fun x => k))
  (at level 100, m at next level, right associativity) : res_scope.

(** [array.map(f)] for an [f] that may throw: left to right, stopping at the
    first exception. *)
Fixpoint mapRes_list {A B} (f : A -> Res B) (l : list A) : Res (list B) :=
  match l with
  | [] => Ok []
  | a :: t => rbind (f a) (fun b => rbind (mapRes_list f t) (fun bs => Ok (b :: bs)))
  end.

(** Values kept in the [extra] side channel of an option. *)
Inductive JsVal : Type :=
| JBool (b : bool)
| JString (s : string)
| JNumber (z : Z).

(** [payTo] is an address or a function ([DynamicPayTo]). *)
Inductive PayTo : Type :=
| StaticPayTo (address : string)
| DynamicPayTo.

Record PaymentOption : Type := mkOption {
  opt_scheme : string;
  opt_payTo : PayTo;
  opt_price : string;
  opt_network : option string;
  opt_extra : option (gmap string JsVal);
}.

(** [accepts] is one option or an array of options. *)
Inductive Accepts : Type :=
| OneOption (o : PaymentOption)
| ManyOptions (l : list PaymentOption).

Record RouteConfig : Type := mkRoute {
  accepts : Accepts;
  route_description : option string;
  route_extensions : option (gmap string RefundExtension);
}.


(** [isRefundableOption] of [types.ts]. *)
Definition isRefundableOption (option : PaymentOption) : bool :=
  match opt_extra option with
  | Some extra =>
      match extra !! REFUND_MARKER_KEY with
      | Some (JBool true) => true
      | _ => false
      end
  | None => false
  end.

(** [declareRefundExtension] *)
Definition declareRefundExtension (factory : string) (payouts : gmap string string)
  : gmap string RefundExtension :=
  {[ REFUND_EXTENSION_KEY := mkExtension (Some (mkInfo (Some factory) (Some payouts))) ]}.

(** [refundable] *)
Definition refundable (option : PaymentOption) : PaymentOption :=
  mkOption (opt_scheme option) (opt_payTo option) (opt_price option)
    (opt_network option)
    (Some (<[REFUND_MARKER_KEY := JBool true]> (default ∅ (opt_extra option)))).

Definition STANDARD_CREATEX_ADDRESSES : gmap string string :=
  list_to_map
    [ ("eip155:1", "0xba5Ed099633D3B313e4D5F7bdc1305d3c32ba066");
      ("eip155:8453", "0xba5Ed099633D3B313e4D5F7bdc1305d3c28ba5Ed");
      ("eip155:84532", "0xba5Ed099633D3B313e4D5F7bdc1305d3c28ba5Ed") ].

(** [getCreateXAddress] *)
Definition getCreateXAddress (net : string) (providedAddress : option string)
  : Res string :=
  if negb (Js.falsy providedAddress) then Ok (default "" providedAddress)
  else
    match STANDARD_CREATEX_ADDRESSES !! net with
    | Some standardAddress => Ok standardAddress
    | None =>
        Throw (Error (
          "CreateX address not provided and no standard address found for network " +:+
          net +:+ ". " +:+
          "Please provide createxAddress parameter or check if CreateX is deployed on this network. " +:+
          "See https://github.com/pcaversaccio/createx#createx-deployments for standard deployments."))
    end.

Section Server.

Context `{Viem}.

Local Open Scope res_scope.

(** [computeRelayAddress] of [server/computeRelayAddress.ts] *)
Definition computeRelayAddress (createxAddress factory merchantPayout : string)
  : Res string :=
  createx <- getAddress createxAddress ;;
  factoryChecksum <- getAddress factory ;;
  merchant <- getAddress merchantPayout ;;
  let salt := keccak256 (encodePacked factoryChecksum merchant) in
  let guardedSalt := keccak256 (encodeAbiParameters salt) in
  predictCreate3Address createx guardedSalt.

(** [processPaymentOption] *)
Definition processPaymentOption (option : PaymentOption)
  (factory createxAddress : string) : Res PaymentOption :=
  if isRefundableOption option then
    match opt_payTo option with
    | DynamicPayTo =>
        Throw (Error
          "DynamicPayTo is not supported for refundable options. Use a static address.")
    | StaticPayTo merchantPayout =>
        proxyAddress <- computeRelayAddress createxAddress factory merchantPayout ;;
        Ok (mkOption (opt_scheme option) (StaticPayTo proxyAddress) (opt_price option)
              (opt_network option)
              (Some (delete REFUND_MARKER_KEY (default ∅ (opt_extra option)))))
    end
  else
    Ok (mkOption (opt_scheme option) (opt_payTo option) (opt_price option)
          (opt_network option) (Some (default ∅ (opt_extra option)))).

Definition optionsOf (a : Accepts) : list PaymentOption :=
  match a with
  | OneOption o => [o]
  | ManyOptions l => l
  end.

(** Lines 244-255 of [server.ts]: the loop filling [merchantPayoutsMap]. *)
Fixpoint collectMerchantPayouts (refundableOptions : list PaymentOption)
  (factory createxAddress : string) (merchantPayoutsMap : gmap string string)
  : Res (gmap string string) :=
  match refundableOptions with
  | [] => Ok merchantPayoutsMap
  | option :: rest =>
      match opt_payTo option with
      | StaticPayTo merchantPayout =>
          proxyAddress <- computeRelayAddress createxAddress factory merchantPayout ;;
          collectMerchantPayouts rest factory createxAddress
            (<[Js.toLowerCase proxyAddress := merchantPayout]> merchantPayoutsMap)
      | DynamicPayTo =>
          collectMerchantPayouts rest factory createxAddress merchantPayoutsMap
      end
  end.

(** [processRouteConfig] *)
Definition processRouteConfig (config : RouteConfig) (factory : string)
  (createxAddress : option string) : Res RouteConfig :=
  let firstOption := head (optionsOf (accepts config)) in
  let net := firstOption ≫= opt_network in
  if Js.falsy net then
    Throw (Error "Payment option must have a network field to determine CreateX address")
  else
    resolvedCreatexAddress <- getCreateXAddress (default "" net) createxAddress ;;
    let hasRefundable := existsb isRefundableOption (optionsOf (accepts config)) in
    merchantPayoutsMap <-
      (if hasRefundable then
         collectMerchantPayouts (List.filter isRefundableOption (optionsOf (accepts config)))
           factory resolvedCreatexAddress ∅
       else Ok ∅) ;;
    processedAccepts <-
      match accepts config with
      | ManyOptions l =>
          l' <- mapRes_list
                  (fun option => processPaymentOption option factory resolvedCreatexAddress) l ;;
          Ok (ManyOptions l')
      | OneOption o =>
          o' <- processPaymentOption o factory resolvedCreatexAddress ;;
          Ok (OneOption o')
      end ;;
    let processedExtensions := default ∅ (route_extensions config) in
    if hasRefundable && negb (bool_decide (merchantPayoutsMap = ∅)) then
      Ok (mkRoute processedAccepts (route_description config)
            (Some (declareRefundExtension factory merchantPayoutsMap ∪ processedExtensions)))
    else if hasRefundable then
      Throw (Error
        "Refundable option must have a string payTo address. DynamicPayTo is not supported for refundable options.")
    else
      Ok (mkRoute processedAccepts (route_description config) (Some processedExtensions)).



End Server.

(** ** Reading the log *)

Definition isWrite (e : Event) : bool :=
  match e with
  | EvWrite _ _ => true
  | _ => false
  end.

Definition isWriteOf (functionName : string) (e : Event) : bool :=
  match e with
  | EvWrite a _ => String.eqb (w_functionName a) functionName
  | _ => false
  end.

Definition isRead (e : Event) : bool :=
  match e with
  | EvRead _ _ => true
  | _ => false
  end.

(** The delays of a log, oldest first. *)
Fixpoint sleepsOf (events : list Event) : list Z :=
  match events with
  | [] => []
  | EvSleep ms :: t => sleepsOf t ++ [ms]
  | _ :: t => sleepsOf t
  end.

(** How many events of a log satisfy [p]. *)
Definition count (p : Event -> bool) (events : list Event) : nat :=
  length (List.filter p events).

(** [m] only adds events that satisfy [P] to the log. *)
Definition emits {W A} (P : Event -> Prop) (m : M W A) : Prop :=
  forall st, exists new, log (snd (m st)) = new ++ log st /\ Forall P new.

(** [m] keeps the property [I] of logs. *)
Definition preserves {W A} (I : list Event -> Prop) (m : M W A) : Prop :=
  forall st, I (log st) -> I (log (snd (m st))).

(** A run from a fresh log. *)
Definition run {W A} (m : M W A) (w : W) : Res A * St W := m (mkSt w []).

(** Every [deployRelay] transaction in the log comes right after a successful
    [getRelayAddress] read of the same factory for the same merchant, whose
    answer is the normalised [payTo] up to letter case. *)
Definition deployGuarded `{Viem} (payTo : string) (events : list Event) : Prop :=
  forall later earlier a r,
    events = later ++ EvWrite a r :: earlier ->
    w_functionName a = "deployRelay" ->
    exists proxyAddress merchant expectedAddress earlier',
      getAddress payTo = Ok proxyAddress /\
      w_args a = [AHex merchant] /\
      earlier = EvRead (mkRead (w_address a) FACTORY_ABI "getRelayAddress" [merchant])
                  (Ok (VString expectedAddress)) :: earlier' /\
      Js.toLowerCase expectedAddress = Js.toLowerCase proxyAddress.

(** [P] holds of every call other than [writeContract]. *)
Definition readOnly (P : Event -> Prop) : Prop := forall e, isWrite e = false -> P e.

(** An event other than a [deployRelay] transaction. *)
Definition notDeploy (e : Event) : Prop := isWriteOf "deployRelay" e = false.

(** The delays of the deposit loop after [n] failed attempts, the first of
    them being attempt number [attempt]: [(attempt + 1) * 1000] and so on. *)
Definition depositDelays (attempt : Z) (n : nat) : list Z :=
  map (fun k => (attempt + Z.of_nat k) * 1000) (seq 1 n).

(** The ABI encoding of [Error(string)] the revert data is expected to have:
    the selector [0x08c379a0], the offset word [0x20], the length word, and
    the bytes of the string padded with zeros to a multiple of 32 bytes. *)
Module ErrorString.

Definition hexChar (d : Z) : ascii :=
  Ascii.ascii_of_nat (Z.to_nat (if d <? 10 then 48 + d else 87 + d)).

Fixpoint hexOfBytes (s : string) : string :=
  match s with
  | EmptyString => EmptyString
  | String c t =>
      let n := Z.of_nat (Ascii.nat_of_ascii c) in
      String (hexChar (n / 16)) (String (hexChar (n mod 16)) (hexOfBytes t))
  end.

(** [digits] hexadecimal digits of [n], most significant first. *)
Fixpoint hexOfNumber (digits : nat) (n : Z) : string :=
  match digits with
  | O => EmptyString
  | S k => hexOfNumber k (n / 16) +:+ String (hexChar (n mod 16)) EmptyString
  end.

Fixpoint zeros (n : nat) : string :=
  match n with
  | O => EmptyString
  | S k => String "0"%char (zeros k)
  end.

Definition encode (reason : string) : string :=
  let len := String.length reason in
  let padding := ((32 - len mod 32) mod 32)%nat in
  "0x08c379a0" +:+ hexOfNumber 64 32 +:+ hexOfNumber 64 (Z.of_nat len) +:+
  hexOfBytes reason +:+ zeros (2 * padding).

End ErrorString.

(** ** A concrete provider, for examples

    The world is a counter of the calls made so far; a script says what each
    call answers at each count.  The library instance is a small stand-in:
    addresses are [0x] and forty hexadecimal digits, normalised by writing
    the letters in upper case; hashing and encoding keep the text; the
    CREATE3 prediction reads the digits of the merchant in the salt
    backwards, and answers for a salt made of normalised addresses only. *)
Module Demo.

Fixpoint allHex (s : string) : bool :=
  match s with
  | EmptyString => true
  | String c t => match Js.hexDigit c with Some _ => allHex t | None => false end
  end.

Definition wellFormed (s : string) : bool :=
  Js.startsWith s "0x" && (String.length s =? 42)%nat && allHex (Js.drop 2 s).

Definition upperChar (c : ascii) : ascii :=
  let n := Ascii.nat_of_ascii c in
  if ((97 <=? n) && (n <=? 122))%nat then Ascii.ascii_of_nat (n - 32) else c.

Fixpoint toUpperCase (s : string) : string :=
  match s with
  | EmptyString => EmptyString
  | String c t => String (upperChar c) (toUpperCase t)
  end.

Definition checksum (s : string) : string := "0x" +:+ toUpperCase (Js.drop 2 s).

Definition invalidAddress (s : string) : Thrown :=
  Error ("Address " +:+ s +:+ " is invalid.").

Fixpoint decimal (acc : Z) (s : string) : option Z :=
  match s with
  | EmptyString => Some acc
  | String c t =>
      let n := Z.of_nat (Ascii.nat_of_ascii c) in
      if (48 <=? n) && (n <=? 57) then decimal (10 * acc + (n - 48)) t else None
  end.

#[global] Instance viem : Viem := {|
  getAddress s := if wellFormed s then Ok (checksum s) else Throw (invalidAddress s);
  isAddress s :=
    wellFormed s && (String.eqb s (Js.toLowerCase s) || String.eqb s (checksum s));
  parseErc6492Signature s := Ok s;
  parseSignature s :=
    Ok (mkSignature (Js.take 66 s) ("0x" +:+ Js.take 64 (Js.drop 66 s))
          (Js.parseInt16 (Js.drop 130 s)) None);
  BigInt s :=
    match decimal 0 s with
    | Some z => Ok z
    | None => Throw (Error ("Cannot convert " +:+ s +:+ " to a BigInt"))
    end;
  keccak256 s := s;
  encodePacked a b := a +:+ Js.drop 2 b;
  encodeAbiParameters s := s;
  predictCreate3Address _ salt :=
    let address := "0x" +:+ Js.take 40 (String.rev (Js.drop 2 salt)) in
    if wellFormed address && String.eqb address (checksum address) then Ok address
    else Throw (Error "The salt is not made of checksummed addresses");
|}.

#[global] Instance clock : Clock nat := fun _ n => n.

Record Script : Type := mkScript {
  codeAt : string -> nat -> Res (option string);
  readAt : forall T : RetTy, ReadArgs -> nat -> Res (denote T);
  writeAt : WriteArgs -> nat -> Res string;
  receiptAt : string -> nat -> Res Receipt;
}.

Definition signer (script : Script) : FacilitatorEvmSigner nat :=
  {| getCode address n := (codeAt script address n, S n);
     readContract T args n := (readAt script T args n, S n);
     writeContract args n := (writeAt script args n, S n);
     waitForTransactionReceipt hash n := (receiptAt script hash n, S n);
     getAddresses _ := ["0x9999999999999999999999999999999999999999"] |}.

Definition factory : string := "0x1111111111111111111111111111111111111111".
Definition proxy : string := "0x2222222222222222222222222222222222222222".
Definition merchant : string := "0x3333333333333333333333333333333333333333".
Definition escrow : string := "0x4444444444444444444444444444444444444444".
Definition token : string := "0x5555555555555555555555555555555555555555".
Definition payerAddress : string := "0x6666666666666666666666666666666666666666".
Definition otherAddress : string := "0x7777777777777777777777777777777777777777".
Definition nonce : string :=
  "0x0000000000000000000000000000000000000000000000000000000000000001".
Definition signature65 : string :=
  "0x" +:+ ErrorString.zeros 63 +:+ "1" +:+ ErrorString.zeros 63 +:+ "2" +:+ "1b".

(** A deployed relay of a registered merchant; nothing fails. *)
Definition answers (T : RetTy) (args : ReadArgs) : denote T :=
  match T with
  | TString =>
      if String.eqb (r_functionName args) "MERCHANT_PAYOUT" then merchant
      else if String.eqb (r_functionName args) "ESCROW" then escrow
      else if String.eqb (r_functionName args) "TOKEN" then token
      else proxy
  | TBoolean => String.eqb (r_functionName args) "registeredMerchants"
  end.

Definition deployed : Script :=
  {| codeAt _ _ := Ok (Some "0x6080");
     readAt T args _ := Ok (answers T args);
     writeAt _ _ := Ok "0xabc1";
     receiptAt _ _ := Ok (mkReceipt "success") |}.

Definition requirements : PaymentRequirements :=
  mkRequirements proxy token "eip155:84532".

Definition authorizationTo (to : string) : Authorization :=
  mkAuthorization payerAddress to "10000" "0" "1893456000" nonce.

Definition payloadWith (factoryField : option string) (to : string) : PaymentPayload :=
  mkPayload
    (Some {[ REFUND_EXTENSION_KEY :=
               mkExtension (Some (mkInfo factoryField (Some {[ proxy := merchant ]}))) ]})
    (Some (authorizationTo to)) (Some signature65).

Definition payload : PaymentPayload := payloadWith (Some factory) proxy.

(** The same provider, with other answers to the reads, other code or other
    outcomes of the transactions. *)
Definition withReads (readAt' : forall T : RetTy, ReadArgs -> nat -> Res (denote T))
  : Script :=
  mkScript (codeAt deployed) readAt' (writeAt deployed) (receiptAt deployed).

Definition withWrites (writeAt' : WriteArgs -> nat -> Res string) : Script :=
  mkScript (codeAt deployed) (readAt deployed) writeAt' (receiptAt deployed).

Definition tooManyRequests : Thrown :=
  TObj true (Some 429) (Some "Too Many Requests") None None None None None.

Definition reverted : Thrown := Error "execution reverted".

(** The first two calls are rate limited. *)
Definition limitedTwice : Script :=
  withReads (fun T args n =>
    if (n <? 2)%nat then Throw tooManyRequests else Ok (answers T args)).


(** Every transaction fails with the given revert data in the cause. *)
Definition revertsWith (data : string) : Script :=
  withWrites (fun _ _ =>
    Throw (TObj true None (Some "execution reverted") None None None None
             (Some (TObj true None (Some "execution reverted") None None (Some data)
                      None None)))).

(** The proxy was deployed for another token. *)
Definition wrongToken : Script :=
  withReads (fun T args _ =>
    match T as T0 return Res (denote T0) with
    | TString =>
        if String.eqb (r_functionName args) "TOKEN" then Ok otherAddress
        else Ok (answers TString args)
    | TBoolean => Ok (answers TBoolean args)
    end).

(** There is code at [payTo], but it does not answer [MERCHANT_PAYOUT]. *)
Definition unreadable : Script :=
  withReads (fun T args _ =>
    if String.eqb (r_functionName args) "MERCHANT_PAYOUT" then Throw reverted
    else Ok (answers T args)).

(** The token reports the nonce as used. *)
Definition nonceUsed : Script :=
  withReads (fun T args _ =>
    match T as T0 return Res (denote T0) with
    | TString => Ok (answers TString args)
    | TBoolean => Ok true
    end).

(** Only the factory has code, and it computes another relay address. *)
Definition undeployed : Script :=
  mkScript
    (fun address _ => if String.eqb address factory then Ok (Some "0x6080") else Ok None)
    (fun T args _ =>
       match T as T0 return Res (denote T0) with
       | TString =>
           if String.eqb (r_functionName args) "getRelayAddress" then Ok otherAddress
           else Ok (answers TString args)
       | TBoolean => Ok (answers TBoolean args)
       end)
    (writeAt deployed) (receiptAt deployed).

Definition tokenRead : ReadArgs := mkRead proxy RELAY_PROXY_ABI "TOKEN" [].

(** A route with one refundable option paying a merchant whose address has
    letters. *)
Definition lettered : string := "0x00000000000000000000000000000000000000ab".

Definition route : RouteConfig :=
  mkRoute
    (OneOption
       (refundable (mkOption "exact" (StaticPayTo lettered) "$0.01" (Some "eip155:84532") None)))
    None None.

End Demo.

(** The calls of one [readContractWithRetry], oldest first, from iteration
    [attempt] with [retriesLeft] retries to go, and the outcome: either a
    last read, or a rate-limited failure, the delay of this iteration, and
    the calls of the next iteration. *)
Inductive RetryLog (args : ReadArgs)
  : nat -> nat -> list Event -> Res RVal -> Prop :=
| retry_last attempt retriesLeft r :
    (forall e, r = Throw e -> isRateLimitError e = true -> retriesLeft = O) ->
    RetryLog args attempt retriesLeft [EvRead args r] r
| retry_again attempt retriesLeft e rest r :
    isRateLimitError e = true ->
    RetryLog args (S attempt) retriesLeft rest r ->
    RetryLog args attempt (S retriesLeft)
      (EvRead args (Throw e) :: EvSleep (Z.min (1000 * 2 ^ Z.of_nat attempt) 16000) :: rest) r.

(** ** The example facilitator ([examples/facilitator/index.ts]) *)

(** What a hook answers: [{ abort, reason }]. *)
Record HookResult : Type := mkHookResult {
  abort : bool;
  hook_reason : string;
}.

(** The body of a [/settle] request; [body_payloadNetwork] is
    [req.body.paymentPayload.network]. *)
Record SettleRequest : Type := mkRequest {
  body_paymentPayload : option PaymentPayload;
  body_paymentRequirements : option PaymentRequirements;
  body_payloadNetwork : option string;
}.

(** What the endpoint sends back: the response of a settlement, the
    [{ success: false, errorReason, network }] of an aborted one, or a status
    with an error text. *)
Inductive Reply : Type :=
| ReplySettled (response : SettleResponse)
| ReplyAborted (errorReason net : string)
| ReplyStatus (code : Z) (error : string).

(** [s.replace(pattern, replacement)] for a literal pattern and a replacement
    without [$]: the first occurrence only. *)
Fixpoint replaceFirst (s pattern replacement : string) : string :=
  if Js.startsWith s pattern then replacement +:+ Js.drop (String.length pattern) s
  else
    match s with
    | EmptyString => EmptyString
    | String c t => String c (replaceFirst t pattern replacement)
    end.

Section ExampleFacilitator.

Context `{Viem} {W : Type} `{Clock W}.

(** The [onBeforeSettle] hook (lines 101-136), with the map
    [refundSettlementResults] passed in and out; [None] is [undefined], which
    lets the normal settlement go on. *)
Definition onBeforeSettle (signer : FacilitatorEvmSigner W)
  (paymentPayload : PaymentPayload) (requirements : PaymentRequirements)
  (refundSettlementResults : gmap string SettleResponse)
  : St W -> (option HookResult * gmap string SettleResponse) * St W :=
  fun st =>
    match settleWithRefundHelper paymentPayload requirements signer st with
    | (Ok (Some refundResult), st') =>
        let stored :=
          match authorization paymentPayload with
          | Some auth =>
              if String.eqb (auth_nonce auth) "" then refundSettlementResults
              else <[auth_nonce auth := refundResult]> refundSettlementResults
          | None => refundSettlementResults
          end in
        ((Some (mkHookResult true "handled_by_refund_helper"), stored), st')
    | (Ok None, st') => ((None, refundSettlementResults), st')
    | (Throw error, st') =>
        ((Some (mkHookResult true ("refund_helper_failed: " +:+ errorText error)),
          refundSettlementResults), st')
    end.

(** The [catch] clause of the [/settle] endpoint (lines 203-236). *)
Definition settleFailure (error : Thrown) (body : SettleRequest)
  (refundSettlementResults : gmap string SettleResponse)
  : Reply * gmap string SettleResponse :=
  match error with
  | TObj true _ message _ _ _ _ _ =>
      let text := default "" message in
      if Js.includes text "Settlement aborted:" then
        let abortReason := replaceFirst text "Settlement aborted: " "" in
        let aborted :=
          (ReplyAborted abortReason
             (default "unknown"
                (Js.or (Js.or (body_payloadNetwork body)
                              (req_network <$> body_paymentRequirements body))
                       (Some "unknown"))),
           refundSettlementResults) in
        if String.eqb abortReason "handled_by_refund_helper" then
          match body_paymentPayload body ≫= authorization with
          | Some auth =>
              if String.eqb (auth_nonce auth) "" then aborted
              else
                match refundSettlementResults !! auth_nonce auth with
                | Some storedResult =>
                    (ReplySettled storedResult,
                     delete (auth_nonce auth) refundSettlementResults)
                | None => aborted
                end
          | None => aborted
          end
        else aborted
      else (ReplyStatus 500 text, refundSettlementResults)
  | _ => (ReplyStatus 500 "Unknown error", refundSettlementResults)
  end.

(** The [/settle] endpoint (lines 188-237), for a request that has a body.
    [facilitatorSettle] is [facilitator.settle] of the x402 core, which runs
    the hooks and so may change the map. *)
Definition settleEndpoint
  (facilitatorSettle :
     PaymentPayload -> PaymentRequirements -> gmap string SettleResponse ->
     St W -> (Res SettleResponse * gmap string SettleResponse) * St W)
  (body : SettleRequest) (refundSettlementResults : gmap string SettleResponse)
  : St W -> (Reply * gmap string SettleResponse) * St W :=
  fun st =>
    match body_paymentPayload body, body_paymentRequirements body with
    | Some paymentPayload, Some paymentRequirements =>
        match facilitatorSettle paymentPayload paymentRequirements
                refundSettlementResults st with
        | ((Ok response, results), st') => ((ReplySettled response, results), st')
        | ((Throw error, results), st') => (settleFailure error body results, st')
        end
    | _, _ =>
        ((ReplyStatus 400 "Missing paymentPayload or paymentRequirements",
          refundSettlementResults), st)
    end.

End ExampleFacilitator.

(** ** More ways to read the log *)

Definition isGetCode (e : Event) : bool :=
  match e with
  | EvGetCode _ _ => true
  | _ => false
  end.

Definition isSleep (e : Event) : bool :=
  match e with
  | EvSleep _ => true
  | _ => false
  end.

(** The sum of the delays. *)
Definition totalDelay (events : list Event) : Z := foldr Z.add 0 (sleepsOf events).

(** The delays of the code polling after [n] polls that saw no code, the
    first of them being poll number [i]: [1000 * (i + 1)] and so on. *)
Definition pollDelays (i : Z) (n : nat) : list Z :=
  map (fun k => 1000 * (i + Z.of_nat k)) (seq 1 n).

(** ** More providers, for examples *)
Module Scenarios.

(** Nothing has code. *)
Definition noCode : Demo.Script :=
  Demo.mkScript (fun _ _ => Ok None) (Demo.readAt Demo.deployed)
    (Demo.writeAt Demo.deployed) (Demo.receiptAt Demo.deployed).

(** The escrow does not know the merchant. *)
Definition unregistered : Demo.Script :=
  Demo.withReads (fun T args _ =>
    match T as T0 return Res (denote T0) with
    | TString => Ok (Demo.answers TString args)
    | TBoolean => Ok false
    end).

(** The relay gets its code with the deployment: the proxy has code from the
    sixth call on. *)
Definition deploysOnDemand : Demo.Script :=
  Demo.mkScript
    (fun address n =>
       if String.eqb address Demo.factory then Ok (Some "0x6080")
       else if (n <? 5)%nat then Ok None else Ok (Some "0x6080"))
    (Demo.readAt Demo.deployed) (Demo.writeAt Demo.deployed)
    (Demo.receiptAt Demo.deployed).

(** The relay has no code yet, and the extension names no merchant for it. *)
Definition payloadWithoutEntry : PaymentPayload :=
  mkPayload
    (Some {[ REFUND_EXTENSION_KEY :=
               mkExtension (Some (mkInfo (Some Demo.factory) (Some ∅))) ]})
    (Some (Demo.authorizationTo Demo.proxy)) (Some Demo.signature65).


(** A route with a refundable and a plain option, as in the example server. *)
Definition plainOption : PaymentOption :=
  mkOption "exact" (StaticPayTo Demo.lettered) "$0.001" (Some "eip155:84532") None.

Definition mixedRoute : RouteConfig :=
  mkRoute (ManyOptions [refundable plainOption; plainOption])
    (Some "Weather data (refundable option available)") None.

(** The merchant of [Demo.lettered], spelled in capitals. *)
Definition capitals : string := "0x00000000000000000000000000000000000000AB".

(** A route whose two refundable options pay one merchant, spelled in two
    ways. *)
Definition twoSpellings : RouteConfig :=
  mkRoute
    (ManyOptions
       [refundable
          (mkOption "exact" (StaticPayTo Demo.lettered) "$0.01" (Some "eip155:84532") None);
        refundable
          (mkOption "exact" (StaticPayTo capitals) "$0.02" (Some "eip155:84532") None)])
    None None.

(** A thrown object with no [message], whose [details] speak of a rate
    limit; and an error whose [message] does not, with the same [details]. *)
Definition detailsOnly : Thrown :=
  TObj false None None (Some "Rate limit exceeded") None None None None.

Definition hiddenDetails : Thrown :=
  TObj true None (Some "Request failed") (Some "Rate limit exceeded") None None None None.

(** A thrown object whose [message] is the number 429, whatever its
    [details]. *)
Definition numberMessage : Thrown := TOther None None None None None.

(** Every read fails with the given error. *)
Definition readsFail (e : Thrown) : Demo.Script :=
  Demo.withReads (fun _ _ _ => Throw e).

(** The rest of a revert reason: a no-break space (U+00A0), then a line
    separator (U+2028) and a second line, in UTF-8. *)
Definition twoLines : string :=
  "nsufficient balance" +:+
  String (Ascii.ascii_of_nat 194) (String (Ascii.ascii_of_nat 160)
    (String (Ascii.ascii_of_nat 226) (String (Ascii.ascii_of_nat 128)
       (String (Ascii.ascii_of_nat 168) "second line")))).

(** A route whose refundable option computes its address when asked. *)
Definition dynamicRoute : RouteConfig :=
  mkRoute
    (OneOption
       (refundable (mkOption "exact" DynamicPayTo "$0.01" (Some "eip155:84532") None)))
    None None.

(** [facilitator.settle] as the endpoint expects it: the hook runs first; when
    it aborts, the call throws [Settlement aborted: ] and the reason;
    otherwise the normal settlement answers. *)
Definition settleThroughHook (script : Demo.Script) (paymentPayload : PaymentPayload)
  (paymentRequirements : PaymentRequirements) (results : gmap string SettleResponse)
  : St nat -> (Res SettleResponse * gmap string SettleResponse) * St nat :=
  fun st =>
    match onBeforeSettle (Demo.signer script) paymentPayload paymentRequirements results st with
    | ((Some hookResult, results1), st1) =>
        ((Throw (Error ("Settlement aborted: " +:+ hook_reason hookResult)), results1), st1)
    | ((None, results1), st1) =>
        ((Ok (mkSettleResponse true "0xdef2" (req_network paymentRequirements)
                Demo.payerAddress), results1), st1)
    end.

(** The body of a request for the payment of the examples. *)
Definition request : SettleRequest :=
  mkRequest (Some Demo.payload) (Some Demo.requirements) None.

End Scenarios.

(** ** Counting what a computation sends *)

(** [m] adds at most [n] events that satisfy [p] to the log. *)
Definition sends {W A} (p : Event -> bool) (n : nat) (m : M W A) : Prop :=
  forall st, exists new, log (snd (m st)) = new ++ log st /\ (count p new <= n)%nat.

(** What the polling for code leaves in the log before its last call: delays,
    and answers of the proxy address without code. *)
Definition failedPoll (proxyAddress : string) (e : Event) : Prop :=
  isSleep e = true \/
  exists code, e = EvGetCode proxyAddress (Ok code) /\ codeExists code = false.

(** A call that is no transaction, or one of the two transactions of the
    helper. *)
Definition knownTransaction (e : Event) : Prop :=
  isWrite e = false \/ isWriteOf "deployRelay" e = true \/ isWriteOf "executeDeposit" e = true.

Section ProcessedAccepts.

Context `{Viem}.

(** The [accepts] of [processedConfig] (lines 259-264 of [server.ts]), on its
    own. *)
Definition processAccepts (a : Accepts) (factory createxAddress : string) : Res Accepts :=
  match a with
  | ManyOptions l =>
      rbind (mapRes_list (fun option => processPaymentOption option factory createxAddress) l)
        (fun l' => Ok (ManyOptions l'))
  | OneOption o1 =>
      rbind (processPaymentOption o1 factory createxAddress) (fun o' => Ok (OneOption o'))
  end.

End ProcessedAccepts.

(** * Properties *)

(** ** Strings *)

Lemma lowerChar_idem c : Js.lowerChar (Js.lowerChar c) = Js.lowerChar c.
Proof. destruct c as [[] [] [] [] [] [] [] []]; reflexivity. Qed.

Lemma toLowerCase_idem s : Js.toLowerCase (Js.toLowerCase s) = Js.toLowerCase s.
Proof.
  induction s as [|c t IH]; simpl; [reflexivity|].
  now rewrite lowerChar_idem, IH.
Qed.

Lemma string_app_nil_l (s : string) : "" +:+ s = s.
Proof. reflexivity. Qed.

Lemma string_app_cons c (s t : string) : String c s +:+ t = String c (s +:+ t).
Proof. reflexivity. Qed.

Lemma string_app_assoc (a b c : string) : (a +:+ b) +:+ c = a +:+ (b +:+ c).
Proof.
  induction a as [|x a IH]; [reflexivity|].
  rewrite !string_app_cons. now rewrite IH.
Qed.

Lemma startsWith_app (p rest : string) : Js.startsWith (p +:+ rest) p = true.
Proof.
  induction p as [|c p IH]; [now destruct rest|].
  rewrite string_app_cons. simpl. now rewrite Ascii.eqb_refl.
Qed.

Lemma includes_here (s needle : string) :
  Js.startsWith s needle = true -> Js.includes s needle = true.
Proof. intros Hs. destruct s; simpl; simpl in Hs; now rewrite Hs. Qed.

Lemma includes_app_r (pre s needle : string) :
  Js.includes s needle = true -> Js.includes (pre +:+ s) needle = true.
Proof.
  intros Hs. induction pre as [|c pre IH]; [exact Hs|].
  rewrite string_app_cons. simpl. rewrite IH. apply orb_true_r.
Qed.

(** A text includes each of its parts. *)
Lemma includes_middle (pre mid post : string) :
  Js.includes (pre +:+ mid +:+ post) mid = true.
Proof. apply includes_app_r, includes_here, startsWith_app. Qed.

Lemma string_eqb_false (a b : string) : a <> b -> String.eqb a b = false.
Proof. intros Hne. now apply String.eqb_neq. Qed.

(** ** The rate-limit test follows the cause chain *)

Lemma isRateLimitError_chain error :
  isRateLimitError error = existsb rateLimitedHere (causeChain error).
Proof.
  revert error.
  fix IH 1. intros [shown|inst status message details reason data shortMessage cause
                    |status reason data shortMessage cause].
  - reflexivity.
  - destruct cause as [c|].
    + cbn [isRateLimitError causeChain existsb rateLimitedHere].
      now rewrite (IH c).
    + cbn [isRateLimitError causeChain existsb rateLimitedHere].
      now rewrite !orb_false_r.
  - destruct cause as [c|].
    + cbn [isRateLimitError causeChain existsb rateLimitedHere].
      now rewrite (IH c).
    + cbn [isRateLimitError causeChain existsb rateLimitedHere].
      now rewrite !orb_false_r.
Qed.

(** ** What a computation adds to the log *)

Section Logs.

Context {W : Type}.

Lemma emits_ret {A} P (a : A) : emits (W:=W) P (ret a).
Proof. intros st. exists []. split; [reflexivity|constructor]. Qed.

Lemma emits_throw {A} P e : emits (W:=W) (A:=A) P (throw e).
Proof. intros st. exists []. split; [reflexivity|constructor]. Qed.

Lemma emits_liftRes {A} P (r : Res A) : emits (W:=W) P (liftRes r).
Proof. intros st. exists []. split; [reflexivity|constructor]. Qed.

Lemma emits_bind {A B} P (m : M W A) (k : A -> M W B) :
  emits P m -> (forall a, emits P (k a)) -> emits P (bind m k).
Proof.
  intros Hm Hk st. unfold bind. destruct (Hm st) as (new1 & Hlog1 & Hnew1).
  destruct (m st) as [[a|e] st1]; cbn [snd] in *.
  - destruct (Hk a st1) as (new2 & Hlog2 & Hnew2).
    exists (new2 ++ new1). split.
    + rewrite Hlog2, Hlog1. apply app_assoc.
    + apply Forall_app. now split.
  - now exists new1.
Qed.

Lemma emits_tryCatch {A} P (m : M W A) (h : Thrown -> M W A) :
  emits P m -> (forall e, emits P (h e)) -> emits P (tryCatch m h).
Proof.
  intros Hm Hh st. unfold tryCatch. destruct (Hm st) as (new1 & Hlog1 & Hnew1).
  destruct (m st) as [[a|e] st1]; cbn [snd] in *.
  - now exists new1.
  - destruct (Hh e st1) as (new2 & Hlog2 & Hnew2).
    exists (new2 ++ new1). split.
    + rewrite Hlog2, Hlog1. apply app_assoc.
    + apply Forall_app. now split.
Qed.

Lemma emits_weaken {A} (P Q : Event -> Prop) (m : M W A) :
  (forall e, P e -> Q e) -> emits P m -> emits Q m.
Proof.
  intros HPQ Hm st. destruct (Hm st) as (new & Hlog & Hnew).
  exists new. split; [exact Hlog|]. eapply Forall_impl; eauto.
Qed.

Lemma emits_one {A} P (m : M W A) :
  (forall st, exists e, log (snd (m st)) = e :: log st /\ P e) -> emits P m.
Proof.
  intros Hm st. destruct (Hm st) as (e & Hlog & He).
  exists [e]. split; [exact Hlog|]. now constructor.
Qed.

Lemma preserves_emits {A} (I : list Event -> Prop) (P : Event -> Prop) (m : M W A) :
  (forall new old, Forall P new -> I old -> I (new ++ old)) ->
  emits P m -> preserves I m.
Proof.
  intros Happ Hm st Hst. destruct (Hm st) as (new & -> & Hnew). now apply Happ.
Qed.

Lemma preserves_bind {A B} I (m : M W A) (k : A -> M W B) :
  preserves I m ->
  (forall a st st', m st = (Ok a, st') -> I (log st') -> I (log (snd (k a st')))) ->
  preserves I (bind m k).
Proof.
  intros Hm Hk st Hst. unfold bind. specialize (Hm st Hst).
  destruct (m st) as [[a|e] st1] eqn:Hrun; cbn [snd] in *; eauto.
Qed.

Context `{Clock W}.
Variable signer : FacilitatorEvmSigner W.

Lemma emits_sleep P ms : readOnly P -> emits P (sleep ms).
Proof. intros HP. apply emits_one. intros st. exists (EvSleep ms). split; [reflexivity|now apply HP]. Qed.

Lemma emits_callGetCode P address : readOnly P -> emits P (callGetCode signer address).
Proof.
  intros HP. apply emits_one. intros st. unfold callGetCode.
  destruct (getCode signer address (world st)) as [r w].
  exists (EvGetCode address r). split; [reflexivity|now apply HP].
Qed.

Lemma emits_callReadContract P T args :
  readOnly P -> emits P (callReadContract signer T args).
Proof.
  intros HP. apply emits_one. intros st. unfold callReadContract.
  destruct (readContract signer T args (world st)) as [r w].
  exists (EvRead args (mapRes toRVal r)). split; [reflexivity|now apply HP].
Qed.

Lemma emits_callWait P hash :
  readOnly P -> emits P (callWaitForTransactionReceipt signer hash).
Proof.
  intros HP. apply emits_one. intros st. unfold callWaitForTransactionReceipt.
  destruct (waitForTransactionReceipt signer hash (world st)) as [r w].
  exists (EvWait hash r). split; [reflexivity|now apply HP].
Qed.

Lemma emits_callWriteContract (P : Event -> Prop) args :
  (forall r, P (EvWrite args r)) -> emits P (callWriteContract signer args).
Proof.
  intros HP. apply emits_one. intros st. unfold callWriteContract.
  destruct (writeContract signer args (world st)) as [r w].
  exists (EvWrite args r). split; [reflexivity|apply HP].
Qed.

Lemma emits_firstAddress P : emits P (firstAddress signer).
Proof. intros st. exists []. split; [reflexivity|constructor]. Qed.

Lemma emits_readContractLoop P T args retriesLeft attempt :
  readOnly P -> emits P (readContractLoop signer T args retriesLeft attempt).
Proof.
  intros HP. revert attempt.
  induction retriesLeft as [|k IH]; intros attempt; cbn [readContractLoop];
    apply emits_tryCatch; try (now apply emits_callReadContract);
    intros e; destruct (negb (isRateLimitError e)); try apply emits_throw.
  apply emits_bind; [now apply emits_sleep|intros _; apply IH].
Qed.

Lemma emits_readContractWithRetry P T args maxRetries :
  readOnly P -> emits P (readContractWithRetry signer T args maxRetries).
Proof. apply emits_readContractLoop. Qed.

End Logs.

(** Takes apart a goal [emits P m] along the structure of [m]. *)
Ltac emits_step :=
  lazymatch goal with
  | |- emits _ (ret _) => apply emits_ret
  | |- emits _ (throw _) => apply emits_throw
  | |- emits _ (liftRes _) => apply emits_liftRes
  | |- emits _ (firstAddress _) => apply emits_firstAddress
  | |- emits _ (sleep _) => apply emits_sleep; assumption
  | |- emits _ (callGetCode _ _) => apply emits_callGetCode; assumption
  | |- emits _ (callWaitForTransactionReceipt _ _) => apply emits_callWait; assumption
  | |- emits _ (callReadContract ?s ?T ?a) =>
      apply (emits_callReadContract s _ T a); assumption
  | |- emits _ (readContractWithRetry ?s ?T ?a ?n) =>
      apply (emits_readContractWithRetry s _ T a n); assumption
  | |- emits _ (bind _ _) => apply emits_bind; [|intros ?]
  | |- emits _ (tryCatch _ _) => apply emits_tryCatch; [|intros ?]
  | |- emits _ (if ?b then _ else _) => destruct b
  | |- emits _ (match ?x with _ => _ end) => destruct x
  end.

Ltac emits_auto := repeat emits_step.

Section Phases.

Context `{Viem} {W : Type} `{Clock W}.
Variable signer : FacilitatorEvmSigner W.
Variable P : Event -> Prop.
Hypothesis HP : readOnly P.

Lemma emits_checkFactory factory : emits P (checkFactory signer factory).
Proof. unfold checkFactory. emits_auto. Qed.

Lemma emits_readDeployedRelay proxyAddress : emits P (readDeployedRelay signer proxyAddress).
Proof. unfold readDeployedRelay. emits_auto. Qed.

Lemma emits_pollDeployedCode proxyAddress remaining : forall i code,
  emits P (pollDeployedCode signer proxyAddress remaining i code).
Proof.
  induction remaining as [|k IH]; intros i code; cbn [pollDeployedCode]; emits_auto.
  apply IH.
Qed.

Lemma emits_deployFailure {A} e : emits P (deployFailure (A:=A) signer e).
Proof. unfold deployFailure. emits_auto. Qed.

Lemma emits_checkMerchantRegistered escrowAddress merchantPayout :
  emits P (checkMerchantRegistered signer escrowAddress merchantPayout).
Proof. unfold checkMerchantRegistered. emits_auto. Qed.

Lemma emits_verifyAuthorizationBinding auth proxyAddress :
  emits (W:=W) P (verifyAuthorizationBinding auth proxyAddress).
Proof. unfold verifyAuthorizationBinding. emits_auto. Qed.

Lemma emits_verifyProxyImmutables proxyAddress paymentRequirements escrowAddress :
  emits P (verifyProxyImmutables signer proxyAddress paymentRequirements escrowAddress).
Proof. unfold verifyProxyImmutables. emits_auto. Qed.

Lemma emits_checkNonceUnused paymentRequirements auth :
  emits P (checkNonceUnused signer paymentRequirements auth).
Proof. unfold checkNonceUnused. emits_auto. Qed.

(** The deployment adds one write at most, of [deployRelay]. *)
Lemma emits_deployRelay factory merchantPayout proxyAddress :
  (forall a r, w_functionName a = "deployRelay" -> P (EvWrite a r)) ->
  emits P (deployRelay signer factory merchantPayout proxyAddress).
Proof.
  intros Hdeploy. unfold deployRelay. emits_auto;
    try apply emits_deployFailure; try apply emits_pollDeployedCode.
  apply emits_callWriteContract. intros r. now apply Hdeploy.
Qed.

Lemma emits_resolveRelay refundInfo paymentRequirements :
  (forall a r, w_functionName a = "deployRelay" -> P (EvWrite a r)) ->
  emits P (resolveRelay signer refundInfo paymentRequirements).
Proof.
  intros Hdeploy. unfold resolveRelay. emits_auto;
    try apply emits_readDeployedRelay; now apply emits_deployRelay.
Qed.

Lemma emits_prepareRelay refundInfo paymentRequirements :
  (forall a r, w_functionName a = "deployRelay" -> P (EvWrite a r)) ->
  emits P (prepareRelay signer refundInfo paymentRequirements).
Proof.
  intros Hdeploy. unfold prepareRelay. emits_auto;
    try apply emits_checkFactory; try apply emits_checkMerchantRegistered.
  now apply emits_resolveRelay.
Qed.

End Phases.

(** ** The read-retry policy *)

Section ReadRetry.

Context {W : Type} `{Clock W}.
Variable signer : FacilitatorEvmSigner W.

Lemma callReadContract_log T args st r st' :
  callReadContract signer T args st = (r, st') ->
  log st' = EvRead args (mapRes toRVal r) :: log st.
Proof.
  unfold callReadContract. destruct (readContract signer T args (world st)) as [r0 w].
  now intros [= <- <-].
Qed.

(** The loop leaves exactly a [RetryLog] behind. *)
Lemma readContractLoop_log T args retriesLeft : forall attempt st r st',
  readContractLoop signer T args retriesLeft attempt st = (r, st') ->
  exists calls, log st' = rev calls ++ log st /\
                RetryLog args attempt retriesLeft calls (mapRes toRVal r).
Proof.
  induction retriesLeft as [|k IH]; intros attempt st r st'; cbn [readContractLoop];
    unfold tryCatch; destruct (callReadContract signer T args st) as [[v|e] st1] eqn:Hcall;
    apply callReadContract_log in Hcall.
  - intros [= <- <-]. exists [EvRead args (Ok (toRVal v))]. split; [exact Hcall|].
    apply retry_last. discriminate.
  - destruct (isRateLimitError e) eqn:Hrl; cbn [negb]; unfold throw; intros [= <- <-];
      (exists [EvRead args (Throw e)]; split; [exact Hcall|]);
      apply retry_last; intros e' [= <-]; congruence.
  - intros [= <- <-]. exists [EvRead args (Ok (toRVal v))]. split; [exact Hcall|].
    apply retry_last. discriminate.
  - destruct (isRateLimitError e) eqn:Hrl; cbn [negb].
    + unfold bind, sleep. intros Hrest. apply IH in Hrest as (calls & Hlog & Hcalls).
      exists (EvRead args (Throw e) :: EvSleep (delayMs attempt) :: calls). split.
      * rewrite Hlog. cbn [log rev]. rewrite Hcall. cbn [mapRes].
        now rewrite <- !app_assoc.
      * now apply retry_again.
    + unfold throw. intros [= <- <-]. exists [EvRead args (Throw e)].
      split; [exact Hcall|]. apply retry_last. intros e' [= <-]; congruence.
Qed.

Lemma RetryLog_reads args attempt retriesLeft calls r :
  RetryLog args attempt retriesLeft calls r ->
  (count isRead calls <= retriesLeft + 1)%nat.
Proof.
  induction 1 as [|attempt left e rest r Hrl Hrest IH]; unfold count in *; cbn in *; lia.
Qed.

Lemma RetryLog_outcome args attempt retriesLeft calls r :
  RetryLog args attempt retriesLeft calls r ->
  exists before, calls = before ++ [EvRead args r].
Proof.
  induction 1 as [attempt left r Hr|attempt left e rest r Hrl Hrest [before ->]].
  - now exists [].
  - now exists (EvRead args (Throw e) :: EvSleep (Z.min (1000 * 2 ^ Z.of_nat attempt) 16000) :: before).
Qed.

(** Every failed read that is not the last call was rate limited, and is
    followed by the delay of its iteration and the next read; a failed read
    that is the last call is the outcome. *)
Lemma RetryLog_failure args attempt retriesLeft calls r :
  RetryLog args attempt retriesLeft calls r ->
  forall before e after,
    calls = before ++ EvRead args (Throw e) :: after ->
    (after = [] /\ r = Throw e /\
       (isRateLimitError e = true -> count isRead before = retriesLeft)) \/
    (isRateLimitError e = true /\ (count isRead before < retriesLeft)%nat /\
       exists r' after',
         after = EvSleep (delayMs (attempt + count isRead before)) :: EvRead args r' :: after').
Proof.
  induction 1 as [attempt left r Hr|attempt left e0 rest r Hrl Hrest IH];
    intros before e after Hsplit.
  - destruct before as [|x before].
    + injection Hsplit as -> <-. left. repeat split.
      intros Hrl. now rewrite (Hr e eq_refl Hrl).
    + destruct before; discriminate.
  - destruct before as [|x before].
    + injection Hsplit as <- <-. right. repeat split; [exact Hrl|unfold count; cbn; lia|].
      destruct (RetryLog_outcome _ _ _ _ _ Hrest) as [b Hb].
      replace (attempt + count isRead [])%nat with attempt by (unfold count; cbn; lia).
      inversion Hrest; subst; eauto.
    + injection Hsplit as <- Hsplit. destruct before as [|y before].
      * discriminate.
      * injection Hsplit as <- Hsplit.
        destruct (IH _ _ _ Hsplit) as [(-> & -> & Hcount)|(Hrl' & Hlt & r' & after' & ->)].
        -- left. repeat split. intros Hrl'. specialize (Hcount Hrl').
           unfold count in *. cbn. lia.
        -- right. repeat split; [exact Hrl'|unfold count in *; cbn; lia|].
           exists r', after'. do 3 f_equal.
           unfold count. cbn. lia.
Qed.

Lemma mapRes_Throw {A B} (f : A -> B) (r : Res A) e :
  mapRes f r = Throw e -> r = Throw e.
Proof. destruct r; [discriminate|]. now intros [= ->]. Qed.

(** C3, with the rate-limit test as the code has it: an error is rate
    limited when it, or an error along its chain of [cause] objects, has the
    number 429 for its [status], or has [rate limit], letter case apart, in
    the string [message || details || ""] ([isRateLimitError], which
    [isRateLimitError_chain] shows to be this test along the chain).

    [readContractWithRetry] calls [readContract] at most [maxRetries + 1]
    times; a failure that is not rate limited ends the calls and is the
    error thrown; a rate-limited failure of attempt number [k] (counted
    from 0) that still has a retry left is followed by a delay of
    [min(1000 * 2^k, 16000)] ms and the next read; a failure of the last
    attempt allowed, rate limited or not, ends the calls and is the error
    thrown; the outcome, value or error, is that of the last read made.
    [calls] are the calls of this invocation, oldest first. *)
Theorem readContractWithRetry_policy T args maxRetries (st : St W) r st' :
  readContractWithRetry signer T args maxRetries st = (r, st') ->
  exists calls,
    log st' = rev calls ++ log st /\
    (count isRead calls <= maxRetries + 1)%nat /\
    (forall before e after,
       calls = before ++ EvRead args (Throw e) :: after ->
       existsb rateLimitedHere (causeChain e) = false ->
       after = [] /\ r = Throw e) /\
    (forall before e after,
       calls = before ++ EvRead args (Throw e) :: after ->
       isRateLimitError e = true ->
       (count isRead before < maxRetries)%nat ->
       exists r' after',
         after = EvSleep (Z.min (1000 * 2 ^ Z.of_nat (count isRead before)) 16000)
                   :: EvRead args r' :: after') /\
    (forall e, r = Throw e -> exists before, calls = before ++ [EvRead args (Throw e)]) /\
    (forall before e after,
       calls = before ++ EvRead args (Throw e) :: after ->
       (maxRetries <= count isRead before)%nat ->
       after = [] /\ r = Throw e) /\
    (forall before e after,
       calls = before ++ EvRead args (Throw e) :: after ->
       after = [] -> r = Throw e) /\
    (exists before, calls = before ++ [EvRead args (mapRes toRVal r)]).
Proof.
  unfold readContractWithRetry. intros Hrun.
  apply readContractLoop_log in Hrun as (calls & Hlog & Hcalls).
  exists calls. split; [exact Hlog|]. split; [now apply RetryLog_reads in Hcalls|].
  split; [|split; [|split; [|split; [|split]]]]; [| | | | |now apply RetryLog_outcome in Hcalls].
  - intros before e after Hsplit Hnot. rewrite <- isRateLimitError_chain in Hnot.
    destruct (RetryLog_failure _ _ _ _ _ Hcalls _ _ _ Hsplit)
      as [(-> & Hr & _)|(Hrl & _)]; [|congruence].
    split; [reflexivity|]. now apply mapRes_Throw in Hr.
  - intros before e after Hsplit Hrl Hlt.
    destruct (RetryLog_failure _ _ _ _ _ Hcalls _ _ _ Hsplit)
      as [(_ & _ & Hcount)|(_ & _ & r' & after' & ->)].
    + specialize (Hcount Hrl). lia.
    + now exists r', after'.
  - intros e ->. now apply RetryLog_outcome in Hcalls.
  - intros before e after Hsplit Hlast.
    destruct (RetryLog_failure _ _ _ _ _ Hcalls _ _ _ Hsplit)
      as [(-> & Hr & _)|(_ & Hlt & _)]; [|lia].
    split; [reflexivity|]. now apply mapRes_Throw in Hr.
  - intros before e after Hsplit ->.
    destruct (RetryLog_failure _ _ _ _ _ Hcalls _ _ _ Hsplit)
      as [(_ & Hr & _)|(_ & _ & r' & after' & [=])].
    now apply mapRes_Throw in Hr.
Qed.

End ReadRetry.

(** ** The steps of the settlement *)

Section Settlement.

Context `{Viem} {W : Type} `{Clock W}.
Variable signer : FacilitatorEvmSigner W.

Lemma bind_Ok {A B} (m : M W A) (k : A -> M W B) st a st1 :
  m st = (Ok a, st1) -> bind m k st = k a st1.
Proof. unfold bind. now intros ->. Qed.

Lemma bind_Throw {A B} (m : M W A) (k : A -> M W B) st e st1 :
  m st = (Throw e, st1) -> bind m k st = (Throw e, st1).
Proof. unfold bind. now intros ->. Qed.

Lemma bind_inv {A B} (m : M W A) (k : A -> M W B) st r st2 :
  bind m k st = (r, st2) ->
  (exists a st1, m st = (Ok a, st1) /\ k a st1 = (r, st2)) \/
  (exists e, m st = (Throw e, st2) /\ r = Throw e).
Proof.
  unfold bind. destruct (m st) as [[a|e] st1].
  - intros Hk. left. now exists a, st1.
  - intros [= <- <-]. right. now exists e.
Qed.

(** The relay found is the one at the normalised [payTo]. *)
Lemma resolveRelay_proxy refundInfo paymentRequirements st relay st1 :
  resolveRelay signer refundInfo paymentRequirements st = (Ok (Some relay), st1) ->
  getAddress (req_payTo paymentRequirements) = Ok (relay_proxyAddress relay).
Proof.
  unfold resolveRelay. intros Hrun.
  apply bind_inv in Hrun as [(proxyAddress & st0 & Hproxy & Hrun)|(e & _ & [=])].
  unfold liftRes in Hproxy. injection Hproxy as Hproxy <-. rewrite Hproxy. f_equal.
  apply bind_inv in Hrun as [(code & st2 & _ & Hrun)|(e & _ & [=])].
  destruct (codeExists code).
  - apply bind_inv in Hrun as [(deployed & st3 & _ & Hrun)|(e & _ & [=])].
    destruct deployed as [[merchantPayout escrowAddress]|]; [|discriminate].
    destruct (noMerchant _); [discriminate|].
    destruct (String.eqb escrowAddress ""); [discriminate|].
    now injection Hrun as <- _.
  - destruct (lookupMerchantPayout _ _) as [merchantPayout|]; [|discriminate].
    destruct (noMerchant _); [discriminate|].
    apply bind_inv in Hrun as [(escrowAddress & st3 & _ & Hrun)|(e & _ & [=])].
    destruct (String.eqb escrowAddress ""); [discriminate|].
    now injection Hrun as <- _.
Qed.

Lemma prepareRelay_proxy refundInfo paymentRequirements st relay st1 :
  prepareRelay signer refundInfo paymentRequirements st = (Ok (Some relay), st1) ->
  getAddress (req_payTo paymentRequirements) = Ok (relay_proxyAddress relay).
Proof.
  unfold prepareRelay. intros Hrun.
  apply bind_inv in Hrun as [(_u & st0 & _ & Hrun)|(e & _ & [=])].
  apply bind_inv in Hrun as [(resolved & st2 & Hresolve & Hrun)|(e & _ & [=])].
  destruct resolved as [relay'|]; [|discriminate].
  apply bind_inv in Hrun as [(_v & st3 & _ & Hrun)|(e & _ & [=])].
  injection Hrun as -> _. now apply resolveRelay_proxy in Hresolve.
Qed.

(** Where the helper stands once the relay is prepared and the payload has
    its two parts. *)
Lemma settle_on_relay paymentPayload paymentRequirements refundInfo relay auth sig st st1 :
  extractRefundInfo paymentPayload paymentRequirements = Some refundInfo ->
  prepareRelay signer refundInfo paymentRequirements st = (Ok (Some relay), st1) ->
  payloadParts paymentPayload = Some (auth, sig) ->
  settleWithRefundHelper paymentPayload paymentRequirements signer st =
  settleOnRelay signer paymentRequirements relay auth sig st1.
Proof.
  intros Hinfo Hprep Hparts. unfold settleWithRefundHelper.
  rewrite Hinfo. rewrite (bind_Ok _ _ _ _ _ Hprep). now rewrite Hparts.
Qed.

(** C1.  Once the factory has code, the relay is resolved and the merchant is
    registered ([prepareRelay] succeeds), and the payload carries an
    authorization and a signature: if the checksum-normalised
    [authorization.to] differs from the checksum-normalised
    [paymentRequirements.payTo], the helper throws the binding-mismatch
    error; it returns neither [null] nor a response. *)
Theorem binding_mismatch_raises paymentPayload paymentRequirements refundInfo relay
    auth sig authTo proxyAddress (st st1 : St W) :
  extractRefundInfo paymentPayload paymentRequirements = Some refundInfo ->
  prepareRelay signer refundInfo paymentRequirements st = (Ok (Some relay), st1) ->
  payloadParts paymentPayload = Some (auth, sig) ->
  getAddress (auth_to auth) = Ok authTo ->
  getAddress (req_payTo paymentRequirements) = Ok proxyAddress ->
  authTo <> proxyAddress ->
  settleWithRefundHelper paymentPayload paymentRequirements signer st =
  (Throw (Error (bindingMismatchMessage authTo proxyAddress)), st1).
Proof.
  intros Hinfo Hprep Hparts Hto HpayTo Hne.
  rewrite (settle_on_relay _ _ _ _ _ _ _ _ Hinfo Hprep Hparts).
  apply prepareRelay_proxy in Hprep. rewrite HpayTo in Hprep. injection Hprep as Hproxy.
  unfold settleOnRelay, verifyAuthorizationBinding, bind, liftRes.
  rewrite <- Hproxy, Hto. now rewrite (string_eqb_false _ _ Hne).
Qed.

(** C8, as the code has it.  A refund extension whose [factoryAddress] is
    missing, empty or not an address makes [extractRefundInfo] return [null],
    and the helper returns [null] without any call to the signer. *)
Theorem invalid_factory_not_applicable paymentPayload paymentRequirements exts
    extension information (st : St W) :
  extensions paymentPayload = Some exts ->
  exts !! REFUND_EXTENSION_KEY = Some extension ->
  info extension = Some information ->
  (factoryAddress information = None \/
   exists factory, factoryAddress information = Some factory /\
                   (factory = "" \/ isAddress factory = false)) ->
  extractRefundInfo paymentPayload paymentRequirements = None /\
  settleWithRefundHelper paymentPayload paymentRequirements signer st = (Ok None, st).
Proof.
  intros Hexts Hext Hinfo Hfactory.
  assert (extractRefundInfo paymentPayload paymentRequirements = None) as Hnone.
  { unfold extractRefundInfo. rewrite Hexts. cbn [mbind option_bind]. rewrite Hext, Hinfo.
    destruct Hfactory as [->|(factory & -> & [->|Hbad])]; [reflexivity..|].
    destruct (String.eqb factory ""); [reflexivity|]. now rewrite Hbad. }
  split; [exact Hnone|]. unfold settleWithRefundHelper. now rewrite Hnone.
Qed.

(** The nonce check never throws: whatever the read answers, and whether or
    not it fails, the [catch] clause turns the outcome into a normal one. *)
Lemma checkNonceUnused_never_throws paymentRequirements auth (st : St W) :
  fst (checkNonceUnused signer paymentRequirements auth st) = Ok tt.
Proof.
  unfold checkNonceUnused, tryCatch.
  destruct (bind _ _ st) as [[[]|e] st1]; reflexivity.
Qed.

(** A failure that is not rate limited ends [readContractWithRetry] at once. *)
Lemma readContractWithRetry_fatal T args maxRetries (st : St W) e w :
  readContract signer T args (world st) = (Throw e, w) ->
  isRateLimitError e = false ->
  readContractWithRetry signer T args maxRetries st =
  (Throw e, mkSt w (EvRead args (Throw e) :: log st)).
Proof.
  intros Hread Hrl. unfold readContractWithRetry.
  destruct maxRetries; cbn [readContractLoop]; unfold tryCatch, callReadContract;
    rewrite Hread, Hrl; reflexivity.
Qed.

(** Whatever makes one of the two reads throw, the [catch] clause answers
    [null]. *)
Lemma readDeployedRelay_failure proxyAddress (st : St W) :
  (exists e st1,
     readContractWithRetry signer TString
       (mkRead proxyAddress RELAY_PROXY_ABI "MERCHANT_PAYOUT" []) defaultMaxRetries st
     = (Throw e, st1)) \/
  (exists merchantPayout st1 e st2,
     readContractWithRetry signer TString
       (mkRead proxyAddress RELAY_PROXY_ABI "MERCHANT_PAYOUT" []) defaultMaxRetries st
     = (Ok merchantPayout, st1) /\
     readContractWithRetry signer TString
       (mkRead proxyAddress RELAY_PROXY_ABI "ESCROW" []) defaultMaxRetries st1
     = (Throw e, st2)) ->
  fst (readDeployedRelay signer proxyAddress st) = Ok None.
Proof.
  unfold readDeployedRelay, tryCatch.
  intros [(e & st1 & Hm)|(m & st1 & e & st2 & Hm & He)].
  - now rewrite (bind_Throw _ _ _ _ _ Hm).
  - rewrite (bind_Ok _ _ _ _ _ Hm). now rewrite (bind_Throw _ _ _ _ _ He).
Qed.

(** C9.  The factory check passes and there is code at the normalised
    [payTo]; if the read of [MERCHANT_PAYOUT], or after it the read of
    [ESCROW], fails with an error that is not rate limited, the helper
    returns [null]. *)
Theorem unreadable_proxy_not_applicable paymentPayload paymentRequirements refundInfo
    proxyAddress code (st st1 st2 : St W) :
  extractRefundInfo paymentPayload paymentRequirements = Some refundInfo ->
  checkFactory signer (ri_factoryAddress refundInfo) st = (Ok tt, st1) ->
  getAddress (req_payTo paymentRequirements) = Ok proxyAddress ->
  callGetCode signer proxyAddress st1 = (Ok code, st2) ->
  codeExists code = true ->
  (exists e w,
     readContract signer TString
       (mkRead proxyAddress RELAY_PROXY_ABI "MERCHANT_PAYOUT" []) (world st2) = (Throw e, w) /\
     isRateLimitError e = false) \/
  (exists merchantPayout st3 e w,
     readContractWithRetry signer TString
       (mkRead proxyAddress RELAY_PROXY_ABI "MERCHANT_PAYOUT" []) defaultMaxRetries st2
     = (Ok merchantPayout, st3) /\
     readContract signer TString
       (mkRead proxyAddress RELAY_PROXY_ABI "ESCROW" []) (world st3) = (Throw e, w) /\
     isRateLimitError e = false) ->
  fst (settleWithRefundHelper paymentPayload paymentRequirements signer st) = Ok None.
Proof.
  intros Hinfo Hfactory HpayTo Hcode Hexists Hfail.
  assert (fst (readDeployedRelay signer proxyAddress st2) = Ok None) as Hnull.
  { apply readDeployedRelay_failure.
    destruct Hfail as [(e & w & Hread & Hrl)|(m & st3 & e & w & Hm & Hread & Hrl)].
    - left. eexists _, _. exact (readContractWithRetry_fatal _ _ _ _ _ _ Hread Hrl).
    - right. eexists m, st3, _, _. split; [exact Hm|].
      exact (readContractWithRetry_fatal _ _ _ _ _ _ Hread Hrl). }
  assert (fst (resolveRelay signer refundInfo paymentRequirements st1) = Ok None) as Hres.
  { unfold resolveRelay. unfold bind at 1. unfold liftRes. rewrite HpayTo.
    unfold bind at 1. rewrite Hcode, Hexists. unfold bind.
    destruct (readDeployedRelay signer proxyAddress st2) as [[[d|]|e] st3];
      cbn [fst] in Hnull; try discriminate.
    reflexivity. }
  assert (fst (prepareRelay signer refundInfo paymentRequirements st) = Ok None) as Hprep.
  { unfold prepareRelay. rewrite (bind_Ok _ _ _ _ _ Hfactory). unfold bind.
    destruct (resolveRelay signer refundInfo paymentRequirements st1) as [[[r|]|e] st3];
      cbn [fst] in Hres; try discriminate.
    reflexivity. }
  unfold settleWithRefundHelper. rewrite Hinfo. unfold bind.
  destruct (prepareRelay signer refundInfo paymentRequirements st) as [[[r|]|e] st3];
    cbn [fst] in Hprep; try discriminate.
  reflexivity.
Qed.

(** Shows that a message built with [+:+] includes one of its parts. *)
Ltac includes_part :=
  repeat first [ apply includes_here, startsWith_app | apply includes_app_r ].

Lemma emits_trans {A B} (P : Event -> Prop) (m : M W A) (k : M W B)
    (st st1 : St W) a st2 r :
  emits P m -> emits P k ->
  m st = (a, st1) -> k st1 = (r, st2) ->
  exists new, log st2 = new ++ log st /\ Forall P new.
Proof.
  intros Hm Hk Hrun1 Hrun2.
  destruct (Hm st) as (new1 & Hlog1 & Hnew1). rewrite Hrun1 in Hlog1.
  destruct (Hk st1) as (new2 & Hlog2 & Hnew2). rewrite Hrun2 in Hlog2.
  cbn [snd] in *. exists (new2 ++ new1). split.
  - rewrite Hlog2, Hlog1. apply app_assoc.
  - apply Forall_app. now split.
Qed.

Lemma readOnly_not_deposit : readOnly (fun e => isWriteOf "executeDeposit" e = false).
Proof. intros [] Hw; try reflexivity. discriminate. Qed.

Lemma deploy_not_deposit a (r : Res string) :
  w_functionName a = "deployRelay" -> isWriteOf "executeDeposit" (EvWrite a r) = false.
Proof. cbn. now intros ->. Qed.

Lemma verifyAuthorizationBinding_ok auth proxyAddress (st : St W) :
  getAddress (auth_to auth) = Ok proxyAddress ->
  verifyAuthorizationBinding auth proxyAddress st = (Ok tt, st).
Proof.
  intros Hto. unfold verifyAuthorizationBinding, bind, liftRes.
  now rewrite Hto, String.eqb_refl.
Qed.

Lemma verifyProxyImmutables_token paymentRequirements proxyAddress escrowAddress
    proxyToken tokenNormalized assetNormalized (st1 st2 : St W) :
  readContractWithRetry signer TString
    (mkRead proxyAddress RELAY_PROXY_ABI "TOKEN" []) defaultMaxRetries st1
  = (Ok proxyToken, st2) ->
  getAddress proxyToken = Ok tokenNormalized ->
  getAddress (req_asset paymentRequirements) = Ok assetNormalized ->
  tokenNormalized <> assetNormalized ->
  verifyProxyImmutables signer proxyAddress paymentRequirements escrowAddress st1 =
  (Throw (Error (immutablesFailureMessage
                   (Error (tokenMismatchMessage tokenNormalized assetNormalized)))), st2).
Proof.
  intros Htoken Htn Han Hne. unfold verifyProxyImmutables, tryCatch, bind, liftRes.
  rewrite Htoken. cbv beta iota. rewrite Htn, Han. cbv beta iota.
  now rewrite (string_eqb_false _ _ Hne).
Qed.

Lemma verifyProxyImmutables_escrow paymentRequirements proxyAddress escrowAddress
    proxyToken tokenNormalized proxyEscrow (st1 st2 st3 : St W) :
  readContractWithRetry signer TString
    (mkRead proxyAddress RELAY_PROXY_ABI "TOKEN" []) defaultMaxRetries st1
  = (Ok proxyToken, st2) ->
  getAddress proxyToken = Ok tokenNormalized ->
  getAddress (req_asset paymentRequirements) = Ok tokenNormalized ->
  readContractWithRetry signer TString
    (mkRead proxyAddress RELAY_PROXY_ABI "ESCROW" []) defaultMaxRetries st2
  = (Ok proxyEscrow, st3) ->
  Js.toLowerCase proxyEscrow <> Js.toLowerCase escrowAddress ->
  verifyProxyImmutables signer proxyAddress paymentRequirements escrowAddress st1 =
  (Throw (Error (immutablesFailureMessage
                   (Error (escrowMismatchMessage proxyEscrow escrowAddress)))), st3).
Proof.
  intros Htoken Htn Han Hescrow Hne.
  unfold verifyProxyImmutables, tryCatch, bind, liftRes.
  rewrite Htoken. cbv beta iota. rewrite Htn, Han. cbv beta iota.
  rewrite String.eqb_refl. cbn [negb]. rewrite Hescrow.
  now rewrite (string_eqb_false _ _ Hne).
Qed.

(** C6.  At the consistency step (the relay is prepared, the authorization
    names the proxy): if the proxy's [TOKEN()] and the payment's [asset]
    differ after checksum normalisation, the helper throws an error whose
    message includes both normalised addresses; if they agree and the proxy's
    [ESCROW()] differs, as an address (letter case apart), from the escrow
    resolved earlier, it throws an error whose message includes both escrow
    addresses.  In both cases no [executeDeposit] transaction was sent. *)
Theorem proxy_mismatch_raises paymentPayload paymentRequirements refundInfo relay
    auth sig proxyToken tokenNormalized assetNormalized (st st1 st2 : St W) :
  extractRefundInfo paymentPayload paymentRequirements = Some refundInfo ->
  prepareRelay signer refundInfo paymentRequirements st = (Ok (Some relay), st1) ->
  payloadParts paymentPayload = Some (auth, sig) ->
  getAddress (auth_to auth) = Ok (relay_proxyAddress relay) ->
  readContractWithRetry signer TString
    (mkRead (relay_proxyAddress relay) RELAY_PROXY_ABI "TOKEN" []) defaultMaxRetries st1
  = (Ok proxyToken, st2) ->
  getAddress proxyToken = Ok tokenNormalized ->
  getAddress (req_asset paymentRequirements) = Ok assetNormalized ->
  (tokenNormalized <> assetNormalized ->
   exists msg new,
     settleWithRefundHelper paymentPayload paymentRequirements signer st
     = (Throw (Error msg), st2) /\
     Js.includes msg tokenNormalized = true /\
     Js.includes msg assetNormalized = true /\
     log st2 = new ++ log st /\
     Forall (fun e => isWriteOf "executeDeposit" e = false) new) /\
  (forall proxyEscrow st3,
     tokenNormalized = assetNormalized ->
     readContractWithRetry signer TString
       (mkRead (relay_proxyAddress relay) RELAY_PROXY_ABI "ESCROW" []) defaultMaxRetries st2
     = (Ok proxyEscrow, st3) ->
     Js.toLowerCase proxyEscrow <> Js.toLowerCase (relay_escrowAddress relay) ->
     exists msg new,
       settleWithRefundHelper paymentPayload paymentRequirements signer st
       = (Throw (Error msg), st3) /\
       Js.includes msg proxyEscrow = true /\
       Js.includes msg (relay_escrowAddress relay) = true /\
       log st3 = new ++ log st /\
       Forall (fun e => isWriteOf "executeDeposit" e = false) new).
Proof.
  intros Hinfo Hprep Hparts Hto Htoken Htn Han.
  pose proof (emits_prepareRelay signer _ readOnly_not_deposit refundInfo
                paymentRequirements deploy_not_deposit) as Hquiet1.
  assert (forall T args n,
            emits (fun e => isWriteOf "executeDeposit" e = false)
              (readContractWithRetry signer T args n)) as Hquiet2.
  { intros. apply emits_readContractWithRetry, readOnly_not_deposit. }
  rewrite (settle_on_relay _ _ _ _ _ _ _ _ Hinfo Hprep Hparts).
  unfold settleOnRelay.
  rewrite (bind_Ok _ _ _ _ _ (verifyAuthorizationBinding_ok _ _ _ Hto)).
  destruct (emits_trans _ _ _ _ _ _ _ _ Hquiet1 (Hquiet2 _ _ _) Hprep Htoken)
    as (new1 & Hlog1 & Hnew1).
  split.
  - intros Hne.
    rewrite (bind_Throw _ _ _ _ _
               (verifyProxyImmutables_token _ _ _ _ _ _ _ _ Htoken Htn Han Hne)).
    eexists _, new1. split; [reflexivity|].
    unfold immutablesFailureMessage, tokenMismatchMessage, Error, errorText.
    cbn [default]. repeat split; [includes_part..|exact Hlog1|exact Hnew1].
  - intros proxyEscrow st3 <- Hescrow Hne.
    rewrite (bind_Throw _ _ _ _ _
               (verifyProxyImmutables_escrow _ _ _ _ _ _ _ _ _ Htoken Htn Han Hescrow Hne)).
    destruct (Hquiet2 TString (mkRead (relay_proxyAddress relay) RELAY_PROXY_ABI "ESCROW" [])
                defaultMaxRetries st2) as (new2 & Hlog2 & Hnew2).
    rewrite Hescrow in Hlog2. cbn [snd] in Hlog2.
    eexists _, (new2 ++ new1). split; [reflexivity|].
    unfold immutablesFailureMessage, escrowMismatchMessage, Error, errorText.
    cbn [default]. repeat split; [includes_part..| |].
    + rewrite Hlog2, Hlog1. apply app_assoc.
    + apply Forall_app. now split.
Qed.

End Settlement.

(** ** Deployment comes after the address check *)

Section Deployment.

Context `{Viem} {W : Type} `{Clock W}.
Variable signer : FacilitatorEvmSigner W.

Lemma preserves_ret {A} I (a : A) : preserves (W:=W) I (ret a).
Proof. now intros st. Qed.

Lemma preserves_throw {A} I e : preserves (W:=W) (A:=A) I (throw e).
Proof. now intros st. Qed.

Lemma preserves_tryCatch {A} I (m : M W A) (h : Thrown -> M W A) :
  preserves I m -> (forall e, preserves I (h e)) -> preserves I (tryCatch m h).
Proof.
  intros Hm Hh st Hst. unfold tryCatch. specialize (Hm st Hst).
  destruct (m st) as [[a|e] st1]; cbn [snd] in *; [exact Hm|]. now apply Hh.
Qed.

Lemma bind_log {A B} (I : list Event -> Prop) (m : M W A) (k : A -> M W B) st :
  (forall r st', m st = (r, st') -> I (log st')) ->
  (forall a st', m st = (Ok a, st') -> I (log st') -> I (log (snd (k a st')))) ->
  I (log (snd (bind m k st))).
Proof.
  intros Hm Hk. unfold bind. destruct (m st) as [[a|e] st1] eqn:Hrun; cbn [snd]; eauto.
Qed.

Lemma readOnly_notDeploy : readOnly notDeploy.
Proof. intros [] Hw; try reflexivity. discriminate. Qed.

Lemma deployGuarded_nil payTo : deployGuarded payTo [].
Proof. intros [|x later] earlier a r Hsplit; discriminate. Qed.

Lemma deployGuarded_cons payTo e events :
  notDeploy e -> deployGuarded payTo events -> deployGuarded payTo (e :: events).
Proof.
  intros He Hevents [|x later] earlier a r Hsplit Hname.
  - injection Hsplit as -> <-. unfold notDeploy in He. cbn in He.
    rewrite Hname in He. discriminate.
  - injection Hsplit as <- Hsplit. eauto.
Qed.

Lemma deployGuarded_tail payTo e events :
  deployGuarded payTo (e :: events) -> deployGuarded payTo events.
Proof.
  intros Hevents later earlier a r Hsplit.
  apply (Hevents (e :: later) earlier a r). cbn [app]. now rewrite Hsplit.
Qed.

Lemma deployGuarded_app payTo new old :
  Forall notDeploy new -> deployGuarded payTo old -> deployGuarded payTo (new ++ old).
Proof.
  induction 1 as [|e new He Hnew IH]; intros Hold; [exact Hold|].
  cbn [app]. apply deployGuarded_cons; auto.
Qed.

Lemma deployGuarded_deploy payTo proxyAddress factory merchant expectedAddress r old :
  getAddress payTo = Ok proxyAddress ->
  Js.toLowerCase expectedAddress = Js.toLowerCase proxyAddress ->
  deployGuarded payTo old ->
  deployGuarded payTo
    (EvWrite (mkWrite factory FACTORY_ABI "deployRelay" [AHex merchant]) r ::
     EvRead (mkRead factory FACTORY_ABI "getRelayAddress" [merchant])
       (Ok (VString expectedAddress)) :: old).
Proof.
  intros HpayTo Hsame Hold [|x later] earlier a r0 Hsplit Hname.
  - injection Hsplit as <- <- <-. exists proxyAddress, merchant, expectedAddress, old.
    now repeat split.
  - injection Hsplit as <- Hsplit. revert Hsplit Hname.
    apply (deployGuarded_cons payTo _ old); [reflexivity|exact Hold].
Qed.

Lemma preserves_quiet {A} payTo (m : M W A) :
  emits notDeploy m -> preserves (deployGuarded payTo) m.
Proof. apply preserves_emits. intros new old. apply deployGuarded_app. Qed.

(** A read that succeeds leaves its answer on top of the log. *)
Lemma readContractWithRetry_Ok_log T args maxRetries (st : St W) v st' :
  readContractWithRetry signer T args maxRetries st = (Ok v, st') ->
  exists older, log st' = EvRead args (Ok (toRVal v)) :: older ++ log st /\
                Forall notDeploy older.
Proof.
  intros Hrun.
  destruct (emits_readContractWithRetry signer notDeploy T args maxRetries
              readOnly_notDeploy st) as (new & Hlog & Hnew).
  rewrite Hrun in Hlog. cbn [snd] in Hlog.
  apply readContractLoop_log in Hrun as (calls & Hlog' & Hcalls).
  apply RetryLog_outcome in Hcalls as [before ->].
  rewrite rev_app_distr in Hlog'. cbn [rev app mapRes] in Hlog'.
  rewrite Hlog' in Hlog.
  apply (app_inv_tail (log st) (_ :: rev before) new) in Hlog. subst new.
  exists (rev before). split; [exact Hlog'|]. now inversion Hnew.
Qed.

Lemma preserves_deployRelay payTo factory merchantPayout proxyAddress :
  getAddress payTo = Ok proxyAddress ->
  preserves (deployGuarded payTo) (deployRelay signer factory merchantPayout proxyAddress).
Proof.
  intros HpayTo. unfold deployRelay. apply preserves_tryCatch.
  2:{ intros e. apply preserves_quiet, emits_deployFailure. }
  apply preserves_bind; [apply preserves_quiet; emits_auto|].
  intros factoryChecksum st0 st1 _ Hst1.
  apply preserves_bind; [apply preserves_quiet; emits_auto| |exact Hst1].
  clear st0 st1 Hst1. intros merchantChecksum st0 st1 _ Hst1.
  apply preserves_bind;
    [apply preserves_quiet, emits_readContractWithRetry, readOnly_notDeploy| |exact Hst1].
  clear st0 st1 Hst1. intros expectedAddress st0 st1 Hread Hst1.
  destruct (String.eqb (Js.toLowerCase expectedAddress) (Js.toLowerCase proxyAddress))
    eqn:Hsame; cbn [negb]; [|exact Hst1].
  apply String.eqb_eq in Hsame.
  apply readContractWithRetry_Ok_log in Hread as (older & Hlog & Holder).
  apply bind_log.
  - intros r st2. unfold callWriteContract.
    destruct (writeContract signer _ (world st1)) as [r0 w1]. intros [= <- <-].
    cbn [log]. rewrite Hlog.
    apply (deployGuarded_deploy payTo proxyAddress factoryChecksum merchantChecksum
             expectedAddress r0 (older ++ log st0) HpayTo Hsame).
    rewrite Hlog in Hst1. now apply deployGuarded_tail in Hst1.
  - intros txHash st2 _. apply preserves_quiet.
    pose proof readOnly_notDeploy. emits_auto. now apply emits_pollDeployedCode.
Qed.

Lemma emits_attemptDeposit (P : Event -> Prop) proxyAddress paymentRequirements auth parsedSig :
  readOnly P ->
  (forall a r, w_functionName a = "executeDeposit" -> P (EvWrite a r)) ->
  emits P (attemptDeposit signer proxyAddress paymentRequirements auth parsedSig).
Proof.
  intros HP Hdeposit. unfold attemptDeposit. emits_auto.
  apply emits_callWriteContract. intros r. now apply Hdeposit.
Qed.

Lemma emits_executeDepositLoop (P : Event -> Prop) proxyAddress paymentRequirements auth
    parsedSig retriesLeft :
  readOnly P ->
  (forall a r, w_functionName a = "executeDeposit" -> P (EvWrite a r)) ->
  forall attempt,
    emits P (executeDepositLoop signer proxyAddress paymentRequirements auth parsedSig
               retriesLeft attempt).
Proof.
  intros HP Hdeposit.
  induction retriesLeft as [|k IH]; intros attempt; cbn [executeDepositLoop];
    (apply emits_tryCatch; [now apply emits_attemptDeposit|intros e]); emits_auto.
  apply IH.
Qed.

Lemma emits_settleOnRelay (P : Event -> Prop) paymentRequirements relay auth sig :
  readOnly P ->
  (forall a r, w_functionName a = "executeDeposit" -> P (EvWrite a r)) ->
  emits P (settleOnRelay signer paymentRequirements relay auth sig).
Proof.
  intros HP Hdeposit. unfold settleOnRelay.
  apply emits_bind; [apply emits_verifyAuthorizationBinding|intros _].
  apply emits_bind; [now apply emits_verifyProxyImmutables|intros _].
  emits_auto; [now apply emits_checkNonceUnused|].
  unfold executeDeposit. now apply emits_executeDepositLoop.
Qed.

Lemma deposit_notDeploy a (r : Res string) :
  w_functionName a = "executeDeposit" -> notDeploy (EvWrite a r).
Proof. unfold notDeploy. cbn. now intros ->. Qed.

Lemma preserves_resolveRelay refundInfo paymentRequirements :
  preserves (deployGuarded (req_payTo paymentRequirements))
    (resolveRelay signer refundInfo paymentRequirements).
Proof.
  unfold resolveRelay. apply preserves_bind; [apply preserves_quiet; emits_auto|].
  intros proxyAddress st st1 Hproxy. unfold liftRes in Hproxy. injection Hproxy as Hproxy <-.
  apply preserves_bind;
    [apply preserves_quiet, emits_callGetCode, readOnly_notDeploy|].
  clear st. intros code st st1 _.
  pose proof readOnly_notDeploy.
  destruct (codeExists code).
  - apply preserves_quiet. emits_auto. now apply emits_readDeployedRelay.
  - destruct (lookupMerchantPayout _ _) as [merchantPayout|]; [|apply preserves_ret].
    destruct (noMerchant _); [apply preserves_ret|].
    apply preserves_bind; [now apply preserves_deployRelay|].
    intros escrowAddress st2 st3 _. apply preserves_quiet. emits_auto.
Qed.

Lemma preserves_prepareRelay refundInfo paymentRequirements :
  preserves (deployGuarded (req_payTo paymentRequirements))
    (prepareRelay signer refundInfo paymentRequirements).
Proof.
  unfold prepareRelay.
  apply preserves_bind;
    [apply preserves_quiet, emits_checkFactory, readOnly_notDeploy|].
  intros _ _ st _. apply preserves_bind; [apply preserves_resolveRelay|].
  intros [relay|] st1 st2 _; [|apply preserves_ret].
  apply preserves_quiet. pose proof readOnly_notDeploy. emits_auto.
  now apply emits_checkMerchantRegistered.
Qed.

Lemma preserves_settleWithRefundHelper paymentPayload paymentRequirements :
  preserves (deployGuarded (req_payTo paymentRequirements))
    (settleWithRefundHelper paymentPayload paymentRequirements signer).
Proof.
  unfold settleWithRefundHelper.
  destruct (extractRefundInfo _ _) as [refundInfo|]; [|apply preserves_ret].
  apply preserves_bind; [apply preserves_prepareRelay|].
  intros [relay|] st st1 _; [|apply preserves_ret].
  destruct (payloadParts paymentPayload) as [[auth sig]|]; [|apply preserves_ret].
  apply preserves_quiet, emits_settleOnRelay;
    [apply readOnly_notDeploy|apply deposit_notDeploy].
Qed.

Lemma includes_refl s : Js.includes s s = true.
Proof.
  apply includes_here. induction s as [|c s IH]; [reflexivity|].
  cbn. now rewrite Ascii.eqb_refl.
Qed.

Lemma readOnly_quiet : readOnly (fun e => isWrite e = false).
Proof. now intros e. Qed.

(** When the factory's address differs, the deployment fails on the spot. *)
Lemma deployRelay_mismatch factory merchantPayout proxyAddress factoryChecksum
    merchantChecksum expectedAddress (st st1 : St W) :
  getAddress factory = Ok factoryChecksum ->
  getAddress merchantPayout = Ok merchantChecksum ->
  readContractWithRetry signer TString
    (mkRead factoryChecksum FACTORY_ABI "getRelayAddress" [merchantChecksum])
    defaultMaxRetries st = (Ok expectedAddress, st1) ->
  Js.toLowerCase expectedAddress <> Js.toLowerCase proxyAddress ->
  exists msg,
    deployRelay signer factory merchantPayout proxyAddress st = (Throw (Error msg), st1) /\
    Js.includes msg (addressMismatchMessage expectedAddress proxyAddress) = true.
Proof.
  intros Hfactory Hmerchant Hread Hne.
  unfold deployRelay, tryCatch, bind, liftRes. rewrite Hfactory, Hmerchant.
  cbv beta iota. rewrite Hread. rewrite (string_eqb_false _ _ Hne). cbn [negb].
  unfold throw, deployFailure, errorText, Error. cbn [default].
  destruct (insufficientFunds _).
  - unfold bind, firstAddress, throw. eexists. split; [reflexivity|].
    repeat first [apply includes_refl | apply includes_app_r].
  - unfold throw. eexists. split; [reflexivity|].
    repeat first [apply includes_refl | apply includes_app_r].
Qed.

(** C5.  In every run of the helper, a [deployRelay] transaction comes right
    after a successful [getRelayAddress] read at the same factory for the
    same merchant, whose answer equals the normalised [payTo] up to letter
    case.  And when the relay has no code and that read answers an address
    that differs from the proxy address (letter case apart), the helper
    throws an error carrying the address-mismatch message and the run makes
    no [writeContract] call. *)
Theorem deploy_only_after_address_check paymentPayload paymentRequirements :
  (forall (w : W) r st',
     run (settleWithRefundHelper paymentPayload paymentRequirements signer) w = (r, st') ->
     forall later earlier a res,
       log st' = later ++ EvWrite a res :: earlier ->
       w_functionName a = "deployRelay" ->
       exists proxyAddress merchant expectedAddress earlier',
         getAddress (req_payTo paymentRequirements) = Ok proxyAddress /\
         w_args a = [AHex merchant] /\
         earlier = EvRead (mkRead (w_address a) FACTORY_ABI "getRelayAddress" [merchant])
                     (Ok (VString expectedAddress)) :: earlier' /\
         Js.toLowerCase expectedAddress = Js.toLowerCase proxyAddress) /\
  (forall refundInfo proxyAddress code merchantPayout factoryChecksum merchantChecksum
          expectedAddress (st st1 st2 st3 : St W),
     extractRefundInfo paymentPayload paymentRequirements = Some refundInfo ->
     checkFactory signer (ri_factoryAddress refundInfo) st = (Ok tt, st1) ->
     getAddress (req_payTo paymentRequirements) = Ok proxyAddress ->
     callGetCode signer proxyAddress st1 = (Ok code, st2) ->
     codeExists code = false ->
     lookupMerchantPayout (ri_merchantPayouts refundInfo) proxyAddress = Some merchantPayout ->
     noMerchant (Some merchantPayout) = false ->
     getAddress (ri_factoryAddress refundInfo) = Ok factoryChecksum ->
     getAddress merchantPayout = Ok merchantChecksum ->
     readContractWithRetry signer TString
       (mkRead factoryChecksum FACTORY_ABI "getRelayAddress" [merchantChecksum])
       defaultMaxRetries st2 = (Ok expectedAddress, st3) ->
     Js.toLowerCase expectedAddress <> Js.toLowerCase proxyAddress ->
     exists msg new,
       settleWithRefundHelper paymentPayload paymentRequirements signer st
       = (Throw (Error msg), st3) /\
       Js.includes msg (addressMismatchMessage expectedAddress proxyAddress) = true /\
       log st3 = new ++ log st /\
       Forall (fun e => isWrite e = false) new).
Proof.
  split.
  - intros w r st' Hrun later earlier a res Hsplit Hname.
    pose proof (preserves_settleWithRefundHelper paymentPayload paymentRequirements
                  (mkSt w []) (deployGuarded_nil _)) as Hguard.
    unfold run in Hrun. rewrite Hrun in Hguard. cbn [snd] in Hguard.
    exact (Hguard later earlier a res Hsplit Hname).
  - intros refundInfo proxyAddress code merchantPayout factoryChecksum merchantChecksum
      expectedAddress st st1 st2 st3 Hinfo Hfactory HpayTo Hcode Hexists Hlookup
      Hmerchant Hfc Hmc Hread Hne.
    destruct (deployRelay_mismatch _ _ _ _ _ _ _ _ Hfc Hmc Hread Hne) as (msg & Hdeploy & Hmsg).
    exists msg.
    assert (exists new, log st3 = new ++ log st /\ Forall (fun e => isWrite e = false) new)
      as (new & Hlog & Hnew).
    { destruct (emits_checkFactory signer _ readOnly_quiet
                  (ri_factoryAddress refundInfo) st) as (new1 & Hlog1 & Hnew1).
      rewrite Hfactory in Hlog1.
      destruct (emits_callGetCode signer _ proxyAddress readOnly_quiet st1)
        as (new2 & Hlog2 & Hnew2).
      rewrite Hcode in Hlog2.
      destruct (emits_readContractWithRetry signer _ TString
                  (mkRead factoryChecksum FACTORY_ABI "getRelayAddress" [merchantChecksum])
                  defaultMaxRetries readOnly_quiet st2) as (new3 & Hlog3 & Hnew3).
      rewrite Hread in Hlog3. cbn [snd] in *.
      exists (new3 ++ new2 ++ new1). split.
      - rewrite Hlog3, Hlog2, Hlog1. now rewrite !app_assoc.
      - rewrite !Forall_app. now repeat split. }
    exists new. split; [|now repeat split].
    unfold settleWithRefundHelper. rewrite Hinfo.
    assert (resolveRelay signer refundInfo paymentRequirements st1 = (Throw (Error msg), st3))
      as Hresolve.
    { unfold resolveRelay. unfold bind at 1. unfold liftRes. rewrite HpayTo.
      rewrite (bind_Ok _ _ _ _ _ Hcode). rewrite Hexists, Hlookup, Hmerchant.
      now rewrite (bind_Throw _ _ _ _ _ Hdeploy). }
    assert (prepareRelay signer refundInfo paymentRequirements st = (Throw (Error msg), st3))
      as Hprepare.
    { unfold prepareRelay. rewrite (bind_Ok _ _ _ _ _ Hfactory).
      now rewrite (bind_Throw _ _ _ _ _ Hresolve). }
    now rewrite (bind_Throw _ _ _ _ _ Hprepare).
Qed.

End Deployment.

(** ** The deposit-retry policy *)

Section Deposit.

Context `{Viem} {W : Type} `{Clock W}.
Variable signer : FacilitatorEvmSigner W.

Lemma sleepsOf_app a b : sleepsOf (a ++ b) = sleepsOf b ++ sleepsOf a.
Proof.
  induction a as [|e a IH]; cbn [app sleepsOf]; [now rewrite app_nil_r|].
  destruct e; try exact IH. now rewrite IH, app_assoc.
Qed.

Lemma count_app p a b : count p (a ++ b) = (count p a + count p b)%nat.
Proof. unfold count. now rewrite List.filter_app, length_app. Qed.

(** One attempt: no delay, one write at most, and that of [executeDeposit]. *)
Lemma attemptDeposit_log proxyAddress paymentRequirements auth parsedSig (st : St W) r st1 :
  attemptDeposit signer proxyAddress paymentRequirements auth parsedSig st = (r, st1) ->
  exists new, log st1 = new ++ log st /\
    sleepsOf new = [] /\
    (count (isWriteOf "executeDeposit") new <= 1)%nat /\
    count isWrite new = count (isWriteOf "executeDeposit") new.
Proof.
  unfold attemptDeposit, bind, liftRes, callWriteContract, callWaitForTransactionReceipt.
  destruct (getAddress _); [|intros [= <- <-]; exists []; unfold count; cbn; repeat split; lia].
  destruct (BigInt (auth_value auth)); [|intros [= <- <-]; exists []; unfold count; cbn; repeat split; lia].
  destruct (BigInt (auth_validAfter auth)); [|intros [= <- <-]; exists []; unfold count; cbn; repeat split; lia].
  destruct (BigInt (auth_validBefore auth)); [|intros [= <- <-]; exists []; unfold count; cbn; repeat split; lia].
  destruct (writeContract signer _ (world st)) as [[txHash|e] w1]; cbn [world log].
  - destruct (waitForTransactionReceipt signer txHash w1) as [[receipt|e] w2].
    + destruct (negb _); intros [= <- <-]; cbn [log];
        (eexists [_; _]; split; [reflexivity|]); unfold count; cbn; repeat split; lia.
    + intros [= <- <-]; cbn [log].
      (eexists [_; _]; split; [reflexivity|]); unfold count; cbn; repeat split; lia.
  - intros [= <- <-]; cbn [log].
    (eexists [_]; split; [reflexivity|]); unfold count; cbn; repeat split; lia.
Qed.

Lemma depositDelays_S attempt n :
  depositDelays attempt (S n) = (attempt + 1) * 1000 :: depositDelays (attempt + 1) n.
Proof.
  unfold depositDelays. cbn [seq map]. f_equal.
  rewrite <- seq_shift, map_map. apply map_ext. intros k. f_equal. lia.
Qed.

Lemma executeDepositLoop_log proxyAddress paymentRequirements auth parsedSig retriesLeft :
  forall attempt (st : St W) r st',
    executeDepositLoop signer proxyAddress paymentRequirements auth parsedSig
      retriesLeft attempt st = (r, st') ->
    exists new n,
      log st' = new ++ log st /\
      (n <= retriesLeft)%nat /\
      sleepsOf new = depositDelays attempt n /\
      (count (isWriteOf "executeDeposit") new <= n + 1)%nat /\
      count isWrite new = count (isWriteOf "executeDeposit") new /\
      forall e, r = Throw e ->
        n = retriesLeft /\
        exists lastError stBefore,
          attemptDeposit signer proxyAddress paymentRequirements auth parsedSig stBefore
          = (Throw lastError, st') /\
          e = classifyExecutionError lastError.
Proof.
  induction retriesLeft as [|k IH]; intros attempt st r st'; cbn [executeDepositLoop];
    unfold tryCatch;
    destruct (attemptDeposit signer proxyAddress paymentRequirements auth parsedSig st)
      as [[response|error] st1] eqn:Hattempt;
    pose proof (attemptDeposit_log _ _ _ _ _ _ _ Hattempt) as (new1 & Hlog1 & Hs1 & Hc1 & Hw1).
  - intros [= <- <-]. exists new1, O.
    split; [exact Hlog1|]. split; [lia|]. split; [exact Hs1|]. split; [lia|].
    split; [exact Hw1|]. discriminate.
  - unfold throw. intros [= <- <-]. exists new1, O.
    split; [exact Hlog1|]. split; [lia|]. split; [exact Hs1|]. split; [lia|].
    split; [exact Hw1|]. intros e [= <-]. split; [reflexivity|]. now exists error, st.
  - intros [= <- <-]. exists new1, O.
    split; [exact Hlog1|]. split; [lia|]. split; [exact Hs1|]. split; [lia|].
    split; [exact Hw1|]. discriminate.
  - unfold bind, sleep. intros Hrest.
    apply IH in Hrest as (new2 & n & Hlog2 & Hn & Hs2 & Hc2 & Hw2 & Hthrow).
    cbn [log] in Hlog2.
    exists (new2 ++ EvSleep ((attempt + 1) * 1000) :: new1), (S n).
    change (EvSleep ((attempt + 1) * 1000) :: new1)
      with ([EvSleep ((attempt + 1) * 1000)] ++ new1).
    assert (count (isWriteOf "executeDeposit") [EvSleep ((attempt + 1) * 1000)] = O)
      as Hz1 by reflexivity.
    assert (count isWrite [EvSleep ((attempt + 1) * 1000)] = O) as Hz2 by reflexivity.
    split; [|split; [|split; [|split; [|split]]]].
    + rewrite Hlog2, Hlog1. now rewrite <- !app_assoc.
    + lia.
    + rewrite !sleepsOf_app. cbn [sleepsOf]. rewrite Hs1, Hs2. cbn [app].
      now rewrite depositDelays_S.
    + rewrite !count_app, Hz1. lia.
    + rewrite !count_app, Hz1, Hz2. lia.
    + intros e He. destruct (Hthrow e He) as [-> Hlast]. split; [reflexivity|exact Hlast].
Qed.


End Deposit.

(** ** Routes processed by [withRefund] and the facilitator's lookup *)

Section Routes.

Context `{Viem}.

Lemma mapRes_list_lookup {A B} (f : A -> Res B) (l : list A) l' i a :
  mapRes_list f l = Ok l' -> l !! i = Some a ->
  exists b, f a = Ok b /\ l' !! i = Some b.
Proof.
  revert l' i. induction l as [|x l IH]; intros l' i Hmap Hi; [discriminate|].
  cbn [mapRes_list] in Hmap. unfold rbind in Hmap.
  destruct (f x) as [b|e] eqn:Hfx; [|discriminate].
  destruct (mapRes_list f l) as [bs|e] eqn:Hfl; [|discriminate].
  injection Hmap as <-. destruct i as [|i].
  - injection Hi as <-. now exists b.
  - apply (IH bs i eq_refl Hi).
Qed.

(** What the loop over the refundable options leaves in the map: each entry
    is an old one, or the address of an option under the lower-cased relay
    address computed for it; and each option with an address has its entry. *)
Lemma collectMerchantPayouts_spec factory createxAddress options :
  forall acc payouts,
    collectMerchantPayouts options factory createxAddress acc = Ok payouts ->
    (forall key found,
       payouts !! key = Some found ->
       acc !! key = Some found \/
       exists o proxyAddress,
         o ∈ options /\ opt_payTo o = StaticPayTo found /\
         computeRelayAddress createxAddress factory found = Ok proxyAddress /\
         key = Js.toLowerCase proxyAddress) /\
    (forall key, is_Some (acc !! key) -> is_Some (payouts !! key)) /\
    (forall o merchantPayout,
       o ∈ options -> opt_payTo o = StaticPayTo merchantPayout ->
       exists proxyAddress,
         computeRelayAddress createxAddress factory merchantPayout = Ok proxyAddress /\
         is_Some (payouts !! Js.toLowerCase proxyAddress)).
Proof.
  induction options as [|o options IH]; intros acc payouts Hrun; cbn [collectMerchantPayouts] in Hrun.
  - injection Hrun as <-. split; [|split].
    + intros key found Hkey. now left.
    + auto.
    + intros o m Ho. now apply elem_of_nil in Ho.
  - destruct (opt_payTo o) as [merchantPayout|] eqn:HpayTo.
    + unfold rbind in Hrun.
      destruct (computeRelayAddress createxAddress factory merchantPayout)
        as [proxyAddress|e] eqn:Hproxy; [|discriminate].
      apply IH in Hrun as (Hentries & Hkept & Hall). split; [|split].
      * intros key found Hkey. destruct (Hentries key found Hkey) as [Hacc|Hopt].
        -- destruct (decide (Js.toLowerCase proxyAddress = key)) as [<-|Hne].
           ++ rewrite lookup_insert_eq in Hacc. injection Hacc as <-.
              right. exists o, proxyAddress. repeat split; auto. apply elem_of_cons. now left.
           ++ rewrite lookup_insert_ne in Hacc by exact Hne. now left.
        -- destruct Hopt as (o' & p' & Ho' & Hrest). right. exists o', p'.
           split; [apply elem_of_cons; now right|exact Hrest].
      * intros key Hkey. apply Hkept.
        destruct (decide (Js.toLowerCase proxyAddress = key)) as [<-|Hne].
        -- rewrite lookup_insert_eq. eauto.
        -- now rewrite lookup_insert_ne.
      * intros o' m Ho' Hm. apply elem_of_cons in Ho' as [->|Ho'].
        -- rewrite HpayTo in Hm. injection Hm as <-. exists proxyAddress.
           split; [exact Hproxy|]. apply Hkept. rewrite lookup_insert_eq. eauto.
        -- now apply Hall with o'.
    + apply IH in Hrun as (Hentries & Hkept & Hall). split; [|split].
      * intros key found Hkey. destruct (Hentries key found Hkey) as [Hacc|Hopt];
          [now left|].
        destruct Hopt as (o' & p' & Ho' & Hrest). right. exists o', p'.
        split; [apply elem_of_cons; now right|exact Hrest].
      * exact Hkept.
      * intros o' m Ho' Hm. apply elem_of_cons in Ho' as [->|Ho'].
        -- rewrite HpayTo in Hm. discriminate.
        -- now apply Hall with o'.
Qed.

(** An entry of the map is that of the last option, in order, that has its
    key: a later option with the same lower-cased relay address writes over
    an earlier one. *)
Lemma collectMerchantPayouts_last factory createxAddress options :
  forall acc payouts key found,
    collectMerchantPayouts options factory createxAddress acc = Ok payouts ->
    payouts !! key = Some found ->
    (acc !! key = Some found /\
     forall o merchantPayout proxyAddress,
       o ∈ options -> opt_payTo o = StaticPayTo merchantPayout ->
       computeRelayAddress createxAddress factory merchantPayout = Ok proxyAddress ->
       Js.toLowerCase proxyAddress <> key) \/
    (exists before o after proxyAddress,
       options = before ++ o :: after /\
       opt_payTo o = StaticPayTo found /\
       computeRelayAddress createxAddress factory found = Ok proxyAddress /\
       Js.toLowerCase proxyAddress = key /\
       forall o2 merchantPayout proxy2,
         o2 ∈ after -> opt_payTo o2 = StaticPayTo merchantPayout ->
         computeRelayAddress createxAddress factory merchantPayout = Ok proxy2 ->
         Js.toLowerCase proxy2 <> key).
Proof.
  induction options as [|o options IH]; intros acc payouts key found Hrun Hkey;
    cbn [collectMerchantPayouts] in Hrun.
  - injection Hrun as <-. left. split; [exact Hkey|].
    intros o m p Ho. now apply elem_of_nil in Ho.
  - destruct (opt_payTo o) as [merchantPayout|] eqn:HpayTo.
    + unfold rbind in Hrun.
      destruct (computeRelayAddress createxAddress factory merchantPayout)
        as [proxyAddress|e] eqn:Hproxy; [|discriminate].
      destruct (IH _ _ _ _ Hrun Hkey)
        as [[Hacc Hnone]|(before & o1 & after & p1 & -> & Hp1 & Hc1 & Hk1 & Hlater)].
      * destruct (decide (Js.toLowerCase proxyAddress = key)) as [Hsame|Hother].
        -- rewrite Hsame, lookup_insert_eq in Hacc. injection Hacc as ->.
           right. exists [], o, options, proxyAddress. now repeat split.
        -- rewrite lookup_insert_ne in Hacc by exact Hother. left. split; [exact Hacc|].
           intros o2 m2 p2 Ho2 Hp2 Hc2. apply elem_of_cons in Ho2 as [->|Ho2].
           ++ rewrite HpayTo in Hp2. injection Hp2 as <-. rewrite Hproxy in Hc2.
              now injection Hc2 as <-.
           ++ exact (Hnone o2 m2 p2 Ho2 Hp2 Hc2).
      * right. exists (o :: before), o1, after, p1. now repeat split.
    + destruct (IH _ _ _ _ Hrun Hkey)
        as [[Hacc Hnone]|(before & o1 & after & p1 & -> & Hp1 & Hc1 & Hk1 & Hlater)].
      * left. split; [exact Hacc|].
        intros o2 m2 p2 Ho2 Hp2 Hc2. apply elem_of_cons in Ho2 as [->|Ho2].
        -- rewrite HpayTo in Hp2. discriminate.
        -- exact (Hnone o2 m2 p2 Ho2 Hp2 Hc2).
      * right. exists (o :: before), o1, after, p1. now repeat split.
Qed.

Lemma processPaymentOption_refundable o factory createxAddress merchantPayout o' :
  isRefundableOption o = true ->
  opt_payTo o = StaticPayTo merchantPayout ->
  processPaymentOption o factory createxAddress = Ok o' ->
  exists proxyAddress,
    computeRelayAddress createxAddress factory merchantPayout = Ok proxyAddress /\
    opt_payTo o' = StaticPayTo proxyAddress.
Proof.
  intros Href HpayTo. unfold processPaymentOption. rewrite Href, HpayTo. unfold rbind.
  destruct (computeRelayAddress _ _ _) as [proxyAddress|e]; [|discriminate].
  intros [= <-]. now exists proxyAddress.
Qed.

Lemma processedAccepts_lookup factory createxAddress (a a' : Accepts) i o :
  match a with
  | ManyOptions l =>
      rbind (mapRes_list (fun option => processPaymentOption option factory createxAddress) l)
        (fun l' => Ok (ManyOptions l'))
  | OneOption o1 =>
      rbind (processPaymentOption o1 factory createxAddress) (fun o' => Ok (OneOption o'))
  end = Ok a' ->
  optionsOf a !! i = Some o ->
  exists o', processPaymentOption o factory createxAddress = Ok o' /\
             optionsOf a' !! i = Some o'.
Proof.
  destruct a as [o1|l]; unfold rbind; cbn [optionsOf].
  - destruct (processPaymentOption o1 _ _) as [o'|e] eqn:Ho1; [|discriminate].
    intros [= <-] Hi. destruct i as [|i]; [|discriminate]. injection Hi as <-.
    now exists o'.
  - destruct (mapRes_list _ l) as [l'|e] eqn:Hl; [|discriminate].
    intros [= <-] Hi. cbn [optionsOf]. now apply (mapRes_list_lookup _ _ _ _ _ Hl).
Qed.

(** C10, as the code has it.  In a route produced by [processRouteConfig]
    (the body of [withRefund]), an option marked refundable with a string
    [payTo] has its [payTo] set to the relay address: what
    [predictCreate3Address] answers for the normalised CreateX address and
    the salt [keccak256(encode(keccak256(encodePacked(factory, merchant))))]
    of the normalised factory and merchant addresses.  The refund
    extension's [merchantPayouts] has only lower-cased keys, among them the
    lower-cased relay address.  The facilitator's lookup, by the normalised
    [payTo] and then by its lower-cased form, always finds a merchant
    payout, and when [predictCreate3Address] answers checksummed addresses
    the new [payTo] is checksummed and is looked up as it is.  The payout
    found is the original [payTo] of the last refundable option of the
    route, in order, that has this very relay address: an option that comes
    later with the same relay address, such as the same merchant in another
    spelling, writes over the entry.  So it is the option's own original
    [payTo] when no other original address of the route computes the same
    relay address, and the same address after normalisation when different
    addresses have different relay addresses.  The map the facilitator
    extracts from a payload carrying the route's extensions is this map.
    [getAddress] is taken to change nothing but letter case. *)
Theorem refundable_route_lookup config factory createxAddress config' i o merchantPayout :
  (forall a b, getAddress a = Ok b -> Js.toLowerCase b = Js.toLowerCase a) ->
  processRouteConfig config factory createxAddress = Ok config' ->
  optionsOf (accepts config) !! i = Some o ->
  isRefundableOption o = true ->
  opt_payTo o = StaticPayTo merchantPayout ->
  exists createx proxy payouts o' found,
    getCreateXAddress (default "" (head (optionsOf (accepts config)) ≫= opt_network))
      createxAddress = Ok createx /\
    computeRelayAddress createx factory merchantPayout = Ok proxy /\
    optionsOf (accepts config') !! i = Some o' /\
    opt_payTo o' = StaticPayTo proxy /\
    route_extensions config' ≫= (fun e => e !! REFUND_EXTENSION_KEY)
      = Some (mkExtension (Some (mkInfo (Some factory) (Some payouts)))) /\
    (forall key v, payouts !! key = Some v -> Js.toLowerCase key = key) /\
    payouts !! Js.toLowerCase proxy = Some found /\
    (forall proxyAddress,
       getAddress proxy = Ok proxyAddress ->
       lookupMerchantPayout payouts proxyAddress = Some found) /\
    (exists o2 proxy2,
       o2 ∈ optionsOf (accepts config) /\ isRefundableOption o2 = true /\
       opt_payTo o2 = StaticPayTo found /\
       computeRelayAddress createx factory found = Ok proxy2 /\
       Js.toLowerCase proxy2 = Js.toLowerCase proxy) /\
    ((forall o2 m2 proxy2,
        o2 ∈ optionsOf (accepts config) -> isRefundableOption o2 = true ->
        opt_payTo o2 = StaticPayTo m2 ->
        computeRelayAddress createx factory m2 = Ok proxy2 ->
        Js.toLowerCase proxy2 = Js.toLowerCase proxy -> m2 = merchantPayout) ->
     found = merchantPayout) /\
    (forall paymentPayload paymentRequirements,
       extensions paymentPayload = route_extensions config' ->
       factory <> "" -> isAddress factory = true ->
       extractRefundInfo paymentPayload paymentRequirements
       = Some (mkRefundInfo factory payouts)) /\
    (exists createxChecksum factoryChecksum merchantChecksum,
       getAddress createx = Ok createxChecksum /\
       getAddress factory = Ok factoryChecksum /\
       getAddress merchantPayout = Ok merchantChecksum /\
       predictCreate3Address createxChecksum
         (keccak256 (encodeAbiParameters
                       (keccak256 (encodePacked factoryChecksum merchantChecksum))))
       = Ok proxy) /\
    ((forall deployer salt address,
        predictCreate3Address deployer salt = Ok address ->
        getAddress address = Ok address) ->
     getAddress proxy = Ok proxy /\ lookupMerchantPayout payouts proxy = Some found) /\
    (exists before o2 after proxy2,
       List.filter isRefundableOption (optionsOf (accepts config)) = before ++ o2 :: after /\
       opt_payTo o2 = StaticPayTo found /\
       computeRelayAddress createx factory found = Ok proxy2 /\
       Js.toLowerCase proxy2 = Js.toLowerCase proxy /\
       forall o3 m3 proxy3,
         o3 ∈ after -> opt_payTo o3 = StaticPayTo m3 ->
         computeRelayAddress createx factory m3 = Ok proxy3 ->
         Js.toLowerCase proxy3 <> Js.toLowerCase proxy) /\
    ((forall m1 m2 proxy1 proxy2,
        computeRelayAddress createx factory m1 = Ok proxy1 ->
        computeRelayAddress createx factory m2 = Ok proxy2 ->
        Js.toLowerCase proxy1 = Js.toLowerCase proxy2 ->
        getAddress m1 = getAddress m2) ->
     getAddress found = getAddress merchantPayout).
Proof.
  intros Hcase Hrun Hi Href HpayTo. unfold processRouteConfig in Hrun.
  destruct (Js.falsy _); [discriminate|]. unfold rbind at 1 in Hrun.
  destruct (getCreateXAddress _ _) as [createx|e]; [|discriminate].
  assert (existsb isRefundableOption (optionsOf (accepts config)) = true) as Hhas.
  { apply existsb_exists. exists o. split; [|exact Href].
    apply list_elem_of_In. now apply list_elem_of_lookup_2 in Hi. }
  rewrite Hhas in Hrun. unfold rbind at 1 in Hrun.
  destruct (collectMerchantPayouts _ factory createx ∅) as [payouts|e] eqn:Hcollect;
    [|discriminate].
  pose proof (fun key found =>
                collectMerchantPayouts_last _ _ _ _ _ key found Hcollect) as Hlast.
  apply collectMerchantPayouts_spec in Hcollect as (Hentries & _ & Hall).
  assert (o ∈ List.filter isRefundableOption (optionsOf (accepts config))) as Ho.
  { apply list_elem_of_In, filter_In. split; [|exact Href].
    apply list_elem_of_In. now apply list_elem_of_lookup_2 in Hi. }
  destruct (Hall o merchantPayout Ho HpayTo) as (proxy & Hproxy & [found Hfound]).
  unfold rbind at 1 in Hrun.
  match type of Hrun with
  | match ?processed with _ => _ end = _ => destruct processed as [accepts'|e] eqn:Haccepts
  end; [|discriminate].
  destruct (processedAccepts_lookup _ _ _ _ _ _ Haccepts Hi) as (o' & Ho' & Hi').
  destruct (processPaymentOption_refundable _ _ _ _ _ Href HpayTo Ho')
    as (proxy' & Hproxy' & HpayTo').
  rewrite Hproxy in Hproxy'. injection Hproxy' as <-.
  assert (payouts <> ∅) as Hne.
  { intros ->. now rewrite lookup_empty in Hfound. }
  rewrite (bool_decide_eq_false_2 _ Hne) in Hrun. cbn [negb andb] in Hrun.
  injection Hrun as <-. cbn [accepts route_extensions].
  assert (forall key v, payouts !! key = Some v -> Js.toLowerCase key = key) as Hkeys.
  { intros key v Hkey. destruct (Hentries key v Hkey) as [Hempty|(o2 & p2 & _ & _ & _ & ->)].
    - now rewrite lookup_empty in Hempty.
    - apply toLowerCase_idem. }
  assert (exists o2 proxy2,
            o2 ∈ optionsOf (accepts config) /\ isRefundableOption o2 = true /\
            opt_payTo o2 = StaticPayTo found /\
            computeRelayAddress createx factory found = Ok proxy2 /\
            Js.toLowerCase proxy2 = Js.toLowerCase proxy) as Horigin.
  { destruct (Hentries _ _ Hfound) as [Hempty|(o2 & p2 & Ho2 & Hp2 & Hc2 & Hk2)].
    - now rewrite lookup_empty in Hempty.
    - apply list_elem_of_In, filter_In in Ho2 as [Hin2 Href2].
      exists o2, p2. repeat split; auto. now apply list_elem_of_In. }
  exists createx, proxy, payouts, o', found.
  split; [reflexivity|]. split; [exact Hproxy|]. split; [exact Hi'|].
  assert ((declareRefundExtension factory payouts ∪ default ∅ (route_extensions config))
            !! REFUND_EXTENSION_KEY
          = Some (mkExtension (Some (mkInfo (Some factory) (Some payouts))))) as Hext.
  { unfold declareRefundExtension. apply lookup_union_Some_l, lookup_singleton_eq. }
  split; [exact HpayTo'|].
  assert (forall proxyAddress,
            getAddress proxy = Ok proxyAddress ->
            lookupMerchantPayout payouts proxyAddress = Some found) as Hlookup.
  { intros proxyAddress Hnorm. apply Hcase in Hnorm. unfold lookupMerchantPayout.
    rewrite Hnorm, Hfound.
    destruct (payouts !! proxyAddress) as [v|] eqn:Hexact; [|reflexivity].
    apply Hkeys in Hexact as Hlower. rewrite <- Hlower, Hnorm, Hfound in Hexact.
    injection Hexact as <-. cbn [Js.or]. now destruct (String.eqb found ""). }
  split; [|split; [exact Hkeys|split; [exact Hfound|split; [exact Hlookup|
    split; [exact Horigin|split; [|split; [|split; [|split; [|split; [|]]]]]]]]]].
  - cbn [mbind option_bind]. exact Hext.
  - intros Hunique. destruct Horigin as (o2 & p2 & Ho2 & Href2 & Hp2 & Hc2 & Hk2).
    exact (Hunique o2 found p2 Ho2 Href2 Hp2 Hc2 Hk2).
  - intros paymentPayload paymentRequirements Hsame Hfactory Haddress.
    unfold extractRefundInfo. rewrite Hsame. cbn [mbind option_bind]. rewrite Hext.
    cbn [info factoryAddress merchantPayouts default].
    rewrite (string_eqb_false _ _ Hfactory), Haddress. reflexivity.
  - unfold computeRelayAddress, rbind in Hproxy.
    destruct (getAddress createx) as [createxChecksum|e]; [|discriminate].
    destruct (getAddress factory) as [factoryChecksum|e]; [|discriminate].
    destruct (getAddress merchantPayout) as [merchantChecksum|e]; [|discriminate].
    now exists createxChecksum, factoryChecksum, merchantChecksum.
  - intros Hlibrary.
    assert (getAddress proxy = Ok proxy) as Hchecksummed.
    { unfold computeRelayAddress, rbind in Hproxy.
      destruct (getAddress createx) as [createxChecksum|e]; [|discriminate].
      destruct (getAddress factory) as [factoryChecksum|e]; [|discriminate].
      destruct (getAddress merchantPayout) as [merchantChecksum|e]; [|discriminate].
      exact (Hlibrary _ _ _ Hproxy). }
    split; [exact Hchecksummed|exact (Hlookup _ Hchecksummed)].
  - destruct (Hlast _ _ Hfound)
      as [[Hempty _]|(before & o2 & after & proxy2 & Hsplit & Hp2 & Hc2 & Hk2 & Hlater)].
    + now rewrite lookup_empty in Hempty.
    + now exists before, o2, after, proxy2.
  - intros Hinjective. destruct Horigin as (o2 & p2 & _ & _ & _ & Hc2 & Hk2).
    exact (Hinjective _ _ _ _ Hc2 Hproxy Hk2).
Qed.

End Routes.

(** ** The revert-data decoder against the encoding *)

Section Decoder.

Lemma length_string_app (a b : string) :
  String.length (a +:+ b) = (String.length a + String.length b)%nat.
Proof.
  induction a as [|c a IH]; [reflexivity|].
  rewrite string_app_cons. cbn [String.length]. now rewrite IH.
Qed.

Lemma length_take n s : (String.length (Js.take n s) <= n)%nat.
Proof.
  revert s. induction n as [|n IH]; intros [|c s]; cbn [Js.take String.length]; try lia.
  specialize (IH s). lia.
Qed.

Lemma length_take_le n s : (String.length (Js.take n s) <= String.length s)%nat.
Proof.
  revert s. induction n as [|n IH]; intros [|c s]; cbn [Js.take String.length]; try lia.
  specialize (IH s). lia.
Qed.

Lemma length_drop n s : String.length (Js.drop n s) = (String.length s - n)%nat.
Proof.
  revert s. induction n as [|n IH]; intros [|c s]; cbn [Js.drop String.length]; try lia.
  apply IH.
Qed.

Lemma length_hexOfBytes s :
  String.length (ErrorString.hexOfBytes s) = (2 * String.length s)%nat.
Proof.
  induction s as [|c s IH]; [reflexivity|].
  cbn [ErrorString.hexOfBytes String.length]. rewrite IH. lia.
Qed.

Lemma length_hexOfNumber digits n :
  String.length (ErrorString.hexOfNumber digits n) = digits.
Proof.
  revert n. induction digits as [|d IH]; intros n; [reflexivity|].
  cbn [ErrorString.hexOfNumber]. rewrite length_string_app, IH. cbn. lia.
Qed.

Lemma length_zeros n : String.length (ErrorString.zeros n) = n.
Proof. induction n as [|n IH]; [reflexivity|]. cbn. now rewrite IH. Qed.

Lemma length_bufferFromHex s :
  (2 * length (Js.bufferFromHex s) <= String.length s)%nat.
Proof.
  assert (forall n s, (String.length s <= n)%nat ->
            (2 * length (Js.bufferFromHex s) <= String.length s)%nat) as Hall.
  { induction n as [|n IH]; intros [|a [|b t]] Hn; cbn [Js.bufferFromHex String.length length] in *;
      try lia.
    destruct (Js.hexDigit a), (Js.hexDigit b); cbn [length]; try lia.
    assert (String.length t <= n)%nat as Ht by lia. specialize (IH t Ht). lia. }
  now apply (Hall (String.length s)).
Qed.

Lemma length_toStringNoNul bs : (String.length (Js.toStringNoNul bs) <= length bs)%nat.
Proof.
  induction bs as [|c bs IH]; [reflexivity|]. cbn [Js.toStringNoNul length].
  destruct (Ascii.eqb c "000"); cbn [String.length]; lia.
Qed.

(** A slice from [start] is no longer than what follows [start]. *)
Lemma length_slice s start end_ :
  0 <= start ->
  (String.length (Js.slice s start end_) <= String.length s - Z.to_nat start)%nat.
Proof.
  intros Hstart. unfold Js.slice, Js.clampIndex, Js.length.
  destruct (Z.ltb_spec start 0) as [Hneg|_]; [lia|].
  set (to := if default 0 end_ <? 0 then _ else _).
  pose proof (length_take_le (Z.to_nat (to - Z.min start (Z.of_nat (String.length s))))
                (Js.drop (Z.to_nat (Z.min start (Z.of_nat (String.length s)))) s)) as Hle.
  pose proof (length_take (Z.to_nat (to - Z.min start (Z.of_nat (String.length s))))
                (Js.drop (Z.to_nat (Z.min start (Z.of_nat (String.length s)))) s)) as Hle'.
  rewrite length_drop in Hle.
  lia.
Qed.

(** The decoder never gives back the reason that was encoded: what it
    decodes, if anything, is shorter by 32 bytes or more. *)
Lemma decodeRevertData_misses reason :
  decodeRevertData (ErrorString.encode reason) <> Some reason.
Proof.
  unfold decodeRevertData, ErrorString.encode.
  set (len := String.length reason).
  set (padding := ((32 - len mod 32) mod 32)%nat).
  rewrite startsWith_app.
  match goal with
  | |- (if String.eqb ?d "" then _ else _) <> _ => set (decoded := d)
  end.
  destruct (String.eqb_spec decoded "") as [|Hnonempty]; [discriminate|].
  intros [= Hsame].
  assert (len <> 0)%nat as Hlen.
  { subst len. rewrite <- Hsame. destruct decoded; [contradiction|discriminate]. }
  assert (padding < 32)%nat as Hpadding
    by (subst padding; apply Nat.mod_upper_bound; lia).
  clearbody padding.
  assert (String.length decoded < len)%nat as Hshort; [|subst len; rewrite Hsame in Hshort; lia].
  subst decoded.
  match goal with
  | |- (String.length (Js.toStringNoNul (Js.bufferFromHex ?x)) < _)%nat =>
      pose proof (length_toStringNoNul (Js.bufferFromHex x)) as H1;
      pose proof (length_bufferFromHex x) as H2;
      assert (String.length x <= 2 * (len + padding) - 64)%nat as H3
  end.
  { match goal with
    | |- (String.length (Js.slice ?d ?k ?e) <= _)%nat =>
        pose proof (length_slice d k e ltac:(lia)) as Hs
    end.
    rewrite !length_string_app, !length_hexOfNumber, length_hexOfBytes, length_zeros in Hs.
    cbn [String.length] in Hs. fold len in Hs. lia. }
  lia.
Qed.

End Decoder.

(** ** The properties at work on the concrete provider *)

(** A payment whose authorization names another address than the proxy. *)
Lemma binding_mismatch_witness :
  exists st1,
    settleWithRefundHelper (Demo.payloadWith (Some Demo.factory) Demo.otherAddress)
      Demo.requirements (Demo.signer Demo.deployed) (mkSt 0%nat [])
    = (Throw (Error (bindingMismatchMessage Demo.otherAddress Demo.proxy)), st1).
Proof.
  eexists.
  eapply (binding_mismatch_raises (Demo.signer Demo.deployed)); try reflexivity.
  discriminate.
Defined.

(** Two rate-limited answers, then the value: three reads, delays of 1 s and
    2 s. *)
Lemma read_retry_witness :
  readContractWithRetry (Demo.signer Demo.limitedTwice) TString Demo.tokenRead 5
    (mkSt 0%nat [])
  = (Ok Demo.token,
     mkSt 3%nat
       [EvRead Demo.tokenRead (Ok (VString Demo.token));
        EvSleep 2000;
        EvRead Demo.tokenRead (Throw Demo.tooManyRequests);
        EvSleep 1000;
        EvRead Demo.tokenRead (Throw Demo.tooManyRequests)]) /\
  exists calls,
    [EvRead Demo.tokenRead (Ok (VString Demo.token));
     EvSleep 2000;
     EvRead Demo.tokenRead (Throw Demo.tooManyRequests);
     EvSleep 1000;
     EvRead Demo.tokenRead (Throw Demo.tooManyRequests)] = rev calls ++ [] /\
    (count isRead calls <= 5 + 1)%nat.
Proof.
  split; [reflexivity|].
  edestruct (readContractWithRetry_policy (Demo.signer Demo.limitedTwice) TString
               Demo.tokenRead 5 (mkSt 0%nat []))
    as (calls & Hlog & Hcount & _); [reflexivity|].
  exists calls. split; [exact Hlog|exact Hcount].
Defined.

(** C3, where the wording of the rate-limit test matters.  A thrown object
    with no [status] and no [message] whose [details] are
    [Rate limit exceeded] is rate limited for the code: the read is made six
    times, with delays of 1, 2, 4, 8 and 16 s, before the error is thrown.
    An error with no [status] whose [message] is [Request failed] and whose
    [details] are the same is not: it is thrown after one read, since
    [details] are read only when [message] is falsy. *)
Lemma details_are_read_without_message :
  isRateLimitError Scenarios.detailsOnly = true /\
  readContractWithRetry (Demo.signer (Scenarios.readsFail Scenarios.detailsOnly)) TString
    Demo.tokenRead 5 (mkSt 0%nat [])
  = (Throw Scenarios.detailsOnly,
     mkSt 6%nat
       [EvRead Demo.tokenRead (Throw Scenarios.detailsOnly);
        EvSleep 16000;
        EvRead Demo.tokenRead (Throw Scenarios.detailsOnly);
        EvSleep 8000;
        EvRead Demo.tokenRead (Throw Scenarios.detailsOnly);
        EvSleep 4000;
        EvRead Demo.tokenRead (Throw Scenarios.detailsOnly);
        EvSleep 2000;
        EvRead Demo.tokenRead (Throw Scenarios.detailsOnly);
        EvSleep 1000;
        EvRead Demo.tokenRead (Throw Scenarios.detailsOnly)]) /\
  isRateLimitError Scenarios.hiddenDetails = false /\
  readContractWithRetry (Demo.signer (Scenarios.readsFail Scenarios.hiddenDetails)) TString
    Demo.tokenRead 5 (mkSt 0%nat [])
  = (Throw Scenarios.hiddenDetails,
     mkSt 1%nat [EvRead Demo.tokenRead (Throw Scenarios.hiddenDetails)]).
Proof. repeat split; reflexivity. Qed.

(** A [message] that is not a string is not searched, and hides the
    [details]: the failure is thrown after one read. *)
Lemma number_message_is_not_searched :
  isRateLimitError Scenarios.numberMessage = false /\
  readContractWithRetry (Demo.signer (Scenarios.readsFail Scenarios.numberMessage)) TString
    Demo.tokenRead 5 (mkSt 0%nat [])
  = (Throw Scenarios.numberMessage,
     mkSt 1%nat [EvRead Demo.tokenRead (Throw Scenarios.numberMessage)]).
Proof. split; reflexivity. Qed.



(** The proxy reports another token than the payment's asset. *)
Lemma proxy_mismatch_witness :
  exists msg st2,
    settleWithRefundHelper Demo.payload Demo.requirements
      (Demo.signer Demo.wrongToken) (mkSt 0%nat [])
    = (Throw (Error msg), st2) /\
    Js.includes msg Demo.otherAddress = true /\
    Js.includes msg Demo.token = true.
Proof.
  edestruct (proxy_mismatch_raises (Demo.signer Demo.wrongToken) Demo.payload
               Demo.requirements) as [Htoken _]; [reflexivity..|].
  destruct Htoken as (msg & new & Hrun & Hmsg1 & Hmsg2 & _); [discriminate|].
  exists msg. eexists. split; [exact Hrun|]. split; [exact Hmsg1|exact Hmsg2].
Defined.

(** The relay has no code and the factory computes another address. *)
Lemma deploy_check_witness :
  exists msg st3,
    settleWithRefundHelper Demo.payload Demo.requirements
      (Demo.signer Demo.undeployed) (mkSt 0%nat [])
    = (Throw (Error msg), st3) /\
    Forall (fun e => isWrite e = false) (log st3).
Proof.
  destruct (deploy_only_after_address_check (Demo.signer Demo.undeployed) Demo.payload
              Demo.requirements) as [_ Hmismatch].
  edestruct Hmismatch as (msg & new & Hrun & _ & Hlog & Hnew);
    [reflexivity..|discriminate|].
  exists msg. eexists. split; [exact Hrun|].
  rewrite Hlog. cbn [log]. now rewrite app_nil_r.
Defined.

(** A refund extension without a factory address. *)
Lemma invalid_factory_witness :
  settleWithRefundHelper (Demo.payloadWith None Demo.proxy) Demo.requirements
    (Demo.signer Demo.deployed) (mkSt 0%nat [])
  = (Ok None, mkSt 0%nat []).
Proof.
  eapply proj2, (invalid_factory_not_applicable (Demo.signer Demo.deployed));
    [reflexivity..|].
  now left.
Defined.

(** C8, against a fatal error: for a refund extension without a factory
    address, and for one whose factory address is not an address, the helper
    returns [null]; it does not throw. *)
Lemma missing_factory_returns_null :
  fst (run (settleWithRefundHelper (Demo.payloadWith None Demo.proxy) Demo.requirements
              (Demo.signer Demo.deployed)) 0%nat) = Ok None /\
  fst (run (settleWithRefundHelper (Demo.payloadWith (Some "nonsense") Demo.proxy)
              Demo.requirements (Demo.signer Demo.deployed)) 0%nat) = Ok None /\
  ~ (exists e,
       fst (run (settleWithRefundHelper (Demo.payloadWith None Demo.proxy)
                   Demo.requirements (Demo.signer Demo.deployed)) 0%nat) = Throw e).
Proof.
  repeat split; try reflexivity. intros [e He]. discriminate He.
Qed.

(** There is code at [payTo], and [MERCHANT_PAYOUT] reverts. *)
Lemma unreadable_proxy_witness :
  fst (settleWithRefundHelper Demo.payload Demo.requirements
         (Demo.signer Demo.unreadable) (mkSt 0%nat [])) = Ok None.
Proof.
  eapply (unreadable_proxy_not_applicable (Demo.signer Demo.unreadable));
    [reflexivity..|].
  left. eexists _, _. split; reflexivity.
Defined.

Lemma lower_upperChar c : Js.lowerChar (Demo.upperChar c) = Js.lowerChar c.
Proof. destruct c as [[] [] [] [] [] [] [] []]; reflexivity. Qed.

Lemma lower_toUpperCase s : Js.toLowerCase (Demo.toUpperCase s) = Js.toLowerCase s.
Proof.
  induction s as [|c s IH]; [reflexivity|].
  cbn [Demo.toUpperCase Js.toLowerCase]. now rewrite lower_upperChar, IH.
Qed.

(** The stand-in for [getAddress] changes nothing but letter case. *)
Lemma demo_getAddress_case a b :
  getAddress a = Ok b -> Js.toLowerCase b = Js.toLowerCase a.
Proof.
  cbn [getAddress Demo.viem]. destruct (Demo.wellFormed a) eqn:Hwf; [|discriminate].
  intros [= <-]. unfold Demo.wellFormed in Hwf.
  destruct a as [|c0 [|c1 rest]]; try discriminate.
  { cbn [Js.startsWith] in Hwf. destruct (Ascii.eqb "0" c0); cbn in Hwf; discriminate. }
  cbn [Js.startsWith] in Hwf.
  destruct (Ascii.eqb_spec "0" c0) as [Hc0|]; [subst c0|discriminate].
  destruct (Ascii.eqb_spec "x" c1) as [Hc1|]; [subst c1|discriminate].
  unfold Demo.checksum. cbn [Js.drop]. rewrite !string_app_cons, string_app_nil_l.
  cbn [Js.toLowerCase].
  now rewrite lower_toUpperCase.
Qed.

(** The stand-in for the CREATE3 prediction answers normalised addresses
    only. *)
Lemma demo_predict_checksummed deployer salt address :
  predictCreate3Address deployer salt = Ok address -> getAddress address = Ok address.
Proof.
  unfold predictCreate3Address, getAddress, Demo.viem. cbv zeta.
  generalize ("0x" +:+ Js.take 40 (String.rev (Js.drop 2 salt))). intros a.
  destruct (Demo.wellFormed a) eqn:Hformed; [|discriminate]. cbn [andb].
  destruct (String.eqb a (Demo.checksum a)) eqn:Hsame; [|discriminate].
  intros [= <-]. rewrite Hformed. apply String.eqb_eq in Hsame. now rewrite <- Hsame.
Qed.

(** The route of the example.  The merchant is spelled in small letters; the
    relay address is predicted from the normalised addresses, it is the new
    [payTo], it is normalised, and the lookup by it finds the merchant. *)
Lemma refundable_route_witness :
  exists config' o' payouts,
    processRouteConfig Demo.route Demo.factory None = Ok config' /\
    optionsOf (accepts config') !! 0%nat = Some o' /\
    opt_payTo o' = StaticPayTo "0xBA00000000000000000000000000000000000000" /\
    predictCreate3Address "0xBA5ED099633D3B313E4D5F7BDC1305D3C28BA5ED"
      (keccak256 (encodeAbiParameters
                    (keccak256 (encodePacked Demo.factory
                                  "0x00000000000000000000000000000000000000AB"))))
    = Ok "0xBA00000000000000000000000000000000000000" /\
    getAddress "0xBA00000000000000000000000000000000000000"
    = Ok "0xBA00000000000000000000000000000000000000" /\
    lookupMerchantPayout payouts "0xBA00000000000000000000000000000000000000"
    = Some Demo.lettered.
Proof.
  edestruct refundable_route_lookup
    with (config := Demo.route) (factory := Demo.factory) (createxAddress := @None string)
         (i := 0%nat) (merchantPayout := Demo.lettered)
    as (createx & proxy & payouts & o' & found & Hcreatex & Hproxy & Hi & HpayTo & _ & _ & _
        & _ & _ & Hunique & _ & Hpredict & Hchecksummed & _).
  - exact demo_getAddress_case.
  - vm_compute; reflexivity.
  - reflexivity.
  - reflexivity.
  - reflexivity.
  - vm_compute in Hcreatex. injection Hcreatex as <-.
    vm_compute in Hproxy. injection Hproxy as <-.
    assert (found = Demo.lettered) as ->.
    { apply Hunique. intros o2 m2 proxy2 Ho2 _ HpayTo2 _ _.
      apply list_elem_of_singleton in Ho2. subst o2. now injection HpayTo2 as <-. }
    destruct Hpredict as (createxChecksum & factoryChecksum & merchantChecksum
                          & Hc & Hf & Hm & Hpredict).
    vm_compute in Hc. injection Hc as <-.
    vm_compute in Hf. injection Hf as <-.
    vm_compute in Hm. injection Hm as <-.
    destruct (Hchecksummed demo_predict_checksummed) as [Hnormal Hlookup].
    eexists _, o', payouts.
    split; [reflexivity|]. split; [exact Hi|]. split; [exact HpayTo|].
    split; [exact Hpredict|]. split; [exact Hnormal|exact Hlookup].
Defined.

(** C10, where the payout found is not the option's own.  A route has two
    refundable options that pay one merchant, spelled [0x..ab] and
    [0x..AB].  Both get the same relay address, and the entry of the second
    writes over that of the first: the lookup for the first option finds
    [0x..AB], which is not the string the option had. *)
Lemma other_spelling_is_found :
  exists config' o' payouts,
    processRouteConfig Scenarios.twoSpellings Demo.factory None = Ok config' /\
    (optionsOf (accepts Scenarios.twoSpellings) !! 0%nat) ≫= (fun o => Some (opt_payTo o))
    = Some (StaticPayTo Demo.lettered) /\
    optionsOf (accepts config') !! 0%nat = Some o' /\
    opt_payTo o' = StaticPayTo "0xBA00000000000000000000000000000000000000" /\
    route_extensions config' ≫= (fun e => e !! REFUND_EXTENSION_KEY)
    = Some (mkExtension (Some (mkInfo (Some Demo.factory) (Some payouts)))) /\
    lookupMerchantPayout payouts "0xBA00000000000000000000000000000000000000"
    = Some Scenarios.capitals /\
    Scenarios.capitals <> Demo.lettered.
Proof.
  eexists _, _, (<[ "0xba00000000000000000000000000000000000000" := Scenarios.capitals ]> ∅).
  split; [vm_compute; reflexivity|].
  split; [reflexivity|]. split; [reflexivity|]. split; [reflexivity|].
  split; [vm_compute; reflexivity|]. split; [vm_compute; reflexivity|discriminate].
Qed.

(** C2, at the failing input.  The token answers that the nonce is used; the
    helper goes on all the same: it sends [executeDeposit] and returns the
    response.  (By [checkNonceUnused_never_throws], the check never throws,
    whatever the read answers: the [throw] for a used nonce is caught by the
    empty [catch] clause around it.) *)
Theorem used_nonce_still_deposits :
  let outcome :=
    run (settleWithRefundHelper Demo.payload Demo.requirements
           (Demo.signer Demo.nonceUsed)) 0%nat in
  In (EvRead
        (mkRead Demo.token AUTHORIZATION_STATE_ABI "authorizationState"
           [Demo.payerAddress; Demo.nonce])
        (Ok (VBoolean true))) (log (snd outcome)) /\
  count (isWriteOf "executeDeposit") (log (snd outcome)) = 1%nat /\
  fst outcome
  = Ok (Some (mkSettleResponse true "0xabc1" "eip155:84532" Demo.payerAddress)).
Proof. vm_compute. split; [|split; reflexivity]. do 2 right. now left. Qed.

(** C7, at the failing input.  For revert data that encodes
    [Error("Insufficient balance")], the decoder finds nothing and the error
    thrown carries the no-reason message; for a longer reason it finds the
    reason without its first 32 bytes; and for no reason at all does it give
    back the reason that was encoded.  The decoder reads the length word at
    characters 138-202 of the data and the string from character 202, which
    is 32 bytes too far: character 138 is where the string begins. *)
Theorem revert_data_not_decoded :
  ErrorString.encode "Insufficient balance"
  = "0x08c379a0" +:+
    "0000000000000000000000000000000000000000000000000000000000000020" +:+
    "0000000000000000000000000000000000000000000000000000000000000014" +:+
    "496e73756666696369656e742062616c616e6365000000000000000000000000" /\
  decodeRevertData (ErrorString.encode "Insufficient balance") = None /\
  fst (run (settleWithRefundHelper Demo.payload Demo.requirements
              (Demo.signer (Demo.revertsWith (ErrorString.encode "Insufficient balance"))))
         0%nat)
  = Throw (Error ("Failed to execute proxy.executeDeposit: " +:+
                  noReasonMessage "execution reverted")) /\
  decodeRevertData
    (ErrorString.encode "ERC20: transfer amount exceeds balance of payer")
  = Some "alance of payer" /\
  (forall reason, decodeRevertData (ErrorString.encode reason) <> Some reason).
Proof.
  split; [vm_compute; reflexivity|]. split; [vm_compute; reflexivity|].
  split; [vm_compute; reflexivity|]. split; [vm_compute; reflexivity|].
  exact decodeRevertData_misses.
Qed.

(** ** What the helper does and does not do *)

Section Outcomes.

Context `{Viem} {W : Type} `{Clock W}.
Variable signer : FacilitatorEvmSigner W.

(** The factory check adds the one [getCode] call; whatever goes wrong in it
    is thrown again under the heading of the check. *)
Lemma checkFactory_failure factory address r w (st : St W) :
  getAddress factory = Ok address ->
  getCode signer address (world st) = (r, w) ->
  (forall code, r = Ok code -> codeExists code = false) ->
  exists msg,
    checkFactory signer factory st
    = (Throw (Error ("Failed to check factory contract: " +:+ msg)),
       mkSt w (EvGetCode address r :: log st)) /\
    (forall code, r = Ok code ->
       msg = "Factory contract does not exist at " +:+ factory +:+
             ". Invalid refund extension.") /\
    (forall e, r = Throw e -> msg = errorText e).
Proof.
  intros Haddress Hcode Hnone.
  unfold checkFactory, tryCatch, bind, liftRes, callGetCode. rewrite Haddress, Hcode.
  destruct r as [code|e].
  - rewrite (Hnone code eq_refl). cbn [negb]. unfold throw. eexists. split; [reflexivity|].
    split; [reflexivity|]. intros e [=].
  - eexists. split; [reflexivity|]. split; [intros code [=]|]. now intros e' [= <-].
Qed.

(** X1.  The factory named by the refund extension has no code, or asking
    for its code fails: the helper throws an error headed [Failed to check
    factory contract: ], which says that the factory does not exist, or
    carries the text of the failure.  The one [getCode] call is all it did. *)
Theorem factory_without_code_raises paymentPayload paymentRequirements refundInfo
    address r w (st : St W) :
  extractRefundInfo paymentPayload paymentRequirements = Some refundInfo ->
  getAddress (ri_factoryAddress refundInfo) = Ok address ->
  getCode signer address (world st) = (r, w) ->
  (forall code, r = Ok code -> codeExists code = false) ->
  exists msg,
    settleWithRefundHelper paymentPayload paymentRequirements signer st
    = (Throw (Error ("Failed to check factory contract: " +:+ msg)),
       mkSt w (EvGetCode address r :: log st)) /\
    (forall code, r = Ok code ->
       msg = "Factory contract does not exist at " +:+ ri_factoryAddress refundInfo +:+
             ". Invalid refund extension.") /\
    (forall e, r = Throw e -> msg = errorText e).
Proof.
  intros Hinfo Haddress Hcode Hnone.
  destruct (checkFactory_failure _ _ _ _ st Haddress Hcode Hnone) as (msg & Hcheck & Hmsg).
  exists msg. split; [|exact Hmsg].
  unfold settleWithRefundHelper. rewrite Hinfo. unfold prepareRelay.
  now rewrite (bind_Throw _ _ _ _ _ (bind_Throw _ _ _ _ _ Hcheck)).
Qed.

(** X2.  There is no code at the normalised [payTo], and [merchantPayouts]
    has no merchant for it, under the address or its lower-cased form, or
    has the zero address: the helper returns [null] after the two [getCode]
    calls.  It reads no contract and deploys nothing. *)
Theorem undeployed_without_merchant_not_applicable paymentPayload paymentRequirements
    refundInfo proxyAddress code (st st1 st2 : St W) :
  extractRefundInfo paymentPayload paymentRequirements = Some refundInfo ->
  checkFactory signer (ri_factoryAddress refundInfo) st = (Ok tt, st1) ->
  getAddress (req_payTo paymentRequirements) = Ok proxyAddress ->
  callGetCode signer proxyAddress st1 = (Ok code, st2) ->
  codeExists code = false ->
  noMerchant (lookupMerchantPayout (ri_merchantPayouts refundInfo) proxyAddress) = true ->
  settleWithRefundHelper paymentPayload paymentRequirements signer st = (Ok None, st2) /\
  log st2 = EvGetCode proxyAddress (Ok code) :: log st1.
Proof.
  intros Hinfo Hfactory HpayTo Hcode Hexists Hnone.
  assert (resolveRelay signer refundInfo paymentRequirements st1 = (Ok None, st2)) as Hres.
  { unfold resolveRelay. unfold bind at 1. unfold liftRes. rewrite HpayTo.
    unfold bind at 1. rewrite Hcode, Hexists.
    destruct (lookupMerchantPayout _ _) as [merchantPayout|]; [|reflexivity].
    now rewrite Hnone. }
  split.
  - unfold settleWithRefundHelper. rewrite Hinfo.
    assert (prepareRelay signer refundInfo paymentRequirements st = (Ok None, st2)) as Hprep.
    { unfold prepareRelay. rewrite (bind_Ok _ _ _ _ _ Hfactory).
      now rewrite (bind_Ok _ _ _ _ _ Hres). }
    now rewrite (bind_Ok _ _ _ _ _ Hprep).
  - unfold callGetCode in Hcode. destruct (getCode signer proxyAddress (world st1)) as [r w].
    now injection Hcode as -> <-.
Qed.

Lemma checkMerchantRegistered_false escrowAddress merchantPayout escrowChecksum
    merchantChecksum (st st1 : St W) :
  getAddress escrowAddress = Ok escrowChecksum ->
  getAddress merchantPayout = Ok merchantChecksum ->
  readContractWithRetry signer TBoolean
    (mkRead escrowChecksum ESCROW_ABI "registeredMerchants" [merchantChecksum])
    defaultMaxRetries st = (Ok false, st1) ->
  checkMerchantRegistered signer escrowAddress merchantPayout st
  = (Throw (Error ("Merchant " +:+ merchantPayout +:+
      " is not registered. Please register at https://app.402r.org to enable refund functionality.")),
     st1).
Proof.
  intros Hescrow Hmerchant Hread.
  unfold checkMerchantRegistered, tryCatch, bind, liftRes.
  rewrite Hescrow, Hmerchant. cbv beta iota. now rewrite Hread.
Qed.

(** X3.  The relay is resolved and the escrow answers that the merchant is
    not registered: the helper throws the error that names the merchant, and
    has sent no [executeDeposit] transaction. *)
Theorem unregistered_merchant_raises paymentPayload paymentRequirements refundInfo relay
    escrowChecksum merchantChecksum (st st1 st2 st3 : St W) :
  extractRefundInfo paymentPayload paymentRequirements = Some refundInfo ->
  checkFactory signer (ri_factoryAddress refundInfo) st = (Ok tt, st1) ->
  resolveRelay signer refundInfo paymentRequirements st1 = (Ok (Some relay), st2) ->
  getAddress (relay_escrowAddress relay) = Ok escrowChecksum ->
  getAddress (relay_merchantPayout relay) = Ok merchantChecksum ->
  readContractWithRetry signer TBoolean
    (mkRead escrowChecksum ESCROW_ABI "registeredMerchants" [merchantChecksum])
    defaultMaxRetries st2 = (Ok false, st3) ->
  settleWithRefundHelper paymentPayload paymentRequirements signer st
  = (Throw (Error ("Merchant " +:+ relay_merchantPayout relay +:+
      " is not registered. Please register at https://app.402r.org to enable refund functionality.")),
     st3) /\
  exists new, log st3 = new ++ log st /\
              Forall (fun e => isWriteOf "executeDeposit" e = false) new.
Proof.
  intros Hinfo Hfactory Hres Hescrow Hmerchant Hread.
  pose proof (checkMerchantRegistered_false _ _ _ _ _ _ Hescrow Hmerchant Hread) as Hreg.
  assert (prepareRelay signer refundInfo paymentRequirements st
          = (Throw (Error ("Merchant " +:+ relay_merchantPayout relay +:+
      " is not registered. Please register at https://app.402r.org to enable refund functionality.")),
     st3)) as Hprep.
  { unfold prepareRelay. rewrite (bind_Ok _ _ _ _ _ Hfactory).
    rewrite (bind_Ok _ _ _ _ _ Hres). now rewrite (bind_Throw _ _ _ _ _ Hreg). }
  split.
  - unfold settleWithRefundHelper. rewrite Hinfo. now rewrite (bind_Throw _ _ _ _ _ Hprep).
  - pose proof (emits_prepareRelay signer _ readOnly_not_deposit refundInfo
                  paymentRequirements deploy_not_deposit st) as (new & Hlog & Hnew).
    rewrite Hprep in Hlog. now exists new.
Qed.

Lemma readOnly_not_write : readOnly (fun e => isWrite e = false).
Proof. now intros e He. Qed.

Lemma liftRes_inv {A} (x : Res A) (st : St W) r st' :
  liftRes x st = (r, st') -> r = x /\ st' = st.
Proof. unfold liftRes. now intros [= <- <-]. Qed.

(** A successful attempt is a transaction sent to the proxy and a receipt
    with status [success]. *)
Lemma attemptDeposit_Ok proxyAddress paymentRequirements auth parsedSig
    (st : St W) response st' :
  attemptDeposit signer proxyAddress paymentRequirements auth parsedSig st
  = (Ok response, st') ->
  exists fromUser amount validAfter validBefore txHash receipt,
    getAddress (auth_from auth) = Ok fromUser /\
    BigInt (auth_value auth) = Ok amount /\
    BigInt (auth_validAfter auth) = Ok validAfter /\
    BigInt (auth_validBefore auth) = Ok validBefore /\
    receipt_status receipt = "success" /\
    response = mkSettleResponse true txHash (req_network paymentRequirements)
                 (auth_from auth) /\
    log st' = EvWait txHash (Ok receipt)
              :: EvWrite (mkWrite proxyAddress RELAY_PROXY_ABI "executeDeposit"
                            [AHex fromUser; ABigInt amount; ABigInt validAfter;
                             ABigInt validBefore; AHex (auth_nonce auth);
                             recoveryId parsedSig; AHex (sig_r parsedSig);
                             AHex (sig_s parsedSig)]) (Ok txHash)
              :: log st.
Proof.
  unfold attemptDeposit. intros Hrun.
  apply bind_inv in Hrun as [(fromUser & s1 & Hfrom & Hrun)|(e & _ & [=])].
  apply liftRes_inv in Hfrom as [Hfrom ->].
  apply bind_inv in Hrun as [(amount & s2 & Hamount & Hrun)|(e & _ & [=])].
  apply liftRes_inv in Hamount as [Hamount ->].
  apply bind_inv in Hrun as [(validAfter & s3 & Hafter & Hrun)|(e & _ & [=])].
  apply liftRes_inv in Hafter as [Hafter ->].
  apply bind_inv in Hrun as [(validBefore & s4 & Hbefore & Hrun)|(e & _ & [=])].
  apply liftRes_inv in Hbefore as [Hbefore ->].
  apply bind_inv in Hrun as [(txHash & s5 & Hwrite & Hrun)|(e & _ & [=])].
  apply bind_inv in Hrun as [(receipt & s6 & Hwait & Hrun)|(e & _ & [=])].
  destruct (String.eqb (receipt_status receipt) "success") eqn:Hstatus; [|discriminate].
  apply String.eqb_eq in Hstatus. injection Hrun as <- <-.
  exists fromUser, amount, validAfter, validBefore, txHash, receipt.
  repeat split; try easy.
  unfold callWaitForTransactionReceipt in Hwait.
  destruct (waitForTransactionReceipt signer txHash (world s5)) as [rw w6].
  injection Hwait as -> <-. cbn [log]. f_equal.
  unfold callWriteContract in Hwrite.
  destruct (writeContract signer _ (world st)) as [rt w5].
  now injection Hwrite as -> <-.
Qed.

(** A response of the loop is the response of its last attempt. *)
Lemma executeDepositLoop_Ok proxyAddress paymentRequirements auth parsedSig retriesLeft :
  forall attempt (st : St W) response st',
    executeDepositLoop signer proxyAddress paymentRequirements auth parsedSig
      retriesLeft attempt st = (Ok response, st') ->
    exists stBefore earlier,
      log stBefore = earlier ++ log st /\
      attemptDeposit signer proxyAddress paymentRequirements auth parsedSig stBefore
      = (Ok response, st').
Proof.
  induction retriesLeft as [|k IH]; intros attempt st response st';
    cbn [executeDepositLoop]; unfold tryCatch;
    destruct (attemptDeposit _ _ _ _ _ st) as [[a|e] st1] eqn:Hattempt.
  - intros [= <- <-]. now exists st, [].
  - discriminate.
  - intros [= <- <-]. now exists st, [].
  - intros Hrun. apply bind_inv in Hrun as [([] & s1 & Hsleep & Hrun)|(e' & _ & [=])].
    apply IH in Hrun as (stBefore & earlier & Hlog & Hlast).
    destruct (emits_attemptDeposit signer (fun _ => True) proxyAddress paymentRequirements
                auth parsedSig (fun _ _ => I) (fun _ _ _ => I) st) as (new & Hnew & _).
    rewrite Hattempt in Hnew. cbn [snd] in Hnew.
    unfold sleep in Hsleep. injection Hsleep as <-.
    exists stBefore, (earlier ++ EvSleep ((attempt + 1) * 1000) :: new).
    split; [|exact Hlast]. rewrite Hlog. cbn [log]. rewrite Hnew.
    now rewrite <- app_assoc.
Qed.

(** How [settleOnRelay] ends: before the deposit, with [null] or an error and
    without a transaction, or with the outcome of the deposit loop. *)
Lemma settleOnRelay_cases paymentRequirements relay auth sig (st1 : St W) r st' :
  settleOnRelay signer paymentRequirements relay auth sig st1 = (r, st') ->
  ((exists new, log st' = new ++ log st1 /\ Forall (fun e => isWrite e = false) new) /\
   (r = Ok None /\ unwrapSignature sig = None \/ exists e, r = Throw e)) \/
  (exists parsedSignature parsedSig st2 st3 checked r0,
     getAddress (auth_to auth) = Ok (relay_proxyAddress relay) /\
     verifyProxyImmutables signer (relay_proxyAddress relay) paymentRequirements
       (relay_escrowAddress relay) st1 = (Ok tt, st2) /\
     unwrapSignature sig = Some parsedSignature /\
     parseSignature parsedSignature = Ok parsedSig /\
     checkNonceUnused signer paymentRequirements auth st2 = (checked, st3) /\
     executeDeposit signer (relay_proxyAddress relay) paymentRequirements auth parsedSig st3
     = (r0, st') /\
     r = mapRes Some r0).
Proof.
  unfold settleOnRelay. intros Hrun.
  pose proof (emits_verifyProxyImmutables signer _ readOnly_not_write
                (relay_proxyAddress relay) paymentRequirements (relay_escrowAddress relay))
    as Hquiet.
  apply bind_inv in Hrun as [([] & s1 & Hbinding & Hrun)|(e & Hbinding & ->)].
  2:{ left. split; [|right; now exists e].
      destruct (emits_verifyAuthorizationBinding (W:=W) (fun e => isWrite e = false)
                  auth (relay_proxyAddress relay) st1) as (new & Hlog & Hnew).
      rewrite Hbinding in Hlog. now exists new. }
  unfold verifyAuthorizationBinding in Hbinding.
  apply bind_inv in Hbinding as [(authTo & s0 & Hto & Hbinding)|(e & _ & [=])].
  apply liftRes_inv in Hto as [Hto ->].
  destruct (String.eqb authTo (relay_proxyAddress relay)) eqn:Hsame; [|discriminate].
  apply String.eqb_eq in Hsame. subst authTo. injection Hbinding as <-.
  apply bind_inv in Hrun as [([] & st2 & Himm & Hrun)|(e & Himm & ->)].
  2:{ left. split; [|right; now exists e].
      destruct (Hquiet st1) as (new & Hlog & Hnew). rewrite Himm in Hlog. now exists new. }
  destruct (unwrapSignature sig) as [parsedSignature|] eqn:Hunwrap.
  2:{ left. injection Hrun as <- <-. split; [|left; now split].
      destruct (Hquiet st1) as (new & Hlog & Hnew). rewrite Himm in Hlog. now exists new. }
  apply bind_inv in Hrun as [(parsedSig & s3 & Hparse & Hrun)|(e & Hparse & ->)].
  2:{ left. apply liftRes_inv in Hparse as [_ ->]. split; [|right; now exists e].
      destruct (Hquiet st1) as (new & Hlog & Hnew). rewrite Himm in Hlog. now exists new. }
  apply liftRes_inv in Hparse as [Hparse ->].
  pose proof (checkNonceUnused_never_throws signer paymentRequirements auth st2) as Hnonce.
  apply bind_inv in Hrun as [([] & st3 & Hcheck & Hrun)|(e & Hcheck & ->)].
  2:{ rewrite Hcheck in Hnonce. discriminate. }
  right. exists parsedSignature, parsedSig, st2, st3, (Ok tt).
  apply bind_inv in Hrun as [(response & s4 & Hdeposit & Hrun)|(e & Hdeposit & ->)].
  - injection Hrun as <- <-. now exists (Ok response).
  - now exists (Throw e).
Qed.

(** How the helper as a whole gets to [settleOnRelay]. *)
Lemma settleWithRefundHelper_cases paymentPayload paymentRequirements (st : St W) r st' :
  settleWithRefundHelper paymentPayload paymentRequirements signer st = (r, st') ->
  (extractRefundInfo paymentPayload paymentRequirements = None /\ r = Ok None /\ st' = st) \/
  (exists refundInfo,
     extractRefundInfo paymentPayload paymentRequirements = Some refundInfo /\
     ((exists e, prepareRelay signer refundInfo paymentRequirements st = (Throw e, st') /\
                 r = Throw e) \/
      (prepareRelay signer refundInfo paymentRequirements st = (Ok None, st') /\ r = Ok None) \/
      (exists relay,
         prepareRelay signer refundInfo paymentRequirements st = (Ok (Some relay), st') /\
         payloadParts paymentPayload = None /\ r = Ok None) \/
      (exists relay auth sig st1,
         prepareRelay signer refundInfo paymentRequirements st = (Ok (Some relay), st1) /\
         payloadParts paymentPayload = Some (auth, sig) /\
         settleOnRelay signer paymentRequirements relay auth sig st1 = (r, st')))).
Proof.
  unfold settleWithRefundHelper.
  destruct (extractRefundInfo paymentPayload paymentRequirements) as [refundInfo|].
  2:{ intros [= <- <-]. now left. }
  intros Hrun. right. exists refundInfo. split; [reflexivity|].
  apply bind_inv in Hrun as [(prepared & st1 & Hprep & Hrun)|(e & Hprep & ->)].
  2:{ left. now exists e. }
  destruct prepared as [relay|].
  2:{ injection Hrun as <- <-. right. now left. }
  destruct (payloadParts paymentPayload) as [[auth sig]|].
  2:{ injection Hrun as <- <-. right. right. left. now exists relay. }
  right. right. right. now exists relay, auth, sig, st1.
Qed.




(** A passed registration check is a read that answered [true]. *)
Lemma checkMerchantRegistered_Ok escrowAddress merchantPayout (st st' : St W) :
  checkMerchantRegistered signer escrowAddress merchantPayout st = (Ok tt, st') ->
  exists escrowChecksum merchantChecksum,
    getAddress escrowAddress = Ok escrowChecksum /\
    getAddress merchantPayout = Ok merchantChecksum /\
    readContractWithRetry signer TBoolean
      (mkRead escrowChecksum ESCROW_ABI "registeredMerchants" [merchantChecksum])
      defaultMaxRetries st = (Ok true, st').
Proof.
  unfold checkMerchantRegistered. intros Hrun.
  apply bind_inv in Hrun as [(isRegistered & s1 & Hread & Hrun)|(e & _ & [=])].
  destruct isRegistered; [|discriminate]. injection Hrun as <-.
  unfold tryCatch in Hread.
  match type of Hread with
  | match ?body st with _ => _ end = _ => destruct (body st) as [[b|e] s2] eqn:Hbody
  end; [|discriminate].
  injection Hread as -> ->.
  apply bind_inv in Hbody as [(escrowChecksum & s3 & Hescrow & Hbody)|(e & _ & [=])].
  apply liftRes_inv in Hescrow as [Hescrow ->].
  apply bind_inv in Hbody as [(merchantChecksum & s4 & Hmerchant & Hbody)|(e & _ & [=])].
  apply liftRes_inv in Hmerchant as [Hmerchant ->].
  now exists escrowChecksum, merchantChecksum.
Qed.

(** What a prepared relay went through; the last call was the registration
    read. *)
Lemma prepareRelay_Ok refundInfo paymentRequirements (st : St W) relay st1 :
  prepareRelay signer refundInfo paymentRequirements st = (Ok (Some relay), st1) ->
  exists escrowChecksum merchantChecksum older,
    getAddress (relay_escrowAddress relay) = Ok escrowChecksum /\
    getAddress (relay_merchantPayout relay) = Ok merchantChecksum /\
    log st1 = EvRead (mkRead escrowChecksum ESCROW_ABI "registeredMerchants"
                        [merchantChecksum]) (Ok (VBoolean true))
              :: older ++ log st.
Proof.
  unfold prepareRelay. intros Hrun.
  apply bind_inv in Hrun as [([] & s1 & Hfactory & Hrun)|(e & _ & [=])].
  apply bind_inv in Hrun as [(resolved & s2 & Hresolve & Hrun)|(e & _ & [=])].
  destruct resolved as [relay'|]; [|discriminate].
  apply bind_inv in Hrun as [([] & s3 & Hregistered & Hrun)|(e & _ & [=])].
  injection Hrun as -> ->.
  apply checkMerchantRegistered_Ok in Hregistered
    as (escrowChecksum & merchantChecksum & Hescrow & Hmerchant & Hread).
  apply readContractWithRetry_Ok_log in Hread as (older & Hlog & _).
  destruct (emits_checkFactory signer (fun _ => True) (fun _ _ => I)
              (ri_factoryAddress refundInfo) st) as (new1 & Hlog1 & _).
  rewrite Hfactory in Hlog1. cbn [snd] in Hlog1.
  destruct (emits_resolveRelay signer (fun _ => True) (fun _ _ => I) refundInfo
              paymentRequirements (fun _ _ _ => I) s1) as (new2 & Hlog2 & _).
  rewrite Hresolve in Hlog2. cbn [snd] in Hlog2.
  exists escrowChecksum, merchantChecksum, (older ++ new2 ++ new1).
  split; [exact Hescrow|]. split; [exact Hmerchant|].
  rewrite Hlog, Hlog2, Hlog1. cbn [toRVal]. now rewrite <- !app_assoc.
Qed.

(** X5.  A response is given only for a confirmed deposit: the last two
    calls of the run are an [executeDeposit] transaction sent to the
    normalised [payTo], with the fields of the authorization and the parts
    of the signature, and its receipt with status [success]; the
    authorization names the proxy; the escrow had answered that the merchant
    is registered; and the response carries the transaction hash, the
    network of the requirements and the payer of the authorization. *)
Theorem response_means_confirmed_deposit paymentPayload paymentRequirements
    (st : St W) response st' :
  settleWithRefundHelper paymentPayload paymentRequirements signer st
  = (Ok (Some response), st') ->
  exists auth sig proxyAddress parsedSignature parsedSig fromUser amount validAfter
         validBefore txHash receipt escrowChecksum merchantChecksum earlier,
    payloadParts paymentPayload = Some (auth, sig) /\
    getAddress (req_payTo paymentRequirements) = Ok proxyAddress /\
    getAddress (auth_to auth) = Ok proxyAddress /\
    unwrapSignature sig = Some parsedSignature /\
    parseSignature parsedSignature = Ok parsedSig /\
    getAddress (auth_from auth) = Ok fromUser /\
    BigInt (auth_value auth) = Ok amount /\
    BigInt (auth_validAfter auth) = Ok validAfter /\
    BigInt (auth_validBefore auth) = Ok validBefore /\
    receipt_status receipt = "success" /\
    response = mkSettleResponse true txHash (req_network paymentRequirements)
                 (auth_from auth) /\
    log st' = EvWait txHash (Ok receipt)
              :: EvWrite (mkWrite proxyAddress RELAY_PROXY_ABI "executeDeposit"
                            [AHex fromUser; ABigInt amount; ABigInt validAfter;
                             ABigInt validBefore; AHex (auth_nonce auth);
                             recoveryId parsedSig; AHex (sig_r parsedSig);
                             AHex (sig_s parsedSig)]) (Ok txHash)
              :: earlier ++ log st /\
    In (EvRead (mkRead escrowChecksum ESCROW_ABI "registeredMerchants" [merchantChecksum])
          (Ok (VBoolean true))) earlier.
Proof.
  intros Hrun.
  apply settleWithRefundHelper_cases in Hrun
    as [(_ & [=] & _)|(refundInfo & _ & [(e & _ & [=])|[[_ [=]]|[(relay & _ & _ & [=])|
         (relay & auth & sig & st1 & Hprep & Hparts & Hrun)]]])].
  pose proof (prepareRelay_proxy _ _ _ _ _ _ Hprep) as HpayTo.
  apply prepareRelay_Ok in Hprep
    as (escrowChecksum & merchantChecksum & older & _ & _ & Hlog1).
  apply settleOnRelay_cases in Hrun
    as [[_ [[[=] _]|(e & [=])]]|(parsedSignature & parsedSig & st2 & st3 & checked & r0 &
                              Hto & Himm & Hunwrap & Hparse & Hcheck & Hdeposit & Hr)].
  destruct r0 as [response0|e]; [|discriminate]. injection Hr as ->.
  destruct (emits_verifyProxyImmutables signer (fun _ => True) (fun _ _ => I)
              (relay_proxyAddress relay) paymentRequirements (relay_escrowAddress relay) st1)
    as (new2 & Hlog2 & _).
  rewrite Himm in Hlog2. cbn [snd] in Hlog2.
  destruct (emits_checkNonceUnused signer (fun _ => True) (fun _ _ => I)
              paymentRequirements auth st2) as (new3 & Hlog3 & _).
  rewrite Hcheck in Hlog3. cbn [snd] in Hlog3.
  apply executeDepositLoop_Ok in Hdeposit as (stBefore & new4 & Hlog4 & Hlast).
  apply attemptDeposit_Ok in Hlast
    as (fromUser & amount & validAfter & validBefore & txHash & receipt &
        Hfrom & Hamount & Hafter & Hbefore & Hstatus & -> & Hlog).
  exists auth, sig, (relay_proxyAddress relay), parsedSignature, parsedSig, fromUser,
    amount, validAfter, validBefore, txHash, receipt, escrowChecksum, merchantChecksum,
    (new4 ++ new3 ++ new2 ++
     EvRead (mkRead escrowChecksum ESCROW_ABI "registeredMerchants" [merchantChecksum])
       (Ok (VBoolean true)) :: older).
  repeat split; try assumption.
  - rewrite Hlog, Hlog4, Hlog3, Hlog2, Hlog1. now rewrite <- !app_assoc.
  - apply in_or_app. right. apply in_or_app. right. apply in_or_app. right. now left.
Qed.


Lemma pollDelays_S i n : pollDelays i (S n) = 1000 * (i + 1) :: pollDelays (i + 1) n.
Proof.
  unfold pollDelays. cbn [seq map]. f_equal.
  rewrite <- seq_shift, map_map. apply map_ext. intros k. f_equal. lia.
Qed.

(** The polling loop: [n] polls that saw no code, each but poll number 0
    after its delay, and a last poll. *)
Lemma pollDeployedCode_log proxyAddress remaining :
  forall i code (st : St W) r st',
    0 <= i ->
    pollDeployedCode signer proxyAddress remaining i code st = (r, st') ->
    (remaining = O /\ r = Ok code /\ st' = st) \/
    exists n polls last,
      (n < remaining)%nat /\
      log st' = EvGetCode proxyAddress last :: polls ++ log st /\
      count isGetCode polls = n /\
      sleepsOf polls = (if 0 <? i then [1000 * i] else []) ++ pollDelays i n /\
      Forall (failedPoll proxyAddress) polls /\
      match last with
      | Ok c => r = Ok c /\ (codeExists c = true \/ S n = remaining)
      | Throw e => r = Throw e
      end.
Proof.
  induction remaining as [|k IH]; intros i code st r st' Hi; cbn [pollDeployedCode].
  - intros [= <- <-]. now left.
  - intros Hrun. right.
    set (before := if 0 <? i then [EvSleep (1000 * i)] else []).
    assert (exists s1 : St W,
              (if 0 <? i then sleep (1000 * i) else ret tt) st = (Ok tt, s1) /\
              log s1 = before ++ log st) as (s1 & Hsleep & Hlog1).
    { unfold before. destruct (0 <? i); eexists; split; reflexivity. }
    assert (sleepsOf before = if 0 <? i then [1000 * i] else []) as Hsleeps.
    { unfold before. now destruct (0 <? i). }
    assert (count isGetCode before = 0%nat) as Hcount.
    { unfold before. now destruct (0 <? i). }
    assert (Forall (failedPoll proxyAddress) before) as Hfailed.
    { unfold before. destruct (0 <? i); [|constructor].
      constructor; [|constructor]. now left. }
    clearbody before.
    rewrite (bind_Ok _ _ _ _ _ Hsleep) in Hrun.
    apply bind_inv in Hrun as [(c & s2 & Hcode & Hrun)|(e & Hcode & ->)].
    + unfold callGetCode in Hcode.
      destruct (getCode signer proxyAddress (world s1)) as [rc w2] eqn:Hget.
      injection Hcode as -> <-.
      destruct (codeExists c) eqn:Hexists.
      * injection Hrun as <- <-. exists 0%nat, before, (Ok c). cbn [log].
        rewrite Hlog1, Hsleeps, app_nil_r.
        repeat split; try easy; try lia. now left.
      * apply IH in Hrun; [|lia].
        destruct Hrun as [(-> & -> & ->)|(n & polls & last & Hn & Hlog & Hcnt & Hsl & Hf & Hlast)].
        -- exists 0%nat, before, (Ok c). cbn [log].
           rewrite Hlog1, Hsleeps, app_nil_r. repeat split; try easy; try lia.
        -- exists (S n), (polls ++ EvGetCode proxyAddress (Ok c) :: before), last.
           cbn [log] in Hlog. rewrite Hlog1 in Hlog.
           split; [lia|]. split; [rewrite Hlog; now rewrite <- app_assoc|].
           split; [rewrite count_app; unfold count in *; cbn; rewrite Hcnt; lia|].
           split.
           { rewrite sleepsOf_app. cbn [sleepsOf]. rewrite Hsleeps, Hsl, pollDelays_S.
             replace (0 <? i + 1) with true by (symmetry; apply Z.ltb_lt; lia).
             reflexivity. }
           split.
           { apply Forall_app. split; [exact Hf|]. constructor; [|exact Hfailed].
             right. now exists c. }
           destruct last as [c'|e]; [|exact Hlast].
           destruct Hlast as [-> Hlast]. split; [reflexivity|]. destruct Hlast; [now left|right; lia].
    + unfold callGetCode in Hcode.
      destruct (getCode signer proxyAddress (world s1)) as [rc w2] eqn:Hget.
      injection Hcode as -> <-.
      exists 0%nat, before, (Throw e). cbn [log].
      rewrite Hlog1, Hsleeps, app_nil_r. repeat split; try easy; lia.
Qed.

(** X7.  Polling for the code of the new relay: five [getCode] calls at the
    proxy address at most; no delay before the first, and delays of 1 s,
    2 s, 3 s and 4 s before the following ones, 10 s in all at most; the
    polling stops at the first answer with code, or at a failure, which it
    throws; after five answers without code it gives the last answer. *)
Theorem code_polling_policy proxyAddress (st : St W) r st' :
  pollDeployedCode signer proxyAddress 5 0 None st = (r, st') ->
  exists n polls last,
    (n < 5)%nat /\
    log st' = EvGetCode proxyAddress last :: polls ++ log st /\
    count isGetCode polls = n /\
    sleepsOf polls = map (fun k => 1000 * Z.of_nat k) (seq 1 n) /\
    totalDelay polls <= 10000 /\
    Forall (failedPoll proxyAddress) polls /\
    match last with
    | Ok code => r = Ok code /\ (codeExists code = true \/ n = 4%nat)
    | Throw e => r = Throw e
    end.
Proof.
  intros Hrun.
  apply pollDeployedCode_log in Hrun; [|lia].
  destruct Hrun as [([=] & _)|(n & polls & last & Hn & Hlog & Hcnt & Hsl & Hf & Hlast)].
  exists n, polls, last. repeat split; try assumption.
  { unfold totalDelay. rewrite Hsl.
    do 5 (destruct n as [|n]; [vm_compute; discriminate|]). lia. }
  destruct last as [c|e]; [|exact Hlast]. destruct Hlast as [-> [Hc|Hn']].
  - split; [reflexivity|now left].
  - split; [reflexivity|right; lia].
Qed.


Lemma startsWith_app_l p : forall s t,
  Js.startsWith s p = true -> Js.startsWith (s +:+ t) p = true.
Proof.
  induction p as [|c p IH]; intros s t; [intros _; now destruct (s +:+ t)|].
  destruct s as [|d s]; cbn; [discriminate|].
  rewrite string_app_cons. cbn. destruct (Ascii.eqb c d); [apply IH|discriminate].
Qed.

(** The [catch] clause of the deployment always throws, under the heading of
    the deployment. *)
Lemma deployFailure_throws {A} e (st : St W) :
  exists msg,
    deployFailure (A:=A) signer e st = (Throw (Error msg), st) /\
    Js.startsWith msg "Failed to deploy relay: " = true.
Proof.
  unfold deployFailure. destruct (insufficientFunds _).
  - unfold bind, firstAddress, throw. eexists. split; [reflexivity|].
    now apply startsWith_app_l.
  - eexists. split; [reflexivity|]. apply startsWith_app.
Qed.

Lemma readContractWithRetry_Ok_quiet T args maxRetries (st : St W) v st' :
  readContractWithRetry signer T args maxRetries st = (Ok v, st') ->
  exists older,
    log st' = EvRead args (Ok (toRVal v)) :: older ++ log st /\
    Forall (fun e => isWrite e = false) older.
Proof.
  intros Hrun.
  destruct (emits_readContractWithRetry signer _ T args maxRetries readOnly_not_write st)
    as (new & Hlog & Hnew).
  rewrite Hrun in Hlog. cbn [snd] in Hlog.
  apply readContractWithRetry_Ok_log in Hrun as (older & Hlog' & _).
  exists older. split; [exact Hlog'|].
  rewrite Hlog' in Hlog. change (EvRead args (Ok (toRVal v)) :: older ++ log st)
    with ((EvRead args (Ok (toRVal v)) :: older) ++ log st) in Hlog.
  apply app_inv_tail in Hlog. subst new. now apply Forall_cons in Hnew as [_ Hnew].
Qed.

Lemma failedPoll_quiet proxyAddress e : failedPoll proxyAddress e -> isWrite e = false.
Proof. intros [Hs|(c & -> & _)]; [now destruct e|reflexivity]. Qed.

(** X8.  The deployment on demand either throws an [Error] whose message
    begins with [Failed to deploy relay: ], or returns the escrow after, in
    this order: a [getRelayAddress] read whose answer is the proxy address
    up to letter case, the [deployRelay] transaction sent to the factory for
    the merchant, its receipt with status [success], a [getCode] at the
    proxy address that shows code, and the [ESCROW] read of the proxy that
    gave the escrow; the calls in between send no transaction. *)
Theorem deployRelay_outcome factory merchantPayout proxyAddress (st : St W) r st' :
  deployRelay signer factory merchantPayout proxyAddress st = (r, st') ->
  match r with
  | Throw e =>
      exists msg, e = Error msg /\ Js.startsWith msg "Failed to deploy relay: " = true
  | Ok escrowAddress =>
      exists factoryChecksum merchantChecksum expectedAddress txHash receipt code
             reads1 polls reads3,
        getAddress factory = Ok factoryChecksum /\
        getAddress merchantPayout = Ok merchantChecksum /\
        Js.toLowerCase expectedAddress = Js.toLowerCase proxyAddress /\
        receipt_status receipt = "success" /\
        codeExists code = true /\
        log st' =
          EvRead (mkRead proxyAddress RELAY_PROXY_ABI "ESCROW" [])
            (Ok (VString escrowAddress)) :: reads3 ++
          EvGetCode proxyAddress (Ok code) :: polls ++
          EvWait txHash (Ok receipt) ::
          EvWrite (mkWrite factoryChecksum FACTORY_ABI "deployRelay" [AHex merchantChecksum])
            (Ok txHash) ::
          EvRead (mkRead factoryChecksum FACTORY_ABI "getRelayAddress" [merchantChecksum])
            (Ok (VString expectedAddress)) :: reads1 ++ log st /\
        Forall (fun e => isWrite e = false) (reads3 ++ polls ++ reads1)
  end.
Proof.
  unfold deployRelay, tryCatch.
  match goal with |- context [match ?body st with _ => _ end] =>
    destruct (body st) as [[escrowAddress|e] s0] eqn:Hbody end.
  2:{ destruct (deployFailure_throws (A:=denote TString) e s0) as (msg & Hfail & Hmsg).
      rewrite Hfail. intros [= <- <-]. now exists msg. }
  intros [= <- <-].
  apply bind_inv in Hbody as [(factoryChecksum & s1 & Hf & Hbody)|(e & _ & [=])].
  apply liftRes_inv in Hf as [Hf ->].
  apply bind_inv in Hbody as [(merchantChecksum & s2 & Hm & Hbody)|(e & _ & [=])].
  apply liftRes_inv in Hm as [Hm ->].
  apply bind_inv in Hbody as [(expectedAddress & s3 & Hexp & Hbody)|(e & _ & [=])].
  apply readContractWithRetry_Ok_quiet in Hexp as (reads1 & Hlog1 & Hq1).
  destruct (String.eqb (Js.toLowerCase expectedAddress) (Js.toLowerCase proxyAddress))
    eqn:Hsame; [|discriminate].
  apply String.eqb_eq in Hsame. cbn [negb] in Hbody.
  apply bind_inv in Hbody as [(txHash & s4 & Hwrite & Hbody)|(e & _ & [=])].
  apply bind_inv in Hbody as [(receipt & s5 & Hwait & Hbody)|(e & _ & [=])].
  destruct (String.eqb (receipt_status receipt) "success") eqn:Hstatus; [|discriminate].
  apply String.eqb_eq in Hstatus. cbn [negb] in Hbody.
  apply bind_inv in Hbody as [(deployedCode & s6 & Hpoll & Hbody)|(e & _ & [=])].
  destruct (codeExists deployedCode) eqn:Hexists; cbn [negb] in Hbody.
  2:{ apply bind_inv in Hbody as [(actual & s7 & _ & [=])|(e & _ & [=])]. }
  apply readContractWithRetry_Ok_quiet in Hbody as (reads3 & Hlog3 & Hq3).
  apply pollDeployedCode_log in Hpoll; [|lia].
  destruct Hpoll as [([=] & _)|(n & polls & last & _ & Hlog2 & _ & _ & Hq2 & Hlast)].
  destruct last as [c|e]; [|discriminate]. destruct Hlast as [[= <-] _].
  unfold callWaitForTransactionReceipt in Hwait.
  destruct (waitForTransactionReceipt signer txHash (world s4)) as [rw w5].
  injection Hwait as -> <-.
  unfold callWriteContract in Hwrite.
  destruct (writeContract signer _ (world s3)) as [rt w4].
  injection Hwrite as -> <-. cbn [log] in Hlog2.
  exists factoryChecksum, merchantChecksum, expectedAddress, txHash, receipt,
    deployedCode, reads1, polls, reads3.
  repeat split; try easy.
  - cbn [toRVal] in *. rewrite Hlog3, Hlog2, Hlog1. reflexivity.
  - apply Forall_app. split; [exact Hq3|]. apply Forall_app. split; [|exact Hq1].
    eapply Forall_impl; [exact Hq2|]. apply failedPoll_quiet.
Qed.

(** *** Counting transactions *)

Lemma sends_quiet {A} (p : Event -> bool) (m : M W A) :
  emits (fun e => p e = false) m -> sends p 0 m.
Proof.
  intros Hm st. destruct (Hm st) as (new & Hlog & Hnew). exists new. split; [exact Hlog|].
  unfold count. clear Hlog. induction Hnew as [|e l He _ IH]; [cbn; lia|].
  cbn. now rewrite He.
Qed.

Lemma sends_weaken {A} (p : Event -> bool) n n' (m : M W A) :
  (n <= n')%nat -> sends p n m -> sends p n' m.
Proof.
  intros Hle Hm st. destruct (Hm st) as (new & Hlog & Hnew). exists new. split; [exact Hlog|lia].
Qed.

Lemma sends_ret {A} (p : Event -> bool) (a : A) : sends (W:=W) p 0 (ret a).
Proof. intros st. exists []. split; [reflexivity|cbn; lia]. Qed.

Lemma sends_throw {A} (p : Event -> bool) e : sends (W:=W) (A:=A) p 0 (throw e).
Proof. intros st. exists []. split; [reflexivity|cbn; lia]. Qed.

Lemma sends_bind {A B} (p : Event -> bool) a b (m : M W A) (k : A -> M W B) :
  sends p a m -> (forall x, sends p b (k x)) -> sends p (a + b) (bind m k).
Proof.
  intros Hm Hk st. unfold bind. destruct (Hm st) as (new1 & Hlog1 & Hnew1).
  destruct (m st) as [[x|e] st1]; cbn [snd] in *.
  - destruct (Hk x st1) as (new2 & Hlog2 & Hnew2). exists (new2 ++ new1). split.
    + rewrite Hlog2, Hlog1. apply app_assoc.
    + rewrite count_app. lia.
  - exists new1. split; [exact Hlog1|lia].
Qed.

Lemma sends_tryCatch {A} (p : Event -> bool) a b (m : M W A) (h : Thrown -> M W A) :
  sends p a m -> (forall e, sends p b (h e)) -> sends p (a + b) (tryCatch m h).
Proof.
  intros Hm Hh st. unfold tryCatch. destruct (Hm st) as (new1 & Hlog1 & Hnew1).
  destruct (m st) as [[x|e] st1]; cbn [snd] in *.
  - exists new1. split; [exact Hlog1|lia].
  - destruct (Hh e st1) as (new2 & Hlog2 & Hnew2). exists (new2 ++ new1). split.
    + rewrite Hlog2, Hlog1. apply app_assoc.
    + rewrite count_app. lia.
Qed.

Lemma sends_callWriteContract (p : Event -> bool) args :
  sends p 1 (callWriteContract signer args).
Proof.
  intros st. unfold callWriteContract. destruct (writeContract signer args (world st)) as [r w].
  exists [EvWrite args r]. split; [reflexivity|]. unfold count. cbn. destruct (p _); cbn; lia.
Qed.

Lemma readOnly_no (name : string) : readOnly (fun e => isWriteOf name e = false).
Proof. intros [] Hw; try reflexivity. discriminate. Qed.

Lemma sends_deployRelay factory merchantPayout proxyAddress :
  sends (isWriteOf "deployRelay") 1 (deployRelay signer factory merchantPayout proxyAddress).
Proof.
  set (p := isWriteOf "deployRelay").
  pose proof (readOnly_no "deployRelay") as HP.
  unfold deployRelay. apply (sends_tryCatch p 1 0).
  2:{ intros e. apply sends_quiet, emits_deployFailure. }
  apply (sends_bind p 0 1); [apply sends_quiet; emits_auto|intros factoryChecksum].
  apply (sends_bind p 0 1); [apply sends_quiet; emits_auto|intros merchantChecksum].
  apply (sends_bind p 0 1); [apply sends_quiet; emits_auto|intros expectedAddress].
  destruct (negb _); [apply (sends_weaken p 0); [lia|apply sends_throw]|].
  apply (sends_bind p 1 0); [apply sends_callWriteContract|intros txHash].
  apply sends_quiet. emits_auto. now apply emits_pollDeployedCode.
Qed.

Lemma sends_resolveRelay refundInfo paymentRequirements :
  sends (isWriteOf "deployRelay") 1 (resolveRelay signer refundInfo paymentRequirements).
Proof.
  set (p := isWriteOf "deployRelay").
  pose proof (readOnly_no "deployRelay") as HP.
  unfold resolveRelay.
  apply (sends_bind p 0 1); [apply sends_quiet; emits_auto|intros proxyAddress].
  apply (sends_bind p 0 1); [apply sends_quiet; emits_auto|intros relayCode].
  destruct (codeExists relayCode).
  - apply (sends_weaken p 0); [lia|]. apply sends_quiet. emits_auto.
    now apply emits_readDeployedRelay.
  - destruct (lookupMerchantPayout _ _) as [merchantPayout|];
      [|apply (sends_weaken p 0); [lia|apply sends_ret]].
    destruct (noMerchant _); [apply (sends_weaken p 0); [lia|apply sends_ret]|].
    apply (sends_bind p 1 0); [apply sends_deployRelay|intros escrowAddress].
    apply sends_quiet. emits_auto.
Qed.

Lemma sends_deploy_once paymentPayload paymentRequirements :
  sends (isWriteOf "deployRelay") 1
    (settleWithRefundHelper paymentPayload paymentRequirements signer).
Proof.
  set (p := isWriteOf "deployRelay").
  pose proof (readOnly_no "deployRelay") as HP.
  unfold settleWithRefundHelper.
  destruct (extractRefundInfo _ _) as [refundInfo|];
    [|apply (sends_weaken p 0); [lia|apply sends_ret]].
  apply (sends_bind p 1 0).
  - unfold prepareRelay.
    apply (sends_bind p 0 1); [apply sends_quiet; now apply emits_checkFactory|intros _].
    apply (sends_bind p 1 0); [apply sends_resolveRelay|intros resolved].
    apply sends_quiet. emits_auto. now apply emits_checkMerchantRegistered.
  - intros prepared. apply sends_quiet. emits_auto.
    apply emits_settleOnRelay; [exact HP|]. intros ? ? Hname. cbn. now rewrite Hname.
Qed.

Lemma sends_executeDeposit proxyAddress paymentRequirements auth parsedSig :
  sends (isWriteOf "executeDeposit") 6
    (executeDeposit signer proxyAddress paymentRequirements auth parsedSig).
Proof.
  intros st. unfold executeDeposit.
  destruct (executeDepositLoop signer proxyAddress paymentRequirements auth parsedSig
              depositMaxRetries 0 st) as [r st'] eqn:Hrun.
  apply executeDepositLoop_log in Hrun as (new & n & Hlog & Hn & _ & Hcount & _).
  exists new. split; [exact Hlog|]. unfold depositMaxRetries in Hn. lia.
Qed.

Lemma sends_deposit_six paymentPayload paymentRequirements :
  sends (isWriteOf "executeDeposit") 6
    (settleWithRefundHelper paymentPayload paymentRequirements signer).
Proof.
  set (p := isWriteOf "executeDeposit").
  pose proof (readOnly_no "executeDeposit") as HP.
  unfold settleWithRefundHelper.
  destruct (extractRefundInfo _ _) as [refundInfo|];
    [|apply (sends_weaken p 0); [lia|apply sends_ret]].
  apply (sends_bind p 0 6).
  { apply sends_quiet. apply emits_prepareRelay; [exact HP|]. exact deploy_not_deposit. }
  intros [relay|]; [|apply (sends_weaken p 0); [lia|apply sends_ret]].
  destruct (payloadParts _) as [[auth sig]|]; [|apply (sends_weaken p 0); [lia|apply sends_ret]].
  unfold settleOnRelay.
  apply (sends_bind p 0 6);
    [apply sends_quiet; apply emits_verifyAuthorizationBinding|intros _].
  apply (sends_bind p 0 6);
    [apply sends_quiet; now apply emits_verifyProxyImmutables|intros _].
  destruct (unwrapSignature sig) as [parsedSignature|];
    [|apply (sends_weaken p 0); [lia|apply sends_ret]].
  apply (sends_bind p 0 6); [apply sends_quiet; emits_auto|intros parsedSig].
  apply (sends_bind p 0 6); [apply sends_quiet; now apply emits_checkNonceUnused|intros _].
  apply (sends_bind p 6 0); [apply sends_executeDeposit|intros response].
  apply sends_ret.
Qed.

Lemma count_knownTransactions events :
  Forall knownTransaction events ->
  count isWrite events
  = (count (isWriteOf "deployRelay") events + count (isWriteOf "executeDeposit") events)%nat.
Proof.
  unfold count. induction 1 as [|e l He _ IH]; [reflexivity|].
  cbn [List.filter]. destruct e as [| |a r| |]; try exact IH.
  destruct He as [He|He]; [discriminate|]. cbn [isWrite isWriteOf] in *.
  destruct (String.eqb_spec (w_functionName a) "deployRelay") as [->|Hd].
  - cbn. lia.
  - destruct He as [He|He]; [discriminate|]. rewrite He. cbn. lia.
Qed.

(** X9.  In one run the helper sends one [deployRelay] transaction at most
    and six [executeDeposit] transactions at most, and no other
    transaction. *)
Theorem transaction_budget paymentPayload paymentRequirements (w : W) :
  let events :=
    log (snd (run (settleWithRefundHelper paymentPayload paymentRequirements signer) w)) in
  (count (isWriteOf "deployRelay") events <= 1)%nat /\
  (count (isWriteOf "executeDeposit") events <= 6)%nat /\
  count isWrite events
  = (count (isWriteOf "deployRelay") events + count (isWriteOf "executeDeposit") events)%nat.
Proof.
  unfold run. cbn zeta.
  destruct (sends_deploy_once paymentPayload paymentRequirements (mkSt w []))
    as (new1 & Hlog1 & Hnew1).
  destruct (sends_deposit_six paymentPayload paymentRequirements (mkSt w []))
    as (new2 & Hlog2 & Hnew2).
  assert (emits knownTransaction
            (settleWithRefundHelper paymentPayload paymentRequirements signer)) as Hkinds.
  { assert (readOnly knownTransaction) as HP by (intros e He; now left).
    unfold settleWithRefundHelper. emits_auto.
    - apply emits_prepareRelay; [exact HP|]. intros ? ? Hname. right. left. cbn.
      now rewrite Hname.
    - apply emits_settleOnRelay; [exact HP|]. intros ? ? Hname. right. right. cbn.
      now rewrite Hname. }
  destruct (Hkinds (mkSt w [])) as (new3 & Hlog3 & Hnew3).
  cbn [log] in *. rewrite app_nil_r in *. rewrite Hlog1 in *. subst new2 new3.
  repeat split; [exact Hnew1|exact Hnew2|]. now apply count_knownTransactions.
Qed.

End Outcomes.

(** ** The revert reason *)

Section Classification.

(** X10.  A non-empty [cause.reason], when the cause has no [data], is the
    revert reason whatever [shortMessage] says; the error thrown is
    [Contract reverted: ] and the reason, unless the reason is
    [execution reverted], for which the message without a reason is built,
    also when [shortMessage] has more to say. *)
Theorem revert_reason_of_cause_comes_first instanceOfError status message details
    reason0 shortMessage causeIsError causeStatus causeMessage causeDetails reason
    causeShort causeCause :
  reason <> "" ->
  let error :=
    TObj instanceOfError status message details reason0 None shortMessage
      (Some (TObj causeIsError causeStatus causeMessage causeDetails (Some reason) None
               causeShort causeCause)) in
  extractRevertReason error = Some reason /\
  classifyExecutionError error
  = Error ("Failed to execute proxy.executeDeposit: " +:+
           (if String.eqb reason "execution reverted"
            then noReasonMessage (errorText error)
            else "Contract reverted: " +:+ reason)).
Proof.
  intros Hne error.
  assert (extractRevertReason error = Some reason) as Hreason.
  { unfold error, extractRevertReason. destruct shortMessage as [sm|]; [|reflexivity].
    unfold Js.falsy. now rewrite (string_eqb_false _ _ Hne). }
  split; [exact Hreason|]. unfold classifyExecutionError. rewrite Hreason.
  now rewrite (string_eqb_false _ _ Hne).
Qed.

Lemma matchReverted_execution rest :
  matchReverted ("execution reverted: " +:+ rest) = captureReason (Some " "%char) rest.
Proof.
  rewrite !string_app_cons, string_app_nil_l. cbn.
  destruct (captureReason (Some " "%char) rest) eqn:Hc; [reflexivity|].
  exfalso. revert Hc. generalize " "%char. clear.
  induction rest as [|c t IH]; intros prev; cbn [captureReason fmap option_fmap option_map];
    [discriminate|].
  destruct (isSeparator c); [apply IH|].
  destruct (atLineTerminator (String c t)); discriminate.
Qed.

(** X11.  An error without a cause whose [shortMessage] is
    [execution reverted: ] followed by a text that begins with neither a
    colon, a space nor a line terminator (LF, CR, U+2028, U+2029): the
    revert reason is that text up to its first line terminator, with the
    white space of [String.prototype.trim] taken off both ends. *)
Theorem revert_reason_of_short_message instanceOfError status message details reason0
    data c rest :
  isSeparator c = false ->
  atLineTerminator (String c rest) = false ->
  let error :=
    TObj instanceOfError status message details reason0 data
      (Some ("execution reverted: " +:+ String c rest)) None in
  let reason := Js.trim (restOfLine (String c rest)) in
  classifyExecutionError error
  = Error ("Failed to execute proxy.executeDeposit: " +:+
           (if String.eqb reason "" || String.eqb reason "execution reverted"
            then noReasonMessage (errorText error)
            else "Contract reverted: " +:+ reason)).
Proof.
  intros Hsep Hline error reason.
  assert (extractRevertReason error = Some reason) as Hreason.
  { unfold error, extractRevertReason. cbn [Js.falsy andb].
    replace (Js.includes ("execution reverted: " +:+ String c rest) "reverted") with true.
    2:{ symmetry.
        change ("execution reverted: " +:+ String c rest)
          with ("execution " +:+ "reverted" +:+ (": " +:+ String c rest)).
        apply includes_middle. }
    rewrite matchReverted_execution. cbn [captureReason]. now rewrite Hsep, Hline. }
  unfold classifyExecutionError. now rewrite Hreason.
Qed.

End Classification.

(** ** Marking and processing routes *)

Section Marking.

Context `{Viem}.

(** X12.  [refundable] marks: the marked option is recognised by
    [isRefundableOption]; its scheme, [payTo], price and network are those
    of the option, and so are the other entries of [extra]; marking twice is
    marking once. *)
Theorem refundable_marks_option o :
  isRefundableOption (refundable o) = true /\
  opt_scheme (refundable o) = opt_scheme o /\
  opt_payTo (refundable o) = opt_payTo o /\
  opt_price (refundable o) = opt_price o /\
  opt_network (refundable o) = opt_network o /\
  (forall key, key <> REFUND_MARKER_KEY ->
     opt_extra (refundable o) ≫= (fun extra => extra !! key)
     = opt_extra o ≫= (fun extra => extra !! key)) /\
  refundable (refundable o) = refundable o.
Proof.
  unfold refundable, isRefundableOption. cbn [opt_extra opt_scheme opt_payTo opt_price
    opt_network default mbind option_bind].
  rewrite lookup_insert_eq. repeat split.
  - intros key Hne. rewrite lookup_insert_ne by (intros Heq; now apply Hne).
    destruct (opt_extra o); [reflexivity|]. cbn. apply lookup_empty.
  - unfold id. now rewrite insert_insert_eq.
Qed.

Lemma mapRes_list_Forall2 {A B} (f : A -> Res B) (l : list A) l' :
  mapRes_list f l = Ok l' -> Forall2 (fun a b => f a = Ok b) l l'.
Proof.
  revert l'. induction l as [|x l IH]; intros l' Hmap; cbn [mapRes_list] in Hmap.
  - injection Hmap as <-. constructor.
  - unfold rbind in Hmap. destruct (f x) as [b|e] eqn:Hfx; [|discriminate].
    destruct (mapRes_list f l) as [bs|e] eqn:Hfl; [|discriminate].
    injection Hmap as <-. constructor; [exact Hfx|]. now apply IH.
Qed.


Lemma mapRes_list_Throw {A B} (f : A -> Res B) (l : list A) e :
  Forall (fun a => (exists b, f a = Ok b) \/ f a = Throw e) l ->
  Exists (fun a => f a = Throw e) l ->
  mapRes_list f l = Throw e.
Proof.
  induction 1 as [|x l Hx Hl IH]; intros Hex; [now apply Exists_nil in Hex|].
  cbn [mapRes_list]. unfold rbind. destruct Hx as [[b Hb]|Hx]; [|now rewrite Hx].
  rewrite Hb. apply Exists_cons in Hex as [Hex|Hex]; [congruence|].
  now rewrite (IH Hex).
Qed.

(** The route an option comes out of [processPaymentOption] as. *)
Lemma processPaymentOption_Ok o factory createxAddress o' :
  processPaymentOption o factory createxAddress = Ok o' ->
  opt_scheme o' = opt_scheme o /\ opt_price o' = opt_price o /\
  opt_network o' = opt_network o /\
  isRefundableOption o' = false /\
  (isRefundableOption o = false ->
     opt_payTo o' = opt_payTo o /\ opt_extra o' = Some (default ∅ (opt_extra o))) /\
  (isRefundableOption o = true ->
     opt_extra o' = Some (delete REFUND_MARKER_KEY (default ∅ (opt_extra o)))).
Proof.
  unfold processPaymentOption. destruct (isRefundableOption o) eqn:Href.
  - destruct (opt_payTo o) as [merchantPayout|]; [|discriminate]. unfold rbind.
    destruct (computeRelayAddress _ _ _) as [proxyAddress|e]; [|discriminate].
    intros [= <-]. cbn. repeat split; try easy.
    unfold isRefundableOption. cbn. now rewrite lookup_delete_eq.
  - intros [= <-]. cbn. repeat split; try easy.
    unfold isRefundableOption in *. cbn. destruct (opt_extra o) as [extra|]; [exact Href|].
    cbn. now rewrite lookup_empty.
Qed.


Lemma processAccepts_Forall2 a factory createxAddress a' :
  processAccepts a factory createxAddress = Ok a' ->
  Forall2 (fun o o' => processPaymentOption o factory createxAddress = Ok o')
    (optionsOf a) (optionsOf a') /\
  match a, a' with
  | OneOption _, OneOption _ | ManyOptions _, ManyOptions _ => True
  | _, _ => False
  end.
Proof.
  unfold processAccepts, rbind. destruct a as [o|l].
  - destruct (processPaymentOption o _ _) as [o'|e] eqn:Ho; [|discriminate].
    intros [= <-]. split; [|exact I]. cbn. constructor; [exact Ho|constructor].
  - destruct (mapRes_list _ l) as [l'|e] eqn:Hl; [|discriminate].
    intros [= <-]. split; [|exact I]. cbn. now apply mapRes_list_Forall2.
Qed.


(** What a successful [processRouteConfig] went through. *)
Lemma processRouteConfig_Ok config factory createxAddress config' :
  processRouteConfig config factory createxAddress = Ok config' ->
  let net := head (optionsOf (accepts config)) ≫= opt_network in
  exists createx,
    Js.falsy net = false /\
    getCreateXAddress (default "" net) createxAddress = Ok createx /\
    processAccepts (accepts config) factory createx = Ok (accepts config') /\
    route_description config' = route_description config /\
    ((existsb isRefundableOption (optionsOf (accepts config)) = false /\
      route_extensions config' = Some (default ∅ (route_extensions config))) \/
     (existsb isRefundableOption (optionsOf (accepts config)) = true /\
      exists payouts,
        payouts <> ∅ /\
        route_extensions config'
        = Some (declareRefundExtension factory payouts ∪ default ∅ (route_extensions config)))).
Proof.
  intros Hrun net. unfold processRouteConfig in Hrun. fold net in Hrun.
  destruct (Js.falsy net) eqn:Hnet; [discriminate|]. unfold rbind at 1 in Hrun.
  destruct (getCreateXAddress _ _) as [createx|e] eqn:Hcreatex; [|discriminate].
  exists createx. split; [reflexivity|]. split; [reflexivity|].
  unfold rbind at 1 in Hrun.
  match type of Hrun with
  | match ?collected with _ => _ end = _ => destruct collected as [payouts|e] eqn:Hcollect
  end; [|discriminate].
  unfold rbind at 1 in Hrun. fold (processAccepts (accepts config) factory createx) in Hrun.
  destruct (processAccepts (accepts config) factory createx) as [accepts'|e] eqn:Haccepts;
    [|discriminate].
  destruct (existsb isRefundableOption (optionsOf (accepts config))) eqn:Hhas.
  - destruct (bool_decide (payouts = ∅)) eqn:Hempty; cbn [negb andb] in Hrun; [discriminate|].
    injection Hrun as <-. cbn. repeat split. right. split; [reflexivity|].
    exists payouts. split; [|reflexivity]. now apply bool_decide_eq_false in Hempty.
  - cbn [andb] in Hrun. injection Hrun as <-. cbn. repeat split. now left.
Qed.

(** X13.  What [processRouteConfig] keeps: the description, the number of
    options and whether [accepts] is one option or an array; for each
    option its scheme, price and network; for an option that is not
    refundable also its [payTo] and the entries of its [extra]; for a
    refundable one the entries of [extra] but the marker.  No option of the
    result is refundable.  The extensions of the route are kept, except
    under the key of the refund extension; a route without a refundable
    option gets no refund extension. *)
Theorem processed_route_keeps_the_rest config factory createxAddress config' :
  processRouteConfig config factory createxAddress = Ok config' ->
  route_description config' = route_description config /\
  length (optionsOf (accepts config')) = length (optionsOf (accepts config)) /\
  match accepts config, accepts config' with
  | OneOption _, OneOption _ | ManyOptions _, ManyOptions _ => True
  | _, _ => False
  end /\
  (forall i o,
     optionsOf (accepts config) !! i = Some o ->
     exists o',
       optionsOf (accepts config') !! i = Some o' /\
       opt_scheme o' = opt_scheme o /\ opt_price o' = opt_price o /\
       opt_network o' = opt_network o /\
       isRefundableOption o' = false /\
       (isRefundableOption o = false ->
          opt_payTo o' = opt_payTo o /\ opt_extra o' = Some (default ∅ (opt_extra o))) /\
       (isRefundableOption o = true ->
          opt_extra o' = Some (delete REFUND_MARKER_KEY (default ∅ (opt_extra o))))) /\
  (forall key,
     key <> REFUND_EXTENSION_KEY ->
     route_extensions config' ≫= (fun e => e !! key)
     = route_extensions config ≫= (fun e => e !! key)) /\
  (existsb isRefundableOption (optionsOf (accepts config)) = false ->
   route_extensions config' = Some (default ∅ (route_extensions config))).
Proof.
  intros Hrun.
  apply processRouteConfig_Ok in Hrun as (createx & _ & _ & Haccepts & Hdescr & Hext).
  apply processAccepts_Forall2 in Haccepts as [Hall Hshape].
  split; [exact Hdescr|]. split; [symmetry; exact (Forall2_length _ _ _ Hall)|].
  split; [exact Hshape|]. split; [|split].
  - intros i o Hi. destruct (Forall2_lookup_l _ _ _ _ _ Hall Hi) as (o' & Hi' & Ho').
    exists o'. split; [exact Hi'|]. exact (processPaymentOption_Ok _ _ _ _ Ho').
  - intros key Hkey.
    assert ((default ∅ (route_extensions config) : gmap string RefundExtension) !! key
            = route_extensions config ≫= (fun e => e !! key)) as Hsame.
    { destruct (route_extensions config); [reflexivity|apply lookup_empty]. }
    destruct Hext as [[_ ->]|(_ & payouts & _ & ->)]; cbn [mbind option_bind].
    + exact Hsame.
    + rewrite <- Hsame. unfold declareRefundExtension.
      destruct ((default ∅ (route_extensions config) : gmap string RefundExtension) !! key)
        as [v|] eqn:Hv.
      * apply lookup_union_Some_raw. right. split; [|exact Hv].
        apply lookup_singleton_ne. intros Heq. now apply Hkey.
      * apply lookup_union_None. split; [|exact Hv].
        apply lookup_singleton_ne. intros Heq. now apply Hkey.
  - intros Hnone. destruct Hext as [[_ ->]|(Hhas & _)]; [reflexivity|congruence].
Qed.








Lemma collectMerchantPayouts_Ok factory createxAddress options :
  forall acc,
    (forall o merchantPayout,
       o ∈ options -> opt_payTo o = StaticPayTo merchantPayout ->
       exists proxyAddress,
         computeRelayAddress createxAddress factory merchantPayout = Ok proxyAddress) ->
    exists payouts, collectMerchantPayouts options factory createxAddress acc = Ok payouts.
Proof.
  induction options as [|o options IH]; intros acc Hall; cbn [collectMerchantPayouts].
  - now exists acc.
  - assert (forall o' m, o' ∈ options -> opt_payTo o' = StaticPayTo m ->
              exists p, computeRelayAddress createxAddress factory m = Ok p) as Hrest.
    { intros o' m Ho'. apply Hall. apply elem_of_cons. now right. }
    destruct (opt_payTo o) as [merchantPayout|] eqn:HpayTo; [|now apply IH].
    destruct (Hall o merchantPayout) as [proxyAddress Hproxy];
      [apply elem_of_cons; now left|exact HpayTo|].
    unfold rbind. rewrite Hproxy. now apply IH.
Qed.

(** X16.  A route with a refundable option whose [payTo] is a function is
    never processed.  When the network and the CreateX address are found
    and the relay addresses of the refundable options with a string [payTo]
    can be computed, the error is the one of [processPaymentOption],
    [DynamicPayTo is not supported for refundable options. Use a static
    address.]; the error at the end of [processRouteConfig] is not
    reached. *)
Theorem dynamic_payTo_rejected config factory createxAddress o :
  o ∈ optionsOf (accepts config) ->
  isRefundableOption o = true ->
  opt_payTo o = DynamicPayTo ->
  (forall config', processRouteConfig config factory createxAddress <> Ok config') /\
  (forall createx,
     Js.falsy (head (optionsOf (accepts config)) ≫= opt_network) = false ->
     getCreateXAddress (default "" (head (optionsOf (accepts config)) ≫= opt_network))
       createxAddress = Ok createx ->
     (forall o2 merchantPayout,
        o2 ∈ optionsOf (accepts config) -> isRefundableOption o2 = true ->
        opt_payTo o2 = StaticPayTo merchantPayout ->
        exists proxyAddress,
          computeRelayAddress createx factory merchantPayout = Ok proxyAddress) ->
     processRouteConfig config factory createxAddress
     = Throw (Error
         "DynamicPayTo is not supported for refundable options. Use a static address.")).
Proof.
  intros Ho Href Hdynamic.
  assert (forall createx,
            processPaymentOption o factory createx
            = Throw (Error
                "DynamicPayTo is not supported for refundable options. Use a static address."))
    as Hthrows.
  { intros createx. unfold processPaymentOption. now rewrite Href, Hdynamic. }
  split.
  - intros config' Hrun.
    apply processRouteConfig_Ok in Hrun as (createx & _ & _ & Haccepts & _).
    apply processAccepts_Forall2 in Haccepts as [Hall _].
    apply list_elem_of_lookup in Ho as [i Hi].
    destruct (Forall2_lookup_l _ _ _ _ _ Hall Hi) as (o' & _ & Ho').
    rewrite Hthrows in Ho'. discriminate.
  - intros createx Hnet Hcreatex Hstatic. unfold processRouteConfig.
    rewrite Hnet. unfold rbind at 1. rewrite Hcreatex.
    assert (existsb isRefundableOption (optionsOf (accepts config)) = true) as Hhas.
    { apply existsb_exists. exists o. split; [now apply list_elem_of_In|exact Href]. }
    rewrite Hhas. unfold rbind at 1.
    destruct (collectMerchantPayouts_Ok factory createx
                (List.filter isRefundableOption (optionsOf (accepts config))) ∅)
      as [payouts ->].
    { intros o2 m Ho2. apply list_elem_of_In, filter_In in Ho2 as [Hin Href2].
      apply Hstatic; [now apply list_elem_of_In|exact Href2]. }
    unfold rbind at 1.
    assert (mapRes_list (fun option => processPaymentOption option factory createx)
              (optionsOf (accepts config))
            = Throw (Error
                "DynamicPayTo is not supported for refundable options. Use a static address."))
      as Hmap.
    { apply mapRes_list_Throw.
      - apply Forall_forall. intros o2 Ho2. unfold processPaymentOption.
        destruct (isRefundableOption o2) eqn:Href2; [|left; eauto].
        destruct (opt_payTo o2) as [m|] eqn:HpayTo2; [|now right].
        destruct (Hstatic o2 m Ho2 Href2 HpayTo2) as [p ->]. left. cbn. eauto.
      - apply Exists_exists. exists o. split; [exact Ho|apply Hthrows]. }
    destruct (accepts config) as [o1|l]; cbn [optionsOf] in Hmap.
    + cbn [mapRes_list] in Hmap. unfold rbind in *.
      destruct (processPaymentOption o1 factory createx); [discriminate|].
      now injection Hmap as ->.
    + unfold rbind. now rewrite Hmap.
Qed.

End Marking.

(** ** The example facilitator *)

Section Example.

Context `{Viem} {W : Type} `{Clock W}.
Variable signer : FacilitatorEvmSigner W.

(** X17.  The [onBeforeSettle] hook of the example facilitator: whatever it
    answers aborts the settlement, and it answers nothing exactly when the
    helper returned [null]; when the helper throws, the reason is
    [refund_helper_failed: ] and the text of the error, and the stored
    results are unchanged; a result found in the map afterwards was there
    before, or is the response the helper just gave, under the non-empty
    nonce of the payload's authorization, where it is then found. *)
Theorem hook_stores_helper_responses paymentPayload paymentRequirements results
    (st : St W) answer results' st' :
  onBeforeSettle signer paymentPayload paymentRequirements results st
  = ((answer, results'), st') ->
  (forall hookResult, answer = Some hookResult -> abort hookResult = true) /\
  (answer = None <->
   settleWithRefundHelper paymentPayload paymentRequirements signer st = (Ok None, st')) /\
  (forall e,
     settleWithRefundHelper paymentPayload paymentRequirements signer st = (Throw e, st') ->
     answer = Some (mkHookResult true ("refund_helper_failed: " +:+ errorText e)) /\
     results' = results) /\
  (forall key response,
     results' !! key = Some response ->
     results !! key = Some response \/
     exists auth,
       authorization paymentPayload = Some auth /\ key = auth_nonce auth /\ key <> "" /\
       settleWithRefundHelper paymentPayload paymentRequirements signer st
       = (Ok (Some response), st')) /\
  (forall auth response,
     settleWithRefundHelper paymentPayload paymentRequirements signer st
     = (Ok (Some response), st') ->
     authorization paymentPayload = Some auth -> auth_nonce auth <> "" ->
     results' !! auth_nonce auth = Some response).
Proof.
  unfold onBeforeSettle.
  destruct (settleWithRefundHelper paymentPayload paymentRequirements signer st)
    as [[[response|]|e] st1] eqn:Hrun; intros [= <- <- <-].
  - split; [now intros hr [= <-]|]. split; [split; discriminate|]. split; [discriminate|].
    split.
    + intros key r Hkey. destruct (authorization paymentPayload) as [auth|]; [|now left].
      destruct (String.eqb_spec (auth_nonce auth) "") as [Hempty|Hne]; [now left|].
      destruct (decide (auth_nonce auth = key)) as [<-|Hother].
      * rewrite lookup_insert_eq in Hkey. injection Hkey as <-. right. now exists auth.
      * rewrite lookup_insert_ne in Hkey by exact Hother. now left.
    + intros auth r [= <-] -> Hne. rewrite (string_eqb_false _ _ Hne).
      apply lookup_insert_eq.
  - split; [discriminate|]. split; [easy|]. split; [discriminate|].
    split; [intros key r Hkey; now left|discriminate].
  - split; [now intros hr [= <-]|]. split; [split; discriminate|].
    split; [now intros e' [= <-]|]. split; [intros key r Hkey; now left|discriminate].
Qed.

Lemma replaceFirst_unfold s pattern replacement :
  replaceFirst s pattern replacement
  = if Js.startsWith s pattern then replacement +:+ Js.drop (String.length pattern) s
    else
      match s with
      | EmptyString => EmptyString
      | String c t => String c (replaceFirst t pattern replacement)
      end.
Proof. now destruct s. Qed.

Lemma drop_app p rest : Js.drop (String.length p) (p +:+ rest) = rest.
Proof.
  induction p as [|c p IH]; [now destruct rest|].
  rewrite string_app_cons. exact IH.
Qed.

(** Taking the heading off a message that begins with it. *)
Lemma replaceFirst_prefix p rest : replaceFirst (p +:+ rest) p "" = rest.
Proof. now rewrite replaceFirst_unfold, startsWith_app, drop_app, string_app_nil_l. Qed.

Lemma aborted_includes reason :
  Js.includes ("Settlement aborted: " +:+ reason) "Settlement aborted:" = true.
Proof.
  change ("Settlement aborted: " +:+ reason)
    with ("Settlement aborted:" +:+ (" " +:+ reason)).
  apply includes_here, startsWith_app.
Qed.

(** X18.  The [/settle] endpoint of the example facilitator, for a payment
    the helper settles, with a non-empty nonce.  [facilitator.settle] is
    taken to throw [Settlement aborted: ] and the reason when the hook
    aborts, leaving the map as the hook left it.  The endpoint replies with
    the helper's response, and no result is left under the nonce. *)
Theorem endpoint_returns_refund_settlement facilitatorSettle body paymentPayload
    paymentRequirements auth results response (st st1 st2 : St W) :
  body_paymentPayload body = Some paymentPayload ->
  body_paymentRequirements body = Some paymentRequirements ->
  authorization paymentPayload = Some auth ->
  auth_nonce auth <> "" ->
  settleWithRefundHelper paymentPayload paymentRequirements signer st
  = (Ok (Some response), st1) ->
  (forall hookResult results1,
     onBeforeSettle signer paymentPayload paymentRequirements results st
     = ((Some hookResult, results1), st1) ->
     facilitatorSettle paymentPayload paymentRequirements results st
     = ((Throw (Error ("Settlement aborted: " +:+ hook_reason hookResult)), results1), st2)) ->
  settleEndpoint facilitatorSettle body results st
  = ((ReplySettled response, delete (auth_nonce auth) results), st2).
Proof.
  intros Hpayload Hrequirements Hauth Hnonce Hrun Hcore.
  unfold settleEndpoint. rewrite Hpayload, Hrequirements.
  erewrite Hcore.
  2:{ unfold onBeforeSettle. rewrite Hrun, Hauth, (string_eqb_false _ _ Hnonce).
      reflexivity. }
  cbn [hook_reason]. unfold settleFailure, Error. cbn [from_option id].
  rewrite aborted_includes, replaceFirst_prefix.
  rewrite String.eqb_refl, Hpayload. cbn [mbind option_bind]. rewrite Hauth.
  rewrite (string_eqb_false _ _ Hnonce), lookup_insert_eq.
  now rewrite delete_insert_eq.
Qed.

(** X19.  The [/settle] endpoint, for a payment on which the helper throws,
    [facilitator.settle] being as for X18: the endpoint replies
    [success: false] with the reason [refund_helper_failed: ] and the text
    of the error, and the network of the payload, else of the requirements;
    the stored results are unchanged, and none is returned, not even one
    stored under the same nonce. *)
Theorem endpoint_reports_helper_failure facilitatorSettle body paymentPayload
    paymentRequirements results e (st st1 st2 : St W) :
  body_paymentPayload body = Some paymentPayload ->
  body_paymentRequirements body = Some paymentRequirements ->
  settleWithRefundHelper paymentPayload paymentRequirements signer st = (Throw e, st1) ->
  (forall hookResult results1,
     onBeforeSettle signer paymentPayload paymentRequirements results st
     = ((Some hookResult, results1), st1) ->
     facilitatorSettle paymentPayload paymentRequirements results st
     = ((Throw (Error ("Settlement aborted: " +:+ hook_reason hookResult)), results1), st2)) ->
  settleEndpoint facilitatorSettle body results st
  = ((ReplyAborted ("refund_helper_failed: " +:+ errorText e)
        (default "unknown"
           (Js.or (Js.or (body_payloadNetwork body)
                         (Some (req_network paymentRequirements)))
                  (Some "unknown"))),
      results), st2).
Proof.
  intros Hpayload Hrequirements Hrun Hcore.
  unfold settleEndpoint. rewrite Hpayload, Hrequirements.
  erewrite Hcore.
  2:{ unfold onBeforeSettle. rewrite Hrun. reflexivity. }
  cbn [hook_reason]. unfold settleFailure, Error. cbn [from_option id].
  rewrite aborted_includes, replaceFirst_prefix, Hrequirements.
  assert (String.eqb ("refund_helper_failed: " +:+ errorText e) "handled_by_refund_helper"
          = false) as ->.
  { rewrite string_app_cons. reflexivity. }
  reflexivity.
Qed.

End Example.

(** ** These properties at work on the concrete provider *)

(** Nothing has code, the factory included. *)
Lemma factory_without_code_witness :
  exists msg st',
    settleWithRefundHelper Demo.payload Demo.requirements
      (Demo.signer Scenarios.noCode) (mkSt 0%nat [])
    = (Throw (Error ("Failed to check factory contract: " +:+ msg)), st') /\
    msg = "Factory contract does not exist at " +:+ Demo.factory +:+
          ". Invalid refund extension." /\
    log st' = [EvGetCode Demo.factory (Ok None)].
Proof.
  edestruct (factory_without_code_raises (Demo.signer Scenarios.noCode) Demo.payload
               Demo.requirements) as (msg & Hrun & Hmsg & _).
  - vm_compute; reflexivity.
  - vm_compute; reflexivity.
  - vm_compute; reflexivity.
  - intros code [= <-]. reflexivity.
  - eexists msg, _. split; [exact Hrun|]. split; [now apply (Hmsg None)|reflexivity].
Defined.

(** The relay has no code and the extension names no merchant for it. *)
Lemma undeployed_without_merchant_witness :
  exists st2,
    settleWithRefundHelper Scenarios.payloadWithoutEntry Demo.requirements
      (Demo.signer Demo.undeployed) (mkSt 0%nat [])
    = (Ok None, st2) /\
    log st2 = [EvGetCode Demo.proxy (Ok None); EvGetCode Demo.factory (Ok (Some "0x6080"))].
Proof.
  eexists.
  edestruct (undeployed_without_merchant_not_applicable (Demo.signer Demo.undeployed)
               Scenarios.payloadWithoutEntry Demo.requirements) as [Hrun Hlog].
  - vm_compute; reflexivity.
  - vm_compute; reflexivity.
  - vm_compute; reflexivity.
  - vm_compute; reflexivity.
  - vm_compute; reflexivity.
  - vm_compute; reflexivity.
  - split; [exact Hrun|exact Hlog].
Defined.

(** The escrow does not know the merchant. *)
Lemma unregistered_merchant_witness :
  exists st3,
    settleWithRefundHelper Demo.payload Demo.requirements
      (Demo.signer Scenarios.unregistered) (mkSt 0%nat [])
    = (Throw (Error ("Merchant " +:+ Demo.merchant +:+
        " is not registered. Please register at https://app.402r.org to enable refund functionality.")),
       st3).
Proof.
  eexists.
  eapply proj1.
  eapply (unregistered_merchant_raises (Demo.signer Scenarios.unregistered) Demo.payload
            Demo.requirements _ (mkRelay Demo.proxy Demo.merchant Demo.escrow)).
  - vm_compute; reflexivity.
  - vm_compute; reflexivity.
  - vm_compute; reflexivity.
  - vm_compute; reflexivity.
  - vm_compute; reflexivity.
  - vm_compute; reflexivity.
Defined.


(** The payment of the examples is settled. *)
Lemma response_witness :
  exists txHash earlier args receipt,
    log (snd (settleWithRefundHelper Demo.payload Demo.requirements
                (Demo.signer Demo.deployed) (mkSt 0%nat [])))
    = EvWait txHash (Ok receipt)
      :: EvWrite (mkWrite "0x2222222222222222222222222222222222222222" RELAY_PROXY_ABI
                    "executeDeposit" args) (Ok txHash)
      :: earlier ++ [] /\
    receipt_status receipt = "success".
Proof.
  edestruct (response_means_confirmed_deposit (Demo.signer Demo.deployed) Demo.payload
               Demo.requirements (mkSt 0%nat []))
    as (auth & sig & proxyAddress & ps & p & fromUser & amount & validAfter & validBefore &
        txHash & receipt & ec & mc & earlier & _ & Hproxy & _ & _ & _ & _ & _ & _ & _ &
        Hstatus & _ & Hlog & _).
  - vm_compute; reflexivity.
  - vm_compute in Hproxy. injection Hproxy as <-.
    eexists txHash, earlier, _, receipt. split; [exact Hlog|exact Hstatus].
Defined.


(** The code shows at the third poll: delays of 1 s and 2 s. *)
Lemma code_polling_witness :
  exists n polls last,
    (n < 5)%nat /\
    log (snd (pollDeployedCode (Demo.signer Scenarios.deploysOnDemand) Demo.proxy 5 0 None
                (mkSt 3%nat [])))
    = EvGetCode Demo.proxy last :: polls ++ [] /\
    count isGetCode polls = n /\
    sleepsOf polls = map (fun k => 1000 * Z.of_nat k) (seq 1 n) /\
    totalDelay polls <= 10000.
Proof.
  edestruct (code_polling_policy (Demo.signer Scenarios.deploysOnDemand) Demo.proxy
               (mkSt 3%nat []))
    as (n & polls & last & Hn & Hlog & Hcount & Hsleeps & Htotal & _).
  - vm_compute; reflexivity.
  - now exists n, polls, last.
Defined.

(** A relay deployed on demand. *)
Lemma deployRelay_outcome_witness :
  exists expectedAddress txHash receipt code reads1 polls reads3,
    receipt_status receipt = "success" /\
    codeExists code = true /\
    log (snd (deployRelay (Demo.signer Scenarios.deploysOnDemand) Demo.factory
                Demo.merchant Demo.proxy (mkSt 0%nat [])))
    = EvRead (mkRead Demo.proxy RELAY_PROXY_ABI "ESCROW" []) (Ok (VString Demo.escrow))
      :: reads3 ++
      EvGetCode Demo.proxy (Ok code) :: polls ++
      EvWait txHash (Ok receipt) ::
      EvWrite (mkWrite "0x1111111111111111111111111111111111111111" FACTORY_ABI
                 "deployRelay" [AHex "0x3333333333333333333333333333333333333333"])
        (Ok txHash) ::
      EvRead (mkRead "0x1111111111111111111111111111111111111111" FACTORY_ABI
                "getRelayAddress" ["0x3333333333333333333333333333333333333333"])
        (Ok (VString expectedAddress)) :: reads1 ++ [].
Proof.
  assert (deployRelay (Demo.signer Scenarios.deploysOnDemand) Demo.factory
            Demo.merchant Demo.proxy (mkSt 0%nat [])
          = (Ok Demo.escrow,
             snd (deployRelay (Demo.signer Scenarios.deploysOnDemand) Demo.factory
                    Demo.merchant Demo.proxy (mkSt 0%nat [])))) as Hrun
    by (vm_compute; reflexivity).
  apply deployRelay_outcome in Hrun
    as (fc & mc & expected & txHash & receipt & code & reads1 & polls & reads3 &
        Hf & Hm & _ & Hstatus & Hcode & Hlog & _).
  vm_compute in Hf. injection Hf as <-. vm_compute in Hm. injection Hm as <-.
  exists expected, txHash, receipt, code, reads1, polls, reads3.
  split; [exact Hstatus|]. split; [exact Hcode|]. exact Hlog.
Defined.

(** A reason in the cause, and a [shortMessage] that says less. *)
Lemma revert_reason_of_cause_witness :
  classifyExecutionError
    (TObj true None (Some "execution reverted") None None None
       (Some "The contract function reverted")
       (Some (TObj true None (Some "reverted") None (Some "Merchant not registered") None
                None None)))
  = Error ("Failed to execute proxy.executeDeposit: Contract reverted: " +:+
           "Merchant not registered").
Proof.
  eapply proj2.
  apply (revert_reason_of_cause_comes_first true None (Some "execution reverted") None None
           (Some "The contract function reverted") true None (Some "reverted") None
           "Merchant not registered" None None).
  discriminate.
Defined.

(** A reason in the [shortMessage] only, followed by a no-break space, a
    line separator and a second line. *)
Lemma revert_reason_of_short_message_witness :
  classifyExecutionError
    (TObj true None (Some "failed") None None None
       (Some ("execution reverted: " +:+ String "I" Scenarios.twoLines)) None)
  = Error ("Failed to execute proxy.executeDeposit: Contract reverted: " +:+
           "Insufficient balance").
Proof.
  apply (revert_reason_of_short_message true None (Some "failed") None None None
           "I"%char Scenarios.twoLines); reflexivity.
Defined.

(** A route with a refundable and a plain option. *)
Lemma processed_route_witness :
  exists config',
    processRouteConfig Scenarios.mixedRoute Demo.factory None = Ok config' /\
    route_description config' = route_description Scenarios.mixedRoute /\
    length (optionsOf (accepts config')) = 2%nat.
Proof.
  eexists. split; [vm_compute; reflexivity|].
  edestruct (processed_route_keeps_the_rest Scenarios.mixedRoute Demo.factory None)
    as (Hdescr & Hlength & _).
  - vm_compute; reflexivity.
  - split; [exact Hdescr|exact Hlength].
Defined.



(** A refundable option whose [payTo] is a function. *)
Lemma dynamic_payTo_witness :
  processRouteConfig Scenarios.dynamicRoute Demo.factory None
  = Throw (Error
      "DynamicPayTo is not supported for refundable options. Use a static address.").
Proof.
  edestruct (dynamic_payTo_rejected Scenarios.dynamicRoute Demo.factory None) as [_ Hthrows].
  - apply list_elem_of_singleton. reflexivity.
  - vm_compute; reflexivity.
  - reflexivity.
  - eapply Hthrows.
    + reflexivity.
    + vm_compute; reflexivity.
    + intros o2 m Ho2 _ HpayTo. apply list_elem_of_singleton in Ho2. subst o2. discriminate.
Defined.

(** The hook, for the payment of the examples: the response is stored under
    the nonce. *)
Lemma hook_witness :
  exists results',
    fst (onBeforeSettle (Demo.signer Demo.deployed) Demo.payload Demo.requirements ∅
           (mkSt 0%nat []))
    = (Some (mkHookResult true "handled_by_refund_helper"), results') /\
    results' !! Demo.nonce
    = Some (mkSettleResponse true "0xabc1" "eip155:84532" Demo.payerAddress).
Proof.
  exists (<[Demo.nonce := mkSettleResponse true "0xabc1" "eip155:84532" Demo.payerAddress]> ∅).
  split; [reflexivity|].
  edestruct (hook_stores_helper_responses (Demo.signer Demo.deployed) Demo.payload
               Demo.requirements ∅ (mkSt 0%nat [])
               (Some (mkHookResult true "handled_by_refund_helper"))
               (<[Demo.nonce := mkSettleResponse true "0xabc1" "eip155:84532"
                                  Demo.payerAddress]> ∅)
               (snd (settleWithRefundHelper Demo.payload Demo.requirements
                       (Demo.signer Demo.deployed) (mkSt 0%nat []))))
    as (_ & _ & _ & _ & Hstored).
  - reflexivity.
  - apply (Hstored (Demo.authorizationTo Demo.proxy)); [reflexivity|reflexivity|].
    discriminate.
Defined.

(** The endpoint, for the payment of the examples. *)
Lemma endpoint_refund_witness :
  exists st2,
    settleEndpoint (Scenarios.settleThroughHook Demo.deployed) Scenarios.request ∅ (mkSt 0%nat [])
    = ((ReplySettled (mkSettleResponse true "0xabc1" "eip155:84532" Demo.payerAddress),
        delete Demo.nonce ∅), st2).
Proof.
  eexists.
  eapply (endpoint_returns_refund_settlement (Demo.signer Demo.deployed)
            (Scenarios.settleThroughHook Demo.deployed) Scenarios.request Demo.payload Demo.requirements
            (Demo.authorizationTo Demo.proxy)).
  - reflexivity.
  - reflexivity.
  - reflexivity.
  - discriminate.
  - vm_compute; reflexivity.
  - intros hookResult results1 Hhook. unfold Scenarios.settleThroughHook. rewrite Hhook. reflexivity.
Defined.

(** The endpoint, when the merchant is not registered. *)
Lemma endpoint_failure_witness :
  exists st2,
    settleEndpoint (Scenarios.settleThroughHook Scenarios.unregistered) Scenarios.request ∅ (mkSt 0%nat [])
    = ((ReplyAborted
          ("refund_helper_failed: " +:+ "Merchant " +:+ Demo.merchant +:+
           " is not registered. Please register at https://app.402r.org to enable refund functionality.")
          "eip155:84532", ∅), st2).
Proof.
  eexists.
  eapply (endpoint_reports_helper_failure (Demo.signer Scenarios.unregistered)
            (Scenarios.settleThroughHook Scenarios.unregistered) Scenarios.request Demo.payload Demo.requirements ∅
            (Error ("Merchant " +:+ Demo.merchant +:+
               " is not registered. Please register at https://app.402r.org to enable refund functionality."))).
  - reflexivity.
  - reflexivity.
  - vm_compute; reflexivity.
  - intros hookResult results1 Hhook. unfold Scenarios.settleThroughHook. rewrite Hhook. reflexivity.
Defined.
